(** * The Arrow-to-Parquet column writer (cpp/src/parquet/arrow/writer.cc)

    A shallow embedding of the level builder, the chunk orchestrator, the
    per-type materialisers, the timestamp coercion engine and the close
    logic of the file writer, followed by the properties established about
    them.

    Conventions.
    - [int64_t], [int32_t] and [int16_t] values are integers in [Z]; a
      [static_cast] to a narrower type is written with [wrap].
    - A buffer reached through a raw pointer is a list; a read outside the
      list is undefined in the source and reads [0] here.  Statements
      whose conclusion depends on such a read carry the hypotheses that
      keep it in range.
    - A loop whose counter is declared [int] is modelled as an iteration
      over the positions [0 .. length-1]; this agrees with the source as
      long as the length fits in an [int].
    - Resizing a buffer and appending to a builder succeed: the memory
      pool does not run out.
    - A function that returns [option] has no result ([None]) where the
      source's behaviour is undefined (a vector indexed or written past
      its end) or where the bound on its recursion is used up; the lemmas
      [GenerateLevels_returns] and [write_chunks_budget] show that the
      bounds chosen are never used up. *)

From Stdlib Require Import ZArith List Bool Lia String.
Import ListNotations.
Local Open Scope Z_scope.

(** ** Machine integers *)

Definition wrap (bits : Z) (x : Z) : Z :=
  (x + 2 ^ (bits - 1)) mod 2 ^ bits - 2 ^ (bits - 1).

Definition int16 (x : Z) : Z := wrap 16 x.
Definition int32 (x : Z) : Z := wrap 32 x.
Definition int64 (x : Z) : Z := wrap 64 x.

Definition INT32_MAX : Z := 2147483647.

(** [p[i]] for a raw pointer [p] into a buffer. *)
Definition zth {A : Type} (l : list A) (i : Z) (d : A) : A :=
  if i <? 0 then d else nth (Z.to_nat i) l d.

(** [p + k] for a raw pointer [p]. *)
Definition ptr_add {A : Type} (l : list A) (k : Z) : list A :=
  skipn (Z.to_nat k) l.

(** ** Types and fields (arrow::DataType, arrow::Field) *)

Inductive TypeId : Type :=
| NA | BOOL | UINT8 | INT8 | UINT16 | INT16 | UINT32 | INT32 | UINT64 | INT64
| HALF_FLOAT | FLOAT | DOUBLE | STRING | BINARY | FIXED_SIZE_BINARY
| DATE32 | DATE64 | TIMESTAMP | TIME32 | TIME64 | INTERVAL | DECIMAL
| LIST | STRUCT | UNION | DICTIONARY | MAP | EXTENSION | FIXED_SIZE_LIST.

Definition TypeId_eqb (a b : TypeId) : bool :=
  match a, b with
  | NA, NA | BOOL, BOOL | UINT8, UINT8 | INT8, INT8 | UINT16, UINT16
  | INT16, INT16 | UINT32, UINT32 | INT32, INT32 | UINT64, UINT64
  | INT64, INT64 | HALF_FLOAT, HALF_FLOAT | FLOAT, FLOAT | DOUBLE, DOUBLE
  | STRING, STRING | BINARY, BINARY | FIXED_SIZE_BINARY, FIXED_SIZE_BINARY
  | DATE32, DATE32 | DATE64, DATE64 | TIMESTAMP, TIMESTAMP | TIME32, TIME32
  | TIME64, TIME64 | INTERVAL, INTERVAL | DECIMAL, DECIMAL | LIST, LIST
  | STRUCT, STRUCT | UNION, UNION | DICTIONARY, DICTIONARY | MAP, MAP
  | EXTENSION, EXTENSION | FIXED_SIZE_LIST, FIXED_SIZE_LIST => true
  | _, _ => false
  end.

(** arrow::TimeUnit::type, in the order of the enumeration. *)
Inductive TimeUnit : Type := SECOND | MILLI | MICRO | NANO.

Definition TimeUnit_eqb (a b : TimeUnit) : bool :=
  match a, b with
  | SECOND, SECOND | MILLI, MILLI | MICRO, MICRO | NANO, NANO => true
  | _, _ => false
  end.

(** The parameters a concrete type class carries besides its children. *)
Inductive TypeParams : Type :=
| NoParams
| UnitParam (unit : TimeUnit)
| WidthParam (byte_width : Z)
| DecimalParams (precision scale : Z).

Inductive DataType : Type :=
| mkDataType (id : TypeId) (params : TypeParams) (children : list Field)
with Field : Type :=
| mkField (name : string) (nullable : bool) (type : DataType).

Definition id (t : DataType) : TypeId :=
  match t with mkDataType i _ _ => i end.
Definition params (t : DataType) : TypeParams :=
  match t with mkDataType _ p _ => p end.
Definition children (t : DataType) : list Field :=
  match t with mkDataType _ _ c => c end.
Definition num_children (t : DataType) : Z :=
  Z.of_nat (List.length (children t)).
Definition nullable (f : Field) : bool :=
  match f with mkField _ n _ => n end.
Definition type (f : Field) : DataType :=
  match f with mkField _ _ t => t end.

Definition unit (t : DataType) : TimeUnit :=
  match params t with UnitParam u => u | _ => SECOND end.
Definition precision (t : DataType) : Z :=
  match params t with DecimalParams p _ => p | _ => 0 end.
(** Decimal128Type is a FixedSizeBinaryType of 16 bytes. *)
Definition byte_width (t : DataType) : Z :=
  match params t with
  | WidthParam w => w
  | DecimalParams _ _ => 16
  | _ => 0
  end.

Definition timestamp (u : TimeUnit) : DataType :=
  mkDataType TIMESTAMP (UnitParam u) [].

(** ** Status *)

(** The arguments of a variadic status constructor, before they are
    printed into the message. *)
Inductive MsgPart : Type :=
| Str (s : string)
| Int64Value (v : Z)
| TypeString (t : DataType).

Inductive Status : Type :=
| OK
| Invalid (msg : list MsgPart)
| NotImplemented (msg : list MsgPart)
| UnknownError (msg : list MsgPart).

Definition ok (s : Status) : bool :=
  match s with OK => true | _ => false end.

(** A call that fills output parameters: either the outputs, or the error
    status it returned. *)
Inductive Result (A : Type) : Type :=
| Success (a : A)
| Failure (s : Status).
Arguments Success {A} a.
Arguments Failure {A} s.

(** ** Validity bitmaps (arrow::BitUtil, arrow::internal::BitmapReader) *)

(** Modelled from the spec: BitUtil::GetBit is outside the sources at hand;
    a validity bitmap holds one bit per slot, least significant bit
    first within each byte, and a bit of 0 marks a null. *)
Definition GetBit (bits : list Z) (i : Z) : bool :=
  Z.testbit (zth bits (Z.shiftr i 3) 0) (Z.land i 7).

(** A null bitmap pointer dereferenced is undefined; it reads as an empty
    buffer here. *)
Definition bitmap_bytes (bitmap : option (list Z)) : list Z :=
  match bitmap with Some b => b | None => [] end.

(** Modelled from the spec: BitmapReader is outside the sources at hand; it
    walks the bits of a bitmap from a start offset. *)
Record BitmapReader : Type := mkBitmapReader {
  reader_bitmap : option (list Z);
  reader_position : Z
}.

Definition IsSet (r : BitmapReader) : bool :=
  GetBit (bitmap_bytes (reader_bitmap r)) (reader_position r).

Definition Next (r : BitmapReader) : BitmapReader :=
  mkBitmapReader (reader_bitmap r) (reader_position r + 1).

(** ** Arrays (arrow::Array and its subclasses) *)

Record ArrayData : Type := mkArrayData {
  data_length : Z;
  data_null_count : Z;
  data_offset : Z;
  data_null_bitmap : option (list Z)
}.

(** The nested or encoded array classes the level builder rejects. *)
Inductive ArrayKind : Type :=
| Map | FixedSizeList | Struct | Union | Dictionary | Extension.

(** [FlatArray]: any array without child arrays.  [values] is the values
    buffer (elements of the C type for numeric arrays, bytes for boolean,
    binary, fixed-size binary and decimal arrays, absent when the buffer
    pointer is null) and [value_offsets] the offsets buffer of a binary
    array.  [ListArray]: a list array with its offsets buffer and its
    child. *)
Inductive Array : Type :=
| FlatArray (ty : DataType) (data : ArrayData) (values : option (list Z))
            (value_offsets : list Z)
| ListArray (ty : DataType) (data : ArrayData) (value_offsets : list Z)
            (values : Array)
| OtherArray (kind : ArrayKind) (ty : DataType) (data : ArrayData).

Definition array_data (a : Array) : ArrayData :=
  match a with
  | FlatArray _ d _ _ | ListArray _ d _ _ | OtherArray _ _ d => d
  end.

Definition array_type (a : Array) : DataType :=
  match a with
  | FlatArray t _ _ _ | ListArray t _ _ _ | OtherArray _ t _ => t
  end.

Definition length (a : Array) : Z := data_length (array_data a).
Definition offset (a : Array) : Z := data_offset (array_data a).
Definition null_bitmap_data (a : Array) : option (list Z) :=
  data_null_bitmap (array_data a).

(** Modelled from the spec: Array::IsNull is outside the sources at hand;
    an absent validity bitmap means no nulls. *)
Definition IsNull (a : Array) (i : Z) : bool :=
  match null_bitmap_data a with
  | None => false
  | Some bits => negb (GetBit bits (i + offset a))
  end.

Definition IsValid (a : Array) (i : Z) : bool := negb (IsNull a i).

(** Positions [0 .. n-1]. *)
Definition positions (n : Z) : list Z :=
  map Z.of_nat (seq 0 (Z.to_nat n)).

Definition count_nulls (a : Array) : Z :=
  Z.of_nat (List.length (filter (IsNull a) (positions (length a)))).

(** Modelled from the spec: Array::null_count is outside the sources at
    hand; a stored count that is negative (unknown, as a slice leaves it)
    is recomputed from the validity bitmap. *)
Definition null_count (a : Array) : Z :=
  if data_null_count (array_data a) <? 0 then count_nulls a
  else data_null_count (array_data a).

Definition kUnknownNullCount : Z := -1.

Definition slice_data (d : ArrayData) (off len : Z) : ArrayData :=
  mkArrayData (Z.min (data_length d - off) len) kUnknownNullCount
              (off + data_offset d) (data_null_bitmap d).

(** Modelled from the spec: Array::Slice is outside the sources at hand; a
    slice shares the buffers and moves the offset and the length.  Its
    null count is left unknown, except that a slice of a null array is a
    null array, all of whose slots are null. *)
Definition Slice (a : Array) (off len : Z) : Array :=
  match a with
  | FlatArray t d v o =>
      let d' := slice_data d off len in
      FlatArray t
        (if TypeId_eqb (id t) NA
         then mkArrayData (data_length d') (data_length d') (data_offset d')
                (data_null_bitmap d')
         else d')
        v o
  | ListArray t d o v => ListArray t (slice_data d off len) o v
  | OtherArray k t d => OtherArray k t (slice_data d off len)
  end.

(** ListArray::raw_value_offsets and ListArray::value_offset. *)
Definition raw_value_offsets (d : ArrayData) (offs : list Z) : list Z :=
  ptr_add offs (data_offset d).
Definition value_offset (d : ArrayData) (offs : list Z) (i : Z) : Z :=
  zth offs (i + data_offset d) 0.

(** ** The level builder (class LevelBuilder) *)

Record LevelBuilder : Type := mkLevelBuilder {
  def_levels_ : list Z;
  rep_levels_ : list Z;
  null_counts_ : list Z;
  valid_bitmaps_ : list (option (list Z));
  offsets_ : list (list Z);
  array_offsets_ : list Z;
  nullable_ : list bool;
  min_offset_idx_ : Z;
  max_offset_idx_ : Z;
  values_array_ : option Array
}.

(** A freshly constructed builder; the two offset indices are assigned at
    the start of [GenerateLevels]. *)
Definition new_LevelBuilder : LevelBuilder :=
  mkLevelBuilder [] [] [] [] [] [] [] 0 0 None.

Definition append_def (lb : LevelBuilder) (n : Z) (v : Z) : LevelBuilder :=
  mkLevelBuilder (def_levels_ lb ++ repeat v (Z.to_nat n)) (rep_levels_ lb)
    (null_counts_ lb) (valid_bitmaps_ lb) (offsets_ lb) (array_offsets_ lb)
    (nullable_ lb) (min_offset_idx_ lb) (max_offset_idx_ lb) (values_array_ lb).

Definition append_rep (lb : LevelBuilder) (n : Z) (v : Z) : LevelBuilder :=
  mkLevelBuilder (def_levels_ lb) (rep_levels_ lb ++ repeat v (Z.to_nat n))
    (null_counts_ lb) (valid_bitmaps_ lb) (offsets_ lb) (array_offsets_ lb)
    (nullable_ lb) (min_offset_idx_ lb) (max_offset_idx_ lb) (values_array_ lb).

Definition push_nullable (lb : LevelBuilder) (b : bool) : LevelBuilder :=
  mkLevelBuilder (def_levels_ lb) (rep_levels_ lb)
    (null_counts_ lb) (valid_bitmaps_ lb) (offsets_ lb) (array_offsets_ lb)
    (nullable_ lb ++ [b]) (min_offset_idx_ lb) (max_offset_idx_ lb)
    (values_array_ lb).

Definition set_offset_idx (lb : LevelBuilder) (lo hi : Z) : LevelBuilder :=
  mkLevelBuilder (def_levels_ lb) (rep_levels_ lb)
    (null_counts_ lb) (valid_bitmaps_ lb) (offsets_ lb) (array_offsets_ lb)
    (nullable_ lb) lo hi (values_array_ lb).

Definition not_implemented_visit (k : ArrayKind) : Status :=
  NotImplemented
    [Str match k with
         | Map => "Level generation for Map not supported yet"
         | FixedSizeList => "Level generation for FixedSizeList not supported yet"
         | Struct => "Level generation for Struct not supported yet"
         | Union => "Level generation for Union not supported yet"
         | Dictionary => "Level generation for Dictionary not supported yet"
         | Extension => "Level generation for Extension not supported yet"
         end].

(** [VisitInline] with the three families of [Visit] overloads: flat
    arrays, list arrays, and the classes that are not implemented. *)
Fixpoint VisitInline (array : Array) (lb : LevelBuilder)
  : Status * LevelBuilder :=
  match array with
  | FlatArray _ d _ _ =>
      (OK,
       mkLevelBuilder (def_levels_ lb) (rep_levels_ lb)
         (null_counts_ lb ++ [null_count array])
         (valid_bitmaps_ lb ++ [data_null_bitmap d])
         (offsets_ lb)
         (array_offsets_ lb ++ [int32 (data_offset d)])
         (nullable_ lb) (min_offset_idx_ lb) (max_offset_idx_ lb)
         (Some array))
  | ListArray _ d offs values =>
      VisitInline values
        (mkLevelBuilder (def_levels_ lb) (rep_levels_ lb)
           (null_counts_ lb ++ [null_count array])
           (valid_bitmaps_ lb ++ [data_null_bitmap d])
           (offsets_ lb ++ [raw_value_offsets d offs])
           (array_offsets_ lb ++ [int32 (data_offset d)])
           (nullable_ lb)
           (value_offset d offs (min_offset_idx_ lb))
           (value_offset d offs (max_offset_idx_ lb))
           (values_array_ lb))
  | OtherArray k _ _ => (not_implemented_visit k, lb)
  end.

(** The walk down the field that collects nullability: the [while] loop of
    [GenerateLevels], entered after the root's flag has been pushed. *)
Fixpoint walk_nullable (current_field : Field) (lb : LevelBuilder)
  : Status * LevelBuilder :=
  match current_field with
  | mkField _ _ (mkDataType _ _ ch) =>
      match ch with
      | [] => (OK, lb)
      | [child0] => walk_nullable child0 (push_nullable lb (nullable child0))
      | _ :: _ :: _ =>
          (NotImplemented
             [Str "Fields with more than one child are not supported."], lb)
      end
  end.

(** The 16-bit levels vectors index their per-layer vectors by the
    repetition level. *)
Definition at_level {A : Type} (v : list A) (level : Z) (d : A) : A :=
  zth v level d.

Section HandleLists.

(** [HandleListEntries] one layer further down; [None] when the
    recursion budget is spent. *)
Variable entries :
  Z -> Z -> Z -> Z -> LevelBuilder -> option (Status * LevelBuilder).

(** The loop over the leaf children of one list. *)
Definition leaf_def_levels (lb : LevelBuilder) (def_level : Z)
    (recursion_level inner_offset inner_length : Z) : list Z :=
  let nullable_level := at_level (nullable_ lb) recursion_level false in
  let level_null_count := at_level (null_counts_ lb) recursion_level 0 in
  let level_valid_bitmap := at_level (valid_bitmaps_ lb) recursion_level None in
  map (fun i =>
         if nullable_level &&
            ((level_null_count =? 0) ||
             GetBit (bitmap_bytes level_valid_bitmap)
               (inner_offset + i + at_level (array_offsets_ lb) recursion_level 0))
         then int16 (def_level + 2)
         else int16 (def_level + 1))
      (positions inner_length).

Definition HandleNonNullList_body (def_level rep_level index : Z)
    (lb : LevelBuilder) : option (Status * LevelBuilder) :=
  let inner_offset := zth (at_level (offsets_ lb) rep_level []) index 0 in
  let inner_length :=
    int32 (zth (at_level (offsets_ lb) rep_level []) (index + 1) 0 - inner_offset) in
  let recursion_level := rep_level + 1 in
  if inner_length =? 0 then Some (OK, append_def lb 1 def_level)
  else if recursion_level <? Z.of_nat (List.length (offsets_ lb)) then
    entries (int16 (def_level + 1)) (int16 (rep_level + 1))
            inner_offset inner_length lb
  else
    let level_null_count := at_level (null_counts_ lb) recursion_level 0 in
    let level_valid_bitmap := at_level (valid_bitmaps_ lb) recursion_level None in
    let lb1 :=
      if 1 <=? inner_length
      then append_rep lb (inner_length - 1) (int16 (rep_level + 1))
      else lb in
    if negb (level_null_count =? 0) &&
       match level_valid_bitmap with None => true | Some _ => false end
    then Some (OK, append_def lb1 inner_length (int16 (def_level + 1)))
    else
      Some (OK,
            mkLevelBuilder
              (def_levels_ lb1 ++
               leaf_def_levels lb1 def_level recursion_level inner_offset
                 inner_length)
              (rep_levels_ lb1) (null_counts_ lb1) (valid_bitmaps_ lb1)
              (offsets_ lb1) (array_offsets_ lb1) (nullable_ lb1)
              (min_offset_idx_ lb1) (max_offset_idx_ lb1) (values_array_ lb1)).

Definition HandleList_body (def_level rep_level index : Z)
    (lb : LevelBuilder) : option (Status * LevelBuilder) :=
  if at_level (nullable_ lb) rep_level false then
    if (at_level (null_counts_ lb) rep_level 0 =? 0) ||
       GetBit (bitmap_bytes (at_level (valid_bitmaps_ lb) rep_level None))
              (index + at_level (array_offsets_ lb) rep_level 0)
    then HandleNonNullList_body (int16 (def_level + 1)) rep_level index lb
    else Some (OK, append_def lb 1 def_level)
  else HandleNonNullList_body def_level rep_level index lb.

(** The [for] loop of [HandleListEntries]: [n] iterations remain and
    the counter stands at [i]. *)
Fixpoint entries_loop (n : nat) (i : Z) (def_level rep_level offset : Z)
    (lb : LevelBuilder) : option (Status * LevelBuilder) :=
  match n with
  | O => Some (OK, lb)
  | S n' =>
      let lb1 := if 0 <? i then append_rep lb 1 rep_level else lb in
      match HandleList_body def_level rep_level (offset + i) lb1 with
      | None => None
      | Some (OK, lb2) => entries_loop n' (i + 1) def_level rep_level offset lb2
      | Some (err, lb2) => Some (err, lb2)
      end
  end.

End HandleLists.

(** [HandleListEntries] with a bound on the depth of the recursion through
    [HandleList] and [HandleNonNullList]. *)
Fixpoint HandleListEntries (fuel : nat) (def_level rep_level offset length : Z)
    (lb : LevelBuilder) : option (Status * LevelBuilder) :=
  match fuel with
  | O => None
  | S fuel' =>
      entries_loop (HandleListEntries fuel') (Z.to_nat length) 0
        def_level rep_level offset lb
  end.

Definition HandleList (fuel : nat) :=
  HandleList_body (HandleListEntries fuel).
Definition HandleNonNullList (fuel : nat) :=
  HandleNonNullList_body (HandleListEntries fuel).

(** The loop that reads a flat array's validity bits into levels. *)
Fixpoint read_valid_bits (n : nat) (valid_bits_reader : BitmapReader) : list Z :=
  match n with
  | O => []
  | S n' =>
      (if IsSet valid_bits_reader then 1 else 0)
        :: read_valid_bits n' (Next valid_bits_reader)
  end.

(** The output parameters of [GenerateLevels].  An absent level buffer is
    a null [shared_ptr]. *)
Record Levels : Type := mkLevels {
  values_offset : Z;
  num_values : Z;
  num_levels : Z;
  def_levels_out : option (list Z);
  rep_levels_out : option (list Z);
  values_array : option Array
}.

(** [LevelBuilder::GenerateLevels] on a fresh builder.  The primitive
    branch writes the definition levels into the writer's scratch buffer,
    resized to [length] entries, and hands that buffer out.  [None] only
    when the recursion budget is spent. *)
Definition GenerateLevels (array : Array) (field : Field)
  : option (Result Levels) :=
  let lb0 := set_offset_idx new_LevelBuilder 0 (length array) in
  match VisitInline array lb0 with
  | (OK, lb1) =>
      let num_values := max_offset_idx_ lb1 - min_offset_idx_ lb1 in
      let values_offset := min_offset_idx_ lb1 in
      match walk_nullable field (push_nullable lb1 (nullable field)) with
      | (OK, lb2) =>
          if Nat.eqb (List.length (nullable_ lb2)) 1 then
            let def_levels :=
              if at_level (nullable_ lb2) 0 false then
                Some
                  (if null_count array =? 0
                   then repeat 1 (Z.to_nat (length array))
                   else if null_count array =? length array
                   then repeat 0 (Z.to_nat (length array))
                   else read_valid_bits (Z.to_nat (length array))
                          (mkBitmapReader (null_bitmap_data array) (offset array)))
              else None in
            Some (Success
                    (mkLevels values_offset num_values (length array)
                       def_levels None (values_array_ lb2)))
          else
            let lb3 := append_rep lb2 1 0 in
            match HandleListEntries (S (List.length (offsets_ lb3))) 0 0 0
                    (length array) lb3 with
            | None => None
            | Some (OK, lb4) =>
                Some (Success
                        (mkLevels values_offset num_values
                           (Z.of_nat (List.length (rep_levels_ lb4)))
                           (Some (def_levels_ lb4)) (Some (rep_levels_ lb4))
                           (values_array_ lb4)))
            | Some (err, _) => Some (Failure err)
            end
      | (err, _) => Some (Failure err)
      end
  | (err, _) => Some (Failure err)
  end.

(** ** The underlying column writer (parquet::ColumnWriter) *)

Inductive ParquetType : Type :=
| BooleanType | Int32Type | Int64Type | Int96Type
| FloatType | DoubleType | ByteArrayType | FLBAType.

Inductive ParquetVersion : Type := PARQUET_1_0 | PARQUET_2_0.

(** The values pointer handed to the column writer, with the memory it
    points to.  [Int96s u vs] stands for the Impala timestamps computed
    from [vs] in unit [u]; [ByteArrays] are (length, pointer) pairs and
    [FLBAs] bare pointers, a pointer being the bytes from its target on. *)
Inductive Values : Type :=
| NoValues
| Numbers (vs : list Z)
| Booleans (vs : list bool)
| Int96s (u : TimeUnit) (vs : list Z)
| ByteArrays (vs : list (Z * list Z))
| FLBAs (vs : list (list Z)).

(** One call on the typed column writer. *)
Inductive WriterCall : Type :=
| CallWriteBatch (pt : ParquetType) (num_levels : Z)
    (def_levels rep_levels : option (list Z)) (values : Values)
| CallWriteBatchSpaced (pt : ParquetType) (num_levels : Z)
    (def_levels rep_levels : option (list Z))
    (valid_bits : option (list Z)) (valid_bits_offset : Z) (values : Values).

(** What this code consults of the column writer: the schema node of its
    descriptor, the format version of its properties, and whether a call
    on it throws (with the exception's text). *)
Record ColumnWriter : Type := mkColumnWriter {
  is_required : bool;
  version : ParquetVersion;
  throws : WriterCall -> option string
}.

(** Modelled from the spec: the macro PARQUET_CATCH_NOT_OK is outside the
    sources at hand; an exception of the underlying writer is caught at the
    call site and converted to an error status carrying its text. *)
Definition PARQUET_CATCH_NOT_OK (exn : option string) : Status :=
  match exn with
  | None => OK
  | Some what => UnknownError [Str what]
  end.

(** Every write returns its status and the calls it made on the
    underlying writer, in order. *)
Definition Written : Type := (Status * list WriterCall)%type.

Definition WriteBatch (writer_ : ColumnWriter) (pt : ParquetType)
    (num_levels : Z) (def_levels rep_levels : option (list Z))
    (values : Values) : Written :=
  let call := CallWriteBatch pt num_levels def_levels rep_levels values in
  (PARQUET_CATCH_NOT_OK (throws writer_ call), [call]).

Definition WriteBatchSpaced (writer_ : ColumnWriter) (pt : ParquetType)
    (num_levels : Z) (def_levels rep_levels : option (list Z))
    (valid_bits : option (list Z)) (valid_bits_offset : Z)
    (values : Values) : Written :=
  let call := CallWriteBatchSpaced pt num_levels def_levels rep_levels
                valid_bits valid_bits_offset values in
  (PARQUET_CATCH_NOT_OK (throws writer_ call), [call]).

(** ** Writer properties (parquet::arrow::ArrowWriterProperties) *)

Record ArrowWriterProperties : Type := mkArrowWriterProperties {
  support_deprecated_int96_timestamps : bool;
  coerce_timestamps_enabled : bool;
  coerce_timestamps_unit : TimeUnit;
  truncated_timestamps_allowed : bool
}.

(** Modelled from the spec: the builder of the properties is declared in
    writer.h, outside the sources at hand; Int96 timestamps and truncation
    are off by default and no coercion unit is set. *)
Definition Builder : ArrowWriterProperties :=
  mkArrowWriterProperties false false SECOND false.

Definition coerce_timestamps (u : TimeUnit) (b : ArrowWriterProperties)
  : ArrowWriterProperties :=
  mkArrowWriterProperties (support_deprecated_int96_timestamps b) true u
    (truncated_timestamps_allowed b).

Definition disallow_truncated_timestamps (b : ArrowWriterProperties)
  : ArrowWriterProperties :=
  mkArrowWriterProperties (support_deprecated_int96_timestamps b)
    (coerce_timestamps_enabled b) (coerce_timestamps_unit b) false.

(** ** The per-type materialisers (class ArrowColumnWriter) *)

(** The Arrow type parameter of the generic [TypedWriteBatch] template. *)
Inductive ArrowType : Type :=
| Int8Type | UInt8Type | Int16Type | UInt16Type | ArrowInt32Type | UInt32Type
| ArrowInt64Type | UInt64Type | ArrowFloatType | ArrowDoubleType
| Date32Type | Date64Type | Time32Type | Time64Type | TimestampType.

(** [static_cast<ParquetCType>] of an integer element. *)
Definition to_parquet_ctype (pt : ParquetType) (v : Z) : Z :=
  match pt with
  | Int32Type => int32 v
  | Int64Type => int64 v
  | _ => v
  end.

(** The [n] elements read from a values pointer. *)
Definition read_values (values : option (list Z)) (n : Z) : list Z :=
  map (fun i => zth (bitmap_bytes values) i 0) (positions n).

Definition as_values (values : option (list Z)) : Values :=
  match values with
  | None => NoValues
  | Some vs => Numbers vs
  end.

Section Materialisers.

Variable writer_ : ColumnWriter.

(** The element conversion shared by the dense and the spaced batch
    writers: a fast path hands the source pointer over as it is; the
    other instances fill the scratch buffer with the converted elements
    and hand that over. *)
Definition convert_batch (pt : ParquetType) (at_ : ArrowType)
    (ty : DataType) (num_values : Z) (values : option (list Z))
  : Values :=
  match pt, at_ with
  | Int32Type, Date64Type =>
      Numbers (map (fun v => int32 (Z.quot v 86400000))
                   (read_values values num_values))
  | Int32Type, Time32Type =>
      match unit ty with
      | SECOND =>
          Numbers (map (fun v => int32 (v * 1000))
                       (read_values values num_values))
      | _ => Numbers (read_values values num_values)
      end
  | Int32Type, ArrowInt32Type | Int32Type, Date32Type
  | Int64Type, ArrowInt64Type | Int64Type, Time64Type
  | FloatType, ArrowFloatType | DoubleType, ArrowDoubleType
  | Int64Type, TimestampType => as_values values
  | Int96Type, TimestampType =>
      Int96s (unit ty) (read_values values num_values)
  | _, _ =>
      Numbers (map (to_parquet_ctype pt) (read_values values num_values))
  end.

Definition WriteNonNullableBatch (pt : ParquetType) (at_ : ArrowType)
    (ty : DataType) (num_values num_levels : Z)
    (def_levels rep_levels : option (list Z)) (values : option (list Z))
  : Written :=
  WriteBatch writer_ pt num_levels def_levels rep_levels
    (convert_batch pt at_ ty num_values values).

Definition WriteNullableBatch (pt : ParquetType) (at_ : ArrowType)
    (ty : DataType) (num_values num_levels : Z)
    (def_levels rep_levels : option (list Z))
    (valid_bits : option (list Z)) (valid_bits_offset : Z)
    (values : option (list Z)) : Written :=
  WriteBatchSpaced writer_ pt num_levels def_levels rep_levels
    valid_bits valid_bits_offset
    (convert_batch pt at_ ty num_values values).

(** The values buffer of a flat array; a nested array has none. *)
Definition values_buffer (array : Array) : option (list Z) :=
  match array with
  | FlatArray _ _ v _ => v
  | _ => None
  end.

Definition binary_offsets (array : Array) : list Z :=
  match array with
  | FlatArray _ _ _ o => o
  | _ => []
  end.

(** The generic template [TypedWriteBatch<ParquetType, ArrowType>]. *)
Definition TypedWriteBatch (pt : ParquetType) (at_ : ArrowType)
    (array : Array) (num_levels : Z)
    (def_levels rep_levels : option (list Z)) : Written :=
  let values :=
    match values_buffer array with
    | Some v => Some (ptr_add v (offset array))
    | None => None
    end in
  if is_required writer_ || (null_count array =? 0) then
    WriteNonNullableBatch pt at_ (array_type array) (length array)
      num_levels def_levels rep_levels values
  else
    let valid_bits := null_bitmap_data array in
    WriteNullableBatch pt at_ (array_type array) (length array)
      num_levels def_levels rep_levels valid_bits (offset array) values.

(** The positions of an array that are not null, in order. *)
Definition present_positions (array : Array) : list Z :=
  filter (fun i => negb (IsNull array i)) (positions (length array)).

(** [TypedWriteBatch<BooleanType, arrow::BooleanType>]. *)
Definition TypedWriteBatch_Boolean (array : Array) (num_levels : Z)
    (def_levels rep_levels : option (list Z)) : Written :=
  let values := bitmap_bytes (values_buffer array) in
  let offset := offset array in
  let buffer :=
    map (fun i => GetBit values (offset + i)) (present_positions array) in
  WriteBatch writer_ BooleanType num_levels def_levels rep_levels
    (Booleans buffer).

(** [TypedWriteBatch<Int32Type, arrow::NullType>]. *)
Definition TypedWriteBatch_Null (array : Array) (num_levels : Z)
    (def_levels rep_levels : option (list Z)) : Written :=
  WriteBatch writer_ Int32Type num_levels def_levels rep_levels NoValues.

(** [TypedWriteBatch<ByteArrayType, arrow::BinaryType>]. *)
Definition TypedWriteBatch_Binary (array : Array) (num_levels : Z)
    (def_levels rep_levels : option (list Z)) : Written :=
  let values := bitmap_bytes (values_buffer array) in
  let value_offset := ptr_add (binary_offsets array) (offset array) in
  let item i :=
    (zth value_offset (i + 1) 0 - zth value_offset i 0,
     ptr_add values (zth value_offset i 0)) in
  let buffer :=
    if is_required writer_ || (null_count array =? 0)
    then map item (positions (length array))
    else map item (present_positions array) in
  WriteBatch writer_ ByteArrayType num_levels def_levels rep_levels
    (ByteArrays buffer).

(** Modelled from the spec: FixedSizeBinaryArray::GetValue is outside the
    sources at hand; value [i] starts [byte_width] times its position
    into the values buffer, the array's offset counted in. *)
Definition GetValue (array : Array) (i : Z) : list Z :=
  ptr_add (bitmap_bytes (values_buffer array))
          ((i + offset array) * byte_width (array_type array)).

(** [TypedWriteBatch<FLBAType, arrow::FixedSizeBinaryType>]. *)
Definition TypedWriteBatch_FixedSizeBinary (array : Array) (num_levels : Z)
    (def_levels rep_levels : option (list Z)) : Written :=
  let buffer :=
    if is_required writer_ || (null_count array =? 0)
    then map (GetValue array) (positions (length array))
    else map (GetValue array) (present_positions array) in
  WriteBatch writer_ FLBAType num_levels def_levels rep_levels
    (FLBAs buffer).

End Materialisers.

(** ** The timestamp coercion engine *)

Inductive CoercionOp : Type := COERCE_DIVIDE | COERCE_INVALID | COERCE_MULTIPLY.

(** The table [kTimestampCoercionFactors], indexed by source and target
    unit. *)
Definition kTimestampCoercionFactors (source target : TimeUnit)
  : CoercionOp * Z :=
  match source, target with
  | SECOND, SECOND => (COERCE_INVALID, 0)
  | SECOND, MILLI => (COERCE_MULTIPLY, 1000)
  | SECOND, MICRO => (COERCE_MULTIPLY, 1000000)
  | SECOND, NANO => (COERCE_MULTIPLY, 1000000000)
  | MILLI, SECOND => (COERCE_INVALID, 0)
  | MILLI, MILLI => (COERCE_MULTIPLY, 1)
  | MILLI, MICRO => (COERCE_MULTIPLY, 1000)
  | MILLI, NANO => (COERCE_MULTIPLY, 1000000)
  | MICRO, SECOND => (COERCE_INVALID, 0)
  | MICRO, MILLI => (COERCE_DIVIDE, 1000)
  | MICRO, MICRO => (COERCE_MULTIPLY, 1)
  | MICRO, NANO => (COERCE_MULTIPLY, 1000)
  | NANO, SECOND => (COERCE_INVALID, 0)
  | NANO, MILLI => (COERCE_DIVIDE, 1000000)
  | NANO, MICRO => (COERCE_DIVIDE, 1000)
  | NANO, NANO => (COERCE_MULTIPLY, 1)
  end.

(** Modelled from the spec: NumericArray::raw_values is outside the sources
    at hand; it is the values pointer moved to the array's offset. *)
Definition raw_values (array : Array) : list Z :=
  ptr_add (bitmap_bytes (values_buffer array)) (offset array).

Section TimestampCoercion.

Variable writer_ : ColumnWriter.

(** The lambda [DivideBy]: the loop over the positions still to visit,
    with the part of the buffer written so far. *)
Fixpoint DivideBy_loop (array : Array) (values : list Z)
    (source_type target_type : DataType) (truncation_allowed : bool)
    (factor : Z) (todo : list Z) (buffer : list Z) : Status * list Z :=
  match todo with
  | [] => (OK, buffer)
  | i :: rest =>
      if negb truncation_allowed && negb (IsNull array i) &&
         negb (Z.rem (zth values i 0) factor =? 0)
      then (Invalid [Str "Casting from "; TypeString source_type;
                     Str " to "; TypeString target_type;
                     Str " would lose data: "; Int64Value (zth values i 0)],
            buffer)
      else DivideBy_loop array values source_type target_type
             truncation_allowed factor rest
             (buffer ++ [Z.quot (zth values i 0) factor])
  end.

Definition DivideBy (array : Array) (values : list Z)
    (source_type target_type : DataType) (truncation_allowed : bool)
    (factor : Z) : Status * list Z :=
  DivideBy_loop array values source_type target_type truncation_allowed
    factor (positions (length array)) [].

(** The lambda [MultiplyBy]; the product of two [int64_t] is taken as it
    wraps around. *)
Definition MultiplyBy (array : Array) (values : list Z) (factor : Z)
  : Status * list Z :=
  (OK, map (fun i => int64 (zth values i 0 * factor))
           (positions (length array))).

Definition WriteTimestampsCoerce (array : Array) (num_levels : Z)
    (def_levels rep_levels : option (list Z))
    (properties : ArrowWriterProperties) : Written :=
  let values := raw_values array in
  let source_type := array_type array in
  let source_unit := unit source_type in
  let target_unit := coerce_timestamps_unit properties in
  let target_type := timestamp target_unit in
  let truncation_allowed := truncated_timestamps_allowed properties in
  let coercion := kTimestampCoercionFactors source_unit target_unit in
  let coerced :=
    match fst coercion with
    | COERCE_DIVIDE =>
        DivideBy array values source_type target_type truncation_allowed
          (snd coercion)
    | _ => MultiplyBy array values (snd coercion)
    end in
  match coerced with
  | (OK, buffer) =>
      if is_required writer_ || (null_count array =? 0) then
        WriteNonNullableBatch writer_ Int64Type TimestampType target_type
          (length array) num_levels def_levels rep_levels (Some buffer)
      else
        let valid_bits := null_bitmap_data array in
        WriteNullableBatch writer_ Int64Type TimestampType target_type
          (length array) num_levels def_levels rep_levels valid_bits
          (offset array) (Some buffer)
  | (err, _) => (err, [])
  end.

Definition WriteTimestamps (properties : ArrowWriterProperties)
    (values : Array) (num_levels : Z)
    (def_levels rep_levels : option (list Z)) : Written :=
  let source_type := array_type values in
  if support_deprecated_int96_timestamps properties then
    TypedWriteBatch writer_ Int96Type TimestampType values num_levels
      def_levels rep_levels
  else if coerce_timestamps_enabled properties then
    if TimeUnit_eqb (unit source_type) (coerce_timestamps_unit properties)
    then TypedWriteBatch writer_ Int64Type TimestampType values num_levels
           def_levels rep_levels
    else WriteTimestampsCoerce values num_levels def_levels rep_levels
           properties
  else if match version writer_ with PARQUET_1_0 => true | _ => false end
          && TimeUnit_eqb (unit source_type) NANO then
    WriteTimestampsCoerce values num_levels def_levels rep_levels
      (disallow_truncated_timestamps (coerce_timestamps MICRO Builder))
  else if TimeUnit_eqb (unit source_type) SECOND then
    WriteTimestampsCoerce values num_levels def_levels rep_levels
      (coerce_timestamps MILLI Builder)
  else
    TypedWriteBatch writer_ Int64Type TimestampType values num_levels
      def_levels rep_levels.

End TimestampCoercion.

(** ** Decimals *)

(** The [n] bytes of [x], least significant first: an integer as it lies
    in the memory of a little-endian host. *)
Fixpoint le_bytes (n : nat) (x : Z) : list Z :=
  match n with
  | O => []
  | S n' => x mod 256 :: le_bytes n' (x / 256)
  end.

Fixpoint le_value (bytes : list Z) : Z :=
  match bytes with
  | [] => 0
  | b :: rest => b + 256 * le_value rest
  end.

(** Modelled from the spec: BitUtil::ToBigEndian is outside the sources at
    hand; on a little-endian host it reverses the bytes of a 64-bit
    word. *)
Definition ToBigEndian (x : Z) : Z := le_value (rev (le_bytes 8 x)).

Fixpoint DecimalSize_from (fuel : nat) (n : Z) (precision : Z) : Z :=
  match fuel with
  | O => n
  | S fuel' =>
      if 10 ^ precision <=? 2 ^ (8 * n - 1) then n
      else DecimalSize_from fuel' (n + 1) precision
  end.

(** Modelled from the spec: DecimalSize is declared in schema.h and
    defined outside the sources at hand; it is the minimum number of
    bytes whose two's-complement range holds every signed integer of
    [precision] decimal digits. *)
Definition DecimalSize (precision : Z) : Z := DecimalSize_from 32 1 precision.

(** The 64-bit word at index [k] of the 16-byte value [i] of a decimal
    array, read on a little-endian host. *)
Definition unsigned_64_bit (array : Array) (i : Z) (k : Z) : Z :=
  le_value (firstn 8 (ptr_add (GetValue array i) (8 * k))).

(** The bytes of a vector of 64-bit words. *)
Definition vector_bytes (v : list Z) : list Z :=
  flat_map (le_bytes 8) v.

(** The words stored into the vector [big_endian_values] for the values
    at the positions [taken]: for each, the high word and then the low
    word, both byte-swapped. *)
Definition big_endian_words (array : Array) (taken : list Z) : list Z :=
  flat_map (fun i => [ToBigEndian (unsigned_64_bit array i 1);
                      ToBigEndian (unsigned_64_bit array i 0)]) taken.

Section Decimal.

Variable writer_ : ColumnWriter.

(** [TypedWriteBatch<FLBAType, arrow::Decimal128Type>].  The words of
    the vector [big_endian_values] are written in increasing order, two
    per value taken; [None] when more words are written than the vector
    was sized for, which is a write past its end. *)
Definition TypedWriteBatch_Decimal (array : Array) (num_levels : Z)
    (def_levels rep_levels : option (list Z)) : option Written :=
  let decimal_type := array_type array in
  let offset := int32 (byte_width decimal_type
                        - DecimalSize (precision decimal_type)) in
  let does_not_have_nulls :=
    is_required writer_ || (null_count array =? 0) in
  let valid_value_count := (length array - null_count array) * 2 in
  let taken :=
    if does_not_have_nulls then positions (length array)
    else present_positions array in
  let big_endian_values := big_endian_words array taken in
  if Z.of_nat (List.length big_endian_values) <=? valid_value_count then
    let buffer :=
      map (fun j => ptr_add (vector_bytes big_endian_values) (8 * (2 * j) + offset))
          (positions (Z.of_nat (List.length taken))) in
    Some (WriteBatch writer_ FLBAType num_levels def_levels rep_levels
            (FLBAs buffer))
  else None.

End Decimal.

(** The bytes the column writer reads for one fixed-length value: the
    type length of a decimal column is [DecimalSize precision]. *)
Definition flba_bytes (type_length : Z) (ptr : list Z) : list Z :=
  firstn (Z.to_nat type_length) ptr.

(** ** Writing one array ([ArrowColumnWriter::Write(const Array&)]) *)

Fixpoint GetLeafType (ty : DataType) : Result TypeId :=
  match ty with
  | mkDataType i _ ch =>
      if TypeId_eqb i LIST || TypeId_eqb i STRUCT then
        match ch with
        | [mkField _ _ child_type] => GetLeafType child_type
        | _ =>
            Failure (Invalid [Str "Nested column branch had multiple children: ";
                              TypeString ty])
        end
      else Success i
  end.

Section ColumnWrite.

(** The members of ArrowColumnWriter: the context's properties, the
    column writer and the field. *)
Variable properties : ArrowWriterProperties.
Variable writer_ : ColumnWriter.
Variable field_ : Field.

(** The [switch] over the leaf type.  [None] stands for an execution the
    model gives no result to (see [GenerateLevels] and
    [TypedWriteBatch_Decimal]). *)
Definition write_leaf (values_type : TypeId) (values_array : Array)
    (num_levels : Z) (def_levels rep_levels : option (list Z))
  : option Written :=
  let typed pt at_ :=
    Some (TypedWriteBatch writer_ pt at_ values_array num_levels
            def_levels rep_levels) in
  match values_type with
  | UINT32 =>
      match version writer_ with
      | PARQUET_1_0 => typed Int64Type UInt32Type
      | _ => typed Int32Type UInt32Type
      end
  | NA => Some (TypedWriteBatch_Null writer_ values_array num_levels
                  def_levels rep_levels)
  | TIMESTAMP =>
      Some (WriteTimestamps writer_ properties values_array num_levels
              def_levels rep_levels)
  | BOOL => Some (TypedWriteBatch_Boolean writer_ values_array num_levels
                    def_levels rep_levels)
  | INT8 => typed Int32Type Int8Type
  | UINT8 => typed Int32Type UInt8Type
  | INT16 => typed Int32Type Int16Type
  | UINT16 => typed Int32Type UInt16Type
  | INT32 => typed Int32Type ArrowInt32Type
  | INT64 => typed Int64Type ArrowInt64Type
  | UINT64 => typed Int64Type UInt64Type
  | FLOAT => typed FloatType ArrowFloatType
  | DOUBLE => typed DoubleType ArrowDoubleType
  | BINARY | STRING =>
      Some (TypedWriteBatch_Binary writer_ values_array num_levels
              def_levels rep_levels)
  | FIXED_SIZE_BINARY =>
      Some (TypedWriteBatch_FixedSizeBinary writer_ values_array num_levels
              def_levels rep_levels)
  | DECIMAL =>
      TypedWriteBatch_Decimal writer_ values_array num_levels
        def_levels rep_levels
  | DATE32 => typed Int32Type Date32Type
  | DATE64 => typed Int32Type Date64Type
  | TIME32 => typed Int32Type Time32Type
  | TIME64 => typed Int64Type Time64Type
  | _ =>
      Some (NotImplemented [Str "Data type not supported as list value: ";
                            TypeString (array_type values_array)], [])
  end.

Definition Write (data : Array) : option Written :=
  if length data =? 0 then Some (OK, [])
  else
    match GetLeafType (array_type data) with
    | Failure err => Some (err, [])
    | Success values_type =>
        match GenerateLevels data field_ with
        | None => None
        | Some (Failure err) => Some (err, [])
        | Some (Success levels) =>
            match values_array levels with
            | None => None
            | Some _values_array =>
                let values_array :=
                  Slice _values_array (values_offset levels)
                        (num_values levels) in
                write_leaf values_type values_array (num_levels levels)
                  (def_levels_out levels) (rep_levels_out levels)
            end
        end
    end.

(** ** Writing a chunked array *)

Definition ChunkedArray : Type := list Array.

Definition chunked_length (data : ChunkedArray) : Z :=
  fold_right (fun chunk n => length chunk + n) 0 data.

Definition num_chunks (data : ChunkedArray) : Z :=
  Z.of_nat (List.length data).

(** The first [while] loop of the chunked write, over the chunks from
    [chunk_index] on; it returns [chunk_index], [absolute_position] and
    [chunk_offset] as the loop leaves them. *)
Fixpoint advance (rest : list Array) (chunk_index absolute_position : Z)
    (offset : Z) : Z * Z * Z :=
  match rest with
  | [] => (chunk_index, absolute_position, 0)
  | chunk :: rest' =>
      if absolute_position <? offset then
        let chunk_length := length chunk in
        if offset <? absolute_position + chunk_length
        then (chunk_index, absolute_position, offset - absolute_position)
        else advance rest' (chunk_index + 1)
               (absolute_position + chunk_length) offset
      else (chunk_index, absolute_position, 0)
  end.

(** The second [while] loop.  Each round either takes the rest of the
    current chunk and moves to the next, or completes [size]; [fuel]
    bounds the rounds.  [None] on a chunk index past the last chunk
    (undefined in the source) and when the rounds are used up. *)
Fixpoint write_chunks (fuel : nat) (data : ChunkedArray)
    (chunk_index chunk_offset values_written size : Z)
    (calls : list WriterCall) : option Written :=
  if values_written <? size then
    match fuel with
    | O => None
    | S fuel' =>
        match nth_error data (Z.to_nat chunk_index) with
        | None => None
        | Some chunk =>
            let available_values := length chunk - chunk_offset in
            let chunk_write_size :=
              Z.min (size - values_written) available_values in
            let array_to_write := Slice chunk chunk_offset chunk_write_size in
            match Write array_to_write with
            | None => None
            | Some (OK, made) =>
                if chunk_write_size =? available_values
                then write_chunks fuel' data (chunk_index + 1) 0
                       (values_written + chunk_write_size) size
                       (calls ++ made)
                else write_chunks fuel' data chunk_index chunk_offset
                       (values_written + chunk_write_size) size
                       (calls ++ made)
            | Some (err, made) => Some (err, calls ++ made)
            end
        end
    end
  else Some (OK, calls).

(** [ArrowColumnWriter::Write(const ChunkedArray&, int64_t, int64_t)]. *)
Definition WriteChunked (data : ChunkedArray) (offset size : Z)
  : option Written :=
  if chunked_length data =? 0 then Some (OK, [])
  else
    match advance data 0 0 offset with
    | (chunk_index, absolute_position, chunk_offset) =>
        if chunked_length data <=? absolute_position then
          Some (Invalid
                  [Str "Cannot write data at offset past end of chunked array"],
                [])
        else
          write_chunks (S (List.length data)) data chunk_index chunk_offset
            0 size []
    end.

End ColumnWrite.

(** ** Closing the file writer (class FileWriter::Impl) *)

(** The calls this code makes on the underlying file writer. *)
Inductive FileEvent : Type :=
| RowGroupClose
| AppendRowGroup
| FileClose.

(** How the underlying file writer answers the calls of one operation:
    the text of the exception a call throws, if it throws. *)
Record Underlying : Type := mkUnderlying {
  row_group_close_throws : option string;
  append_row_group_throws : option string;
  file_close_throws : option string
}.

(** [row_group_writer_] is a pointer: null, or the active row group. *)
Record Impl : Type := mkImpl {
  row_group_writer_ : bool;
  closed_ : bool
}.

Definition new_Impl : Impl := mkImpl false false.

Definition Close (u : Underlying) (st : Impl)
  : Status * Impl * list FileEvent :=
  if negb (closed_ st) then
    let st1 := mkImpl (row_group_writer_ st) true in
    if row_group_writer_ st1 then
      match PARQUET_CATCH_NOT_OK (row_group_close_throws u) with
      | OK =>
          match PARQUET_CATCH_NOT_OK (file_close_throws u) with
          | OK => (OK, st1, [RowGroupClose; FileClose])
          | err => (err, st1, [RowGroupClose; FileClose])
          end
      | err => (err, st1, [RowGroupClose])
      end
    else
      match PARQUET_CATCH_NOT_OK (file_close_throws u) with
      | OK => (OK, st1, [FileClose])
      | err => (err, st1, [FileClose])
      end
  else (OK, st, []).

Definition NewRowGroup (u : Underlying) (st : Impl)
  : Status * Impl * list FileEvent :=
  let closing :=
    if row_group_writer_ st
    then (PARQUET_CATCH_NOT_OK (row_group_close_throws u), [RowGroupClose])
    else (OK, []) in
  match closing with
  | (OK, events) =>
      match PARQUET_CATCH_NOT_OK (append_row_group_throws u) with
      | OK => (OK, mkImpl true (closed_ st), events ++ [AppendRowGroup])
      | err => (err, st, events ++ [AppendRowGroup])
      end
  | (err, events) => (err, st, events)
  end.

(** A sequence of [Close] calls, each with its own answers of the
    underlying writer; the statuses and events of the calls in order. *)
Fixpoint Close_many (us : list Underlying) (st : Impl)
  : list (Status * list FileEvent) * Impl :=
  match us with
  | [] => ([], st)
  | u :: rest =>
      match Close u st with
      | (s, st1, events) =>
          let (results, st2) := Close_many rest st1 in
          ((s, events) :: results, st2)
      end
  end.

(** ** Well-formed inputs *)

(** An array as the data model has it: a non-negative length, and a null
    count that agrees with the validity bitmap (no bitmap, no nulls). *)
Definition array_wf (a : Array) : Prop :=
  0 <= length a /\ null_count a = count_nulls a.

Definition is_flat (a : Array) : bool :=
  match a with FlatArray _ _ _ _ => true | _ => false end.

(** The arrays the level builder descends through: list layers over a
    flat leaf. *)
Fixpoint supported_array (a : Array) : bool :=
  match a with
  | FlatArray _ _ _ _ => true
  | ListArray _ _ _ values => supported_array values
  | OtherArray _ _ _ => false
  end.

(** The path from a field down its first children meets a type with more
    than one child. *)
Fixpoint has_multi_child_type (f : Field) : bool :=
  match f with
  | mkField _ _ (mkDataType _ _ ch) =>
      match ch with
      | [] => false
      | [child0] => has_multi_child_type child0
      | _ :: _ :: _ => true
      end
  end.

(** The elements of a flat array, read from its values buffer at its
    offset. *)
Definition array_elements (a : Array) : list Z :=
  read_values
    (match values_buffer a with
     | Some v => Some (ptr_add v (offset a))
     | None => None
     end)
    (length a).

(** ** Worked inputs *)

Module Examples.

Definition int32_type : DataType := mkDataType INT32 NoParams [].

(** The flat array [1, null, 3, null, 5]; validity bits 10101. *)
Definition flat_nullable : Array :=
  FlatArray int32_type (mkArrayData 5 2 0 (Some [21])) (Some [1; 0; 3; 0; 5]) [].

Definition flat_field : Field := mkField "column" true int32_type.

(** The list array [[1,2], null, [], [3]]: offsets 0,2,2,2,3 and
    validity bits 1011 (slot 1 null); the items are not nullable. *)
Definition item_field : Field := mkField "item" false int32_type.
Definition list_type : DataType := mkDataType LIST NoParams [item_field].
Definition list_field : Field := mkField "column" true list_type.
Definition list_leaf : Array :=
  FlatArray int32_type (mkArrayData 3 0 0 None) (Some [1; 2; 3]) [].
Definition list_with_nulls : Array :=
  ListArray list_type (mkArrayData 4 1 0 (Some [13])) [0; 2; 2; 2; 3] list_leaf.

(** A column writer that never throws. *)
Definition quiet_writer (required : bool) (v : ParquetVersion) : ColumnWriter :=
  mkColumnWriter required v (fun _ => None).

End Examples.

(** ** The timestamp policy, as the specification words it *)

(** What is done with a timestamp column. *)
Inductive TimestampPolicy : Type :=
| PolicyInt96
| PolicyInt64Unchanged
| PolicyCoerce (target : TimeUnit) (truncation_allowed : bool).

(** The first rule whose condition holds decides. *)
Fixpoint first_match {A : Type} (rules : list (bool * A)) (otherwise : A) : A :=
  match rules with
  | [] => otherwise
  | (condition, action) :: rest =>
      if condition then action else first_match rest otherwise
  end.

(** The numbered rules of the policy selection, in their order; the
    default properties do not allow truncation. *)
Definition timestamp_policy (properties : ArrowWriterProperties)
    (v : ParquetVersion) (source_unit : TimeUnit) : TimestampPolicy :=
  first_match
    [ (support_deprecated_int96_timestamps properties, PolicyInt96);
      (coerce_timestamps_enabled properties,
       if TimeUnit_eqb source_unit (coerce_timestamps_unit properties)
       then PolicyInt64Unchanged
       else PolicyCoerce (coerce_timestamps_unit properties)
              (truncated_timestamps_allowed properties));
      (match v with PARQUET_1_0 => true | PARQUET_2_0 => false end
       && TimeUnit_eqb source_unit NANO,
       PolicyCoerce MICRO false);
      (TimeUnit_eqb source_unit SECOND,
       PolicyCoerce MILLI (truncated_timestamps_allowed Builder)) ]
    PolicyInt64Unchanged.

(** Carrying a policy out on the column writer. *)
Definition apply_policy (writer_ : ColumnWriter) (policy : TimestampPolicy)
    (values : Array) (num_levels : Z)
    (def_levels rep_levels : option (list Z)) : Written :=
  match policy with
  | PolicyInt96 =>
      TypedWriteBatch writer_ Int96Type TimestampType values num_levels
        def_levels rep_levels
  | PolicyInt64Unchanged =>
      TypedWriteBatch writer_ Int64Type TimestampType values num_levels
        def_levels rep_levels
  | PolicyCoerce target truncation_allowed =>
      WriteTimestampsCoerce writer_ values num_levels def_levels rep_levels
        (mkArrowWriterProperties false true target truncation_allowed)
  end.

(** The values pointer of a flat array at its offset, as the writer
    receives it when nothing is converted. *)
Definition source_values (array : Array) : Values :=
  as_values (match values_buffer array with
             | Some v => Some (ptr_add v (offset array))
             | None => None
             end).

Definition call_values (c : WriterCall) : Values :=
  match c with
  | CallWriteBatch _ _ _ _ v => v
  | CallWriteBatchSpaced _ _ _ _ _ _ v => v
  end.

Definition call_type (c : WriterCall) : ParquetType :=
  match c with
  | CallWriteBatch pt _ _ _ _ => pt
  | CallWriteBatchSpaced pt _ _ _ _ _ _ => pt
  end.

(** ** Lossy timestamp casts *)

(** Position [i] holds a non-null value that [factor] does not divide. *)
Definition lossy (array : Array) (factor : Z) (i : Z) : bool :=
  negb (IsNull array i) && negb (Z.rem (zth (raw_values array) i 0) factor =? 0).

(** The message of the status returned for a lossy cast of [value]. *)
Definition would_lose_data (source_type target_type : DataType) (value : Z)
  : list MsgPart :=
  [Str "Casting from "; TypeString source_type; Str " to ";
   TypeString target_type; Str " would lose data: "; Int64Value value].

(** The dividing coercions as the specification names them
    (micros-to-millis, nanos-to-millis, nanos-to-micros) and the
    multiplying ones: source unit, target unit and factor. *)
Definition dividing_coercions : list (TimeUnit * TimeUnit * Z) :=
  [(MICRO, MILLI, 1000); (NANO, MILLI, 1000000); (NANO, MICRO, 1000)].

Definition multiplying_coercions : list (TimeUnit * TimeUnit * Z) :=
  [(SECOND, MILLI, 1000); (SECOND, MICRO, 1000000);
   (SECOND, NANO, 1000000000);
   (MILLI, MILLI, 1); (MILLI, MICRO, 1000); (MILLI, NANO, 1000000);
   (MICRO, MICRO, 1); (MICRO, NANO, 1000);
   (NANO, NANO, 1)].

Module CoercionExamples.

(** Nanosecond timestamps, one of them not a whole microsecond. *)
Definition nanos (vs : list Z) : Array :=
  FlatArray (timestamp NANO)
    (mkArrayData (Z.of_nat (List.length vs)) 0 0 None) (Some vs) [].

Definition seconds (vs : list Z) : Array :=
  FlatArray (timestamp SECOND)
    (mkArrayData (Z.of_nat (List.length vs)) 0 0 None) (Some vs) [].

End CoercionExamples.

(** ** Dense and spaced writes *)

Inductive WriteMode : Type := Dense | Spaced.

Definition call_mode (c : WriterCall) : WriteMode :=
  match c with
  | CallWriteBatch _ _ _ _ _ => Dense
  | CallWriteBatchSpaced _ _ _ _ _ _ _ => Spaced
  end.







Module ModeExamples.

Definition bool_type : DataType := mkDataType BOOL NoParams [].

(** The boolean array [true, null] (values bits 01, validity bits 01)
    for an optional column. *)
Definition bool_with_null : Array :=
  FlatArray bool_type (mkArrayData 2 1 0 (Some [1])) (Some [1]) [].

Definition optional_writer : ColumnWriter :=
  mkColumnWriter false PARQUET_1_0 (fun _ => None).

(** The int32 array [7, null] for the same column. *)
Definition int32_with_null : Array :=
  FlatArray Examples.int32_type (mkArrayData 2 1 0 (Some [1])) (Some [7; 0]) [].

End ModeExamples.

(** ** Worked chunked arrays and fields *)

Module ChunkExamples.

(** An int32 chunk with no elements. *)
Definition empty_chunk : Array :=
  FlatArray Examples.int32_type (mkArrayData 0 0 0 None) None [].

(** A struct type with two children, and a one-element array of it. *)
Definition pair_type : DataType :=
  mkDataType STRUCT NoParams
    [mkField "a" true Examples.int32_type;
     mkField "b" true Examples.int32_type].
Definition pair_field : Field := mkField "column" true pair_type.
Definition pair_array : Array :=
  OtherArray Struct pair_type (mkArrayData 1 0 0 None).

End ChunkExamples.

(** ** Decimal values and their big-endian form *)

Definition is_byte (b : Z) : Prop := 0 <= b < 256.

(** The signed reading of a [bits]-bit two's-complement pattern. *)
Definition signed (bits : Z) (u : Z) : Z :=
  if u <? 2 ^ (bits - 1) then u else u - 2 ^ bits.

(** The 16 bytes of value [i] of a decimal array. *)
Definition decimal_raw (array : Array) (i : Z) : list Z :=
  firstn 16 (GetValue array i).

(** The buffer holds 16 bytes for value [i]. *)
Definition decimal_stored (array : Array) (i : Z) : Prop :=
  List.length (decimal_raw array i) = 16%nat /\
  Forall is_byte (decimal_raw array i).

(** The decimal at position [i]: a 128-bit two's-complement integer, least
    significant byte first. *)
Definition Decimal128_value (array : Array) (i : Z) : Z :=
  signed 128 (le_value (decimal_raw array i)).

(** The big-endian two's-complement representation of [d] in [n] bytes,
    and the integer such a representation stands for. *)
Definition twos_complement_be (n : Z) (d : Z) : list Z :=
  rev (le_bytes (Z.to_nat n) (d mod 2 ^ (8 * n))).

Definition be_signed (bytes : list Z) : Z :=
  signed (8 * Z.of_nat (List.length bytes)) (le_value (rev bytes)).

(** The positions whose values the decimal materialiser takes. *)
Definition decimal_taken (writer_ : ColumnWriter) (array : Array) : list Z :=
  if is_required writer_ || (null_count array =? 0)
  then positions (length array)
  else present_positions array.

(** The byte sequences a call hands over for a column of fixed-length
    values of [type_length] bytes. *)
Definition emitted_bytes (type_length : Z) (c : WriterCall) : list (list Z) :=
  match call_values c with
  | FLBAs ptrs => map (flba_bytes type_length) ptrs
  | _ => []
  end.

Module DecimalExamples.

Definition decimal_9_0 : DataType := mkDataType DECIMAL (DecimalParams 9 0) [].

(** A decimal(9,0) array holding the values given, without nulls. *)
Definition decimals (ds : list Z) : Array :=
  FlatArray decimal_9_0
    (mkArrayData (Z.of_nat (List.length ds)) 0 0 None)
    (Some (flat_map (fun d => le_bytes 16 (d mod 2 ^ 128)) ds)) [].

(** The values [5, null, -1] with validity bits 101. *)
Definition decimals_with_null : Array :=
  FlatArray decimal_9_0 (mkArrayData 3 1 0 (Some [5]))
    (Some (flat_map (fun d => le_bytes 16 (d mod 2 ^ 128)) [5; 0; -1])) [].

End DecimalExamples.


(** ** Nesting depth *)

(** The number of list layers above the leaf of an array. *)
Fixpoint list_depth (a : Array) : nat :=
  match a with
  | ListArray _ _ _ values => S (list_depth values)
  | _ => O
  end.


(** ** Nested arrays: layers and their offsets *)

(** The offsets pointers the level builder records, one per list layer,
    outermost first. *)
Fixpoint array_layers (a : Array) : list (list Z) :=
  match a with
  | ListArray _ d offs values => raw_value_offsets d offs :: array_layers values
  | _ => []
  end.


(** Well-formed offsets: over the [n] slots of the first layer the offsets
    are non-negative 32-bit integers that do not decrease, and the layers
    below are well formed over the slots the last offset delimits. *)
Fixpoint layers_ok (layers : list (list Z)) (n : Z) : Prop :=
  match layers with
  | [] => True
  | layer :: rest =>
      (forall j, 0 <= j < n ->
         0 <= zth layer j 0 <= zth layer (j + 1) 0 /\
         zth layer (j + 1) 0 <= INT32_MAX) /\
      layers_ok rest (zth layer n 0)
  end.

(** The nullability flags along the path from a field down its single
    children. *)
Fixpoint path_nullable (f : Field) : list bool :=
  match f with
  | mkField _ n (mkDataType _ _ ch) =>
      n :: match ch with
           | [child0] => path_nullable child0
           | _ => []
           end
  end.

(** The number of entries of a list equal to [x]. *)
Definition count_level (x : Z) (levels : list Z) : Z :=
  Z.of_nat (count_occ Z.eq_dec levels x).

(** What a handler of the level builder did to a builder: it appended
    definition and repetition levels, and left the offsets vectors alone. *)
Definition levels_added (lb lb' : LevelBuilder) (dext rext : list Z) : Prop :=
  def_levels_ lb' = def_levels_ lb ++ dext /\
  rep_levels_ lb' = rep_levels_ lb ++ rext /\
  offsets_ lb' = offsets_ lb.

Module LevelExamples.



(** The int32 array [7, 8, 9] without a validity bitmap, and a required
    field for it. *)
Definition plain_int32 : Array :=
  FlatArray Examples.int32_type (mkArrayData 3 0 0 None) (Some [7; 8; 9]) [].
Definition required_field : Field := mkField "column" false Examples.int32_type.

End LevelExamples.

(** ** The path to the leaf type *)

(** [inner] lies on the single-child path of [ty]: it is [ty] itself, or
    it lies on the path of the type of the only child of a LIST or STRUCT
    type [ty]. *)
Inductive on_single_child_path : DataType -> DataType -> Prop :=
| path_end (ty : DataType) : on_single_child_path ty ty
| path_child (i : TypeId) (p : TypeParams) (child : Field)
    (inner : DataType) :
    i = LIST \/ i = STRUCT ->
    on_single_child_path (type child) inner ->
    on_single_child_path (mkDataType i p [child]) inner.

(** ** Flat columns *)

(** One definition level per slot: 1 for a valid slot, 0 for a null. *)
Definition validity_levels (a : Array) : list Z :=
  map (fun i => if IsValid a i then 1 else 0) (positions (length a)).

(** The leaf types the generic template writes through a fast path: the
    values pointer of the array goes to the column writer as it is. *)
Definition fast_path (values_type : TypeId) : option ParquetType :=
  match values_type with
  | INT32 | DATE32 => Some Int32Type
  | INT64 | TIME64 => Some Int64Type
  | FLOAT => Some FloatType
  | DOUBLE => Some DoubleType
  | _ => None
  end.

(** ** What a write hands to the column writer *)

(** The level arguments of a call. *)
Definition call_levels (c : WriterCall)
  : Z * option (list Z) * option (list Z) :=
  match c with
  | CallWriteBatch _ n d r _ => (n, d, r)
  | CallWriteBatchSpaced _ n d r _ _ _ => (n, d, r)
  end.

(** A materialiser either stops with an error before any call, or makes
    one call that carries the levels it was given. *)
Definition passes_levels (writer_ : ColumnWriter) (num_levels : Z)
    (def_levels rep_levels : option (list Z)) (written : Written) : Prop :=
  (snd written = [] /\ ok (fst written) = false) \/
  exists call,
    written = (PARQUET_CATCH_NOT_OK (throws writer_ call), [call]) /\
    call_levels call = (num_levels, def_levels, rep_levels).


Module WriteExamples.


(** A list type without any child field. *)
Definition childless_list_type : DataType := mkDataType LIST NoParams [].

End WriteExamples.

(** ** Chunked columns of plain numbers *)

(** A chunk of a fast-path type that holds no nulls: no validity bitmap,
    a null count of 0, and a values buffer that covers the chunk's
    slots. *)
Definition plain_chunk (c : Array) : bool :=
  match c with
  | FlatArray ty d (Some v) _ =>
      match fast_path (id ty) with Some _ => true | None => false end
      && match data_null_bitmap d with None => true | Some _ => false end
      && (data_null_count d =? 0)
      && (0 <=? data_offset d) && (0 <=? data_length d)
      && (data_offset d + data_length d <=? Z.of_nat (List.length v))
  | _ => false
  end.

(** The rows a call hands over: the first [num_levels] numbers at its
    values pointer. *)
Definition call_rows (c : WriterCall) : list Z :=
  match c with
  | CallWriteBatch _ n _ _ (Numbers vs) => firstn (Z.to_nat n) vs
  | CallWriteBatchSpaced _ n _ _ _ _ (Numbers vs) => firstn (Z.to_nat n) vs
  | _ => []
  end.

(** The rows of a chunked column, chunk after chunk. *)
Definition column_rows (data : list Array) : list Z :=
  flat_map array_elements data.

Module RowExamples.

(** Three chunks [10, 11], [] and [12, 13, 14]; the last one is a slice
    that starts one element into its buffer. *)
Definition chunk_a : Array :=
  FlatArray Examples.int32_type (mkArrayData 2 0 0 None) (Some [10; 11]) [].
Definition chunk_b : Array :=
  FlatArray Examples.int32_type (mkArrayData 0 0 0 None) (Some []) [].
Definition chunk_c : Array :=
  FlatArray Examples.int32_type (mkArrayData 3 0 1 None)
    (Some [99; 12; 13; 14]) [].
Definition column : list Array := [chunk_a; chunk_b; chunk_c].

End RowExamples.

(** ** Binary columns *)

(** The bytes a (length, pointer) pair denotes. *)
Definition byte_array_bytes (item : Z * list Z) : list Z :=
  firstn (Z.to_nat (fst item)) (snd item).

(** The value offsets of a binary array as the writer reads them, from
    the array's offset on. *)
Definition binary_value_offset (array : Array) : list Z :=
  ptr_add (binary_offsets array) (offset array).

(** The value offsets of the array's slots are non-negative, do not
    decrease and stay within the value data. *)
Definition binary_offsets_ok (array : Array) : Prop :=
  (forall i, 0 <= i < length array ->
     0 <= zth (binary_value_offset array) i 0
       <= zth (binary_value_offset array) (i + 1) 0) /\
  zth (binary_value_offset array) (length array) 0
  <= Z.of_nat (List.length (bitmap_bytes (values_buffer array))).

Module BinaryExamples.

Definition string_type : DataType := mkDataType STRING NoParams [].

(** The strings [hi] and [!], sliced out of a longer array. *)
Definition strings : Array :=
  FlatArray string_type (mkArrayData 2 0 1 None)
    (Some [120; 104; 105; 33; 121]) [0; 1; 3; 4; 5].

End BinaryExamples.

(** ** Sequences of operations on the file writer *)

(** One call of [NewRowGroup] or [Close], with the answers of the
    underlying writer during that call. *)
Inductive FileOp : Type :=
| DoNewRowGroup (u : Underlying)
| DoClose (u : Underlying).

Definition run_op (op : FileOp) (st : Impl) : Status * Impl * list FileEvent :=
  match op with
  | DoNewRowGroup u => NewRowGroup u st
  | DoClose u => Close u st
  end.

(** The calls made on the underlying writer by a sequence of operations,
    in order, and the state they leave. *)
Fixpoint run_ops (ops : list FileOp) (st : Impl) : list FileEvent * Impl :=
  match ops with
  | [] => ([], st)
  | op :: rest =>
      match run_op op st with
      | (_, st1, events) =>
          let (later, st2) := run_ops rest st1 in
          (events ++ later, st2)
      end
  end.

Definition is_file_close (e : FileEvent) : bool :=
  match e with
  | FileClose => true
  | _ => false
  end.

(** ** Integer columns stored in a wider type *)


Module IntegerExamples.

Definition uint32_type : DataType := mkDataType UINT32 NoParams [].

(** Three unsigned 32-bit integers, the last two past the signed range. *)
Definition unsigned : Array :=
  FlatArray uint32_type (mkArrayData 3 0 0 None)
    (Some [7; 2147483648; 4294967295]) [].

End IntegerExamples.

(** ** Bounds on definition levels *)

(** The number of nullable fields among the given flags. *)
Definition nullable_count (flags : list bool) : Z :=
  Z.of_nat (List.length (filter (fun b => b) flags)).

(** The builder [lb'] is [lb] with the definition levels [dext] appended,
    on the same offsets and nullability flags. *)
Definition defs_added (lb lb' : LevelBuilder) (dext : list Z) : Prop :=
  def_levels_ lb' = def_levels_ lb ++ dext /\
  offsets_ lb' = offsets_ lb /\
  nullable_ lb' = nullable_ lb.

(** ** Null and date columns *)

Module ConversionExamples.

Definition null_type : DataType := mkDataType NA NoParams [].

(** A null array of three slots. *)
Definition nulls : Array :=
  FlatArray null_type (mkArrayData 3 3 0 None) None [].

Definition date64_type : DataType := mkDataType DATE64 NoParams [].


End ConversionExamples.

(** ** Writing a column chunk and a table (class FileWriter) *)

(** An [arrow::ChunkedArray] as the file writer reads it: its type, the
    value type that a dictionary type carries (read for a dictionary type
    only) and its chunks. *)
Record ChunkedColumn : Type := mkChunkedColumn {
  column_type : DataType;
  dictionary_value_type : DataType;
  chunks : ChunkedArray
}.

(** What the driver reads of a table: the status of [Validate], the text
    of its schema, its number of rows and its columns. *)
Record Table : Type := mkTable {
  Validate : Status;
  schema_ToString : string;
  num_rows : Z;
  columns : list ChunkedColumn
}.

(** The file writer with its active row group: the members of [Impl],
    the number of row groups appended so far, and the number of column
    writers the active row group has handed out. *)
Record FileState : Type := mkFileState {
  impl_ : Impl;
  row_groups_ : Z;
  current_column_ : Z
}.

(** The calls the driver makes: on the underlying file writer, on the
    active row group for its next column writer, on the cast kernel, and
    on the column writer of a column, to write a batch and to close. *)
Inductive TableEvent : Type :=
| FileCall (e : FileEvent)
| CastCall
| NextColumnCall
| ColumnWrite (column : Z) (call : WriterCall)
| ColumnCloseCall (column : Z).

(** The value of an [int64_t] expression is defined. *)
Definition fits_int64 (x : Z) : bool :=
  (- 2 ^ 63 <=? x) && (x <? 2 ^ 63).

(** Modelled from the spec: the constructor of [arrow::NullArray] is
    outside the sources at hand; it gives an array of the null type all
    of whose slots are null. *)
Definition NullArray (length : Z) : Array :=
  FlatArray (mkDataType NA NoParams []) (mkArrayData length length 0 None)
    None [].

Section FileWriter.

(** The members [arrow_properties_] and [schema_] (its text), whether
    the schema of a table equals [schema_], metadata left aside, and
    [properties().max_row_group_length()]. *)
Variable properties : ArrowWriterProperties.
Variable schema_ : string.
Variable schema_Equals : bool.
Variable max_row_group_length : Z.

(** The answers of the underlying file writer once [row_groups]
    row groups have been appended. *)
Variable underlying : Z -> Underlying.

(** Modelled from the spec: [RowGroupWriter::NextColumn] is outside the
    sources at hand; it hands out the column writers of the row group in
    order, or throws.  For a row group and the number of writers it has
    handed out: the exception of the next call, if it throws, the column
    writer it gives, and the exception of that writer's [Close], if it
    throws. *)
Variable next_column_throws : Z -> Z -> option string.
Variable column_writer : Z -> Z -> ColumnWriter.
Variable column_close_throws : Z -> Z -> option string.

(** Modelled from the spec: [FromParquetSchema] is declared in schema.h
    and defined outside the sources at hand; for a column index it gives
    the schema of that one column, whose field is used, or fails. *)
Variable FromParquetSchema : Z -> Result Field.

(** Modelled from the spec: the cast kernel [arrow::compute::Cast] is
    outside the sources at hand; it gives the column cast to the value
    type of its dictionary type, or fails. *)
Variable Cast : ChunkedColumn -> Result ChunkedColumn.

(** [FileWriter::NewRowGroup]: [Impl::NewRowGroup], after which the
    active row group is a new one that has handed out no column
    writer. *)
Definition NewRowGroup_at (st : FileState)
  : Status * FileState * list TableEvent :=
  match NewRowGroup (underlying (row_groups_ st)) (impl_ st) with
  | (OK, impl1, events) =>
      (OK, mkFileState impl1 (row_groups_ st + 1) 0, map FileCall events)
  | (err, impl1, events) =>
      (err, mkFileState impl1 (row_groups_ st) (current_column_ st),
       map FileCall events)
  end.

(** [FileWriter::Close]. *)
Definition Close_at (st : FileState)
  : Status * FileState * list TableEvent :=
  match Close (underlying (row_groups_ st)) (impl_ st) with
  | (s, impl1, events) =>
      (s, mkFileState impl1 (row_groups_ st) (current_column_ st),
       map FileCall events)
  end.

(** [Impl::WriteColumnChunk(const std::shared_ptr<ChunkedArray>&,
    int64_t, int64_t)].  A dictionary column is unwrapped first: one of
    null values is replaced by a null array of its length, written whole
    through [WriteColumnChunk(const Array&)]; any other is cast to its
    value type.  [fuel] bounds the unwraps.  [None] when they are used
    up, when there is no active row group (a null pointer is
    dereferenced) and where the chunked write gives no result. *)
Fixpoint WriteColumnChunk (fuel : nat) (data : ChunkedColumn)
    (offset size : Z) (st : FileState)
  : option (Status * FileState * list TableEvent) :=
  match fuel with
  | O => None
  | S fuel' =>
      if TypeId_eqb (id (column_type data)) DICTIONARY then
        if TypeId_eqb (id (dictionary_value_type data)) NA then
          let null_array := NullArray (chunked_length (chunks data)) in
          WriteColumnChunk fuel'
            (mkChunkedColumn (array_type null_array)
               (dictionary_value_type data) [null_array])
            0 (length null_array) st
        else
          match Cast data with
          | Failure err => Some (err, st, [CastCall])
          | Success cast_output =>
              match WriteColumnChunk fuel' cast_output offset size st with
              | None => None
              | Some (s, st1, events) => Some (s, st1, CastCall :: events)
              end
          end
      else if negb (row_group_writer_ (impl_ st)) then None
      else
        let row_group := row_groups_ st in
        let column := current_column_ st in
        match PARQUET_CATCH_NOT_OK (next_column_throws row_group column) with
        | OK =>
            let st1 := mkFileState (impl_ st) row_group (column + 1) in
            match FromParquetSchema column with
            | Failure err => Some (err, st1, [NextColumnCall])
            | Success field =>
                match WriteChunked properties
                        (column_writer row_group column) field
                        (chunks data) offset size with
                | None => None
                | Some (OK, calls) =>
                    Some (PARQUET_CATCH_NOT_OK
                            (column_close_throws row_group column),
                          st1,
                          NextColumnCall :: map (ColumnWrite column) calls
                          ++ [ColumnCloseCall column])
                | Some (err, calls) =>
                    Some (err, st1,
                          NextColumnCall :: map (ColumnWrite column) calls)
                end
            end
        | err => Some (err, st, [NextColumnCall])
        end
  end.

(** The loop over the columns in the lambda [WriteRowGroup]. *)
Fixpoint write_columns (fuel : nat) (todo : list ChunkedColumn)
    (offset size : Z) (st : FileState)
  : option (Status * FileState * list TableEvent) :=
  match todo with
  | [] => Some (OK, st, [])
  | column :: rest =>
      match WriteColumnChunk fuel column offset size st with
      | None => None
      | Some (OK, st1, events) =>
          match write_columns fuel rest offset size st1 with
          | None => None
          | Some (s, st2, later) => Some (s, st2, events ++ later)
          end
      | Some (err, st1, events) => Some (err, st1, events)
      end
  end.

(** The lambda [WriteRowGroup]. *)
Definition WriteRowGroup (fuel : nat) (table : Table) (offset size : Z)
    (st : FileState) : option (Status * FileState * list TableEvent) :=
  match NewRowGroup_at st with
  | (OK, st1, events) =>
      match write_columns fuel (columns table) offset size st1 with
      | None => None
      | Some (s, st2, written) => Some (s, st2, events ++ written)
      end
  | (err, st1, events) => Some (err, st1, events)
  end.

(** [RETURN_NOT_OK_ELSE(..., PARQUET_IGNORE_NOT_OK(Close()))]: on an
    error the file is closed, whatever that gives, and the error is
    returned. *)
Definition or_Close (result : Status * FileState * list TableEvent)
  : Status * FileState * list TableEvent :=
  match result with
  | (OK, st1, events) => (OK, st1, events)
  | (err, st1, events) =>
      match Close_at st1 with
      | (_, st2, closing) => (err, st2, events ++ closing)
      end
  end.

(** The [for] loop over the row groups; [chunk] is an [int] and
    [chunk * chunk_size] an [int64_t].  [rounds] bounds the rounds.
    [None] where an overflow leaves the execution undefined, when the
    rounds are used up and where a row group gives no result. *)
Fixpoint row_group_loop (rounds fuel : nat) (table : Table)
    (chunk chunk_size : Z) (st : FileState) (events : list TableEvent)
  : option (Status * FileState * list TableEvent) :=
  if negb (fits_int64 (chunk * chunk_size)) then None
  else if chunk * chunk_size <? num_rows table then
    match rounds with
    | O => None
    | S rounds' =>
        let offset := chunk * chunk_size in
        if negb (fits_int64 (num_rows table - offset)) then None
        else
          match WriteRowGroup fuel table offset
                  (Z.min chunk_size (num_rows table - offset)) st with
          | None => None
          | Some result =>
              match or_Close result with
              | (OK, st1, written) =>
                  if chunk =? INT32_MAX then None
                  else row_group_loop rounds' fuel table (chunk + 1)
                         chunk_size st1 (events ++ written)
              | (err, st1, written) => Some (err, st1, events ++ written)
              end
          end
    end
  else Some (OK, st, events).

(** [FileWriter::WriteTable].  With a positive chunk size there are at
    most as many row groups as rows, which bounds the rounds. *)
Definition WriteTable (fuel : nat) (table : Table) (chunk_size : Z)
    (st : FileState) : option (Status * FileState * list TableEvent) :=
  match Validate table with
  | OK =>
      if (chunk_size <=? 0) && (0 <? num_rows table) then
        Some (Invalid [Str "chunk size per row_group must be greater than 0"],
              st, [])
      else if negb schema_Equals then
        Some (Invalid [Str "table schema does not match this writer's. table:'";
                       Str (schema_ToString table); Str "' this:'";
                       Str schema_; Str "'"],
              st, [])
      else
        let chunk_size :=
          if max_row_group_length <? chunk_size
          then max_row_group_length else chunk_size in
        if num_rows table =? 0 then
          match WriteRowGroup fuel table 0 0 st with
          | None => None
          | Some result => Some (or_Close result)
          end
        else
          row_group_loop (Z.to_nat (num_rows table)) fuel table 0 chunk_size
            st []
  | err => Some (err, st, [])
  end.

End FileWriter.

(** The row ranges (offset, size) of the row groups of a table of
    [rows] rows cut every [chunk_size] rows; an empty table gets one
    empty row group. *)
Definition row_group_ranges (rows chunk_size : Z) : list (Z * Z) :=
  if rows =? 0 then [(0, 0)]
  else map (fun k => (k * chunk_size, Z.min chunk_size (rows - k * chunk_size)))
           (positions ((rows + chunk_size - 1) / chunk_size)).

(** The calls made on the underlying file writer. *)
Definition file_calls (events : list TableEvent) : list FileEvent :=
  flat_map (fun e => match e with FileCall f => [f] | _ => [] end) events.

(** The calls on the file writer that open [n] row groups one after the
    other, the first from the members [st]. *)
Fixpoint opening_calls (st : Impl) (n : nat) : list FileEvent :=
  match n with
  | O => []
  | S n' =>
      (if row_group_writer_ st then [RowGroupClose] else [])
      ++ AppendRowGroup :: opening_calls (mkImpl true (closed_ st)) n'
  end.

(** The rows handed to the column writers of column [i], in order. *)
Definition rows_written (i : Z) (events : list TableEvent) : list Z :=
  flat_map (fun e =>
              match e with
              | ColumnWrite j call => if j =? i then call_rows call else []
              | _ => []
              end) events.

(** A column of plain numbers: not a dictionary, and every chunk of a
    fast-path type without nulls. *)
Definition plain_column (rows : Z) (c : ChunkedColumn) : Prop :=
  TypeId_eqb (id (column_type c)) DICTIONARY = false /\
  Forall (fun chunk => plain_chunk chunk = true) (chunks c) /\
  chunked_length (chunks c) = rows.

(** The row range is the empty range of an empty table, or lies within
    the rows. *)
Definition range_ok (rows offset size : Z) : Prop :=
  (rows = 0 /\ offset = 0 /\ size = 0) \/
  (0 <= offset < rows /\ 0 <= size /\ offset + size <= rows).

(** The calls of a row group hand over, for every column of the table,
    the rows of the row range and no other. *)
Definition row_group_holds (table : Table) (range : Z * Z)
    (group : list TableEvent) : Prop :=
  forall (i : nat) (column : ChunkedColumn),
    nth_error (columns table) i = Some column ->
    rows_written (Z.of_nat i) group
    = firstn (Z.to_nat (snd range))
        (skipn (Z.to_nat (fst range)) (column_rows (chunks column))).

Module TableExamples.

(** Five rows in two columns, the first in the chunks of
    [RowExamples.column], the second in one chunk. *)
Definition column_a : ChunkedColumn :=
  mkChunkedColumn Examples.int32_type Examples.int32_type RowExamples.column.

Definition column_b : ChunkedColumn :=
  mkChunkedColumn Examples.int32_type Examples.int32_type
    [FlatArray Examples.int32_type (mkArrayData 5 0 0 None)
       (Some [20; 21; 22; 23; 24]) []].

Definition five_rows : Table :=
  mkTable OK "a: int32, b: int32" 5 [column_a; column_b].

Definition quiet (row_groups : Z) : Underlying := mkUnderlying None None None.

Definition no_throw (row_group column : Z) : option string := None.

Definition writers (row_group column : Z) : ColumnWriter :=
  Examples.quiet_writer true PARQUET_1_0.

Definition fields (column : Z) : Result Field :=
  Success LevelExamples.required_field.

(** The second column has no field in the file schema. *)
Definition second_field_missing (column : Z) : Result Field :=
  if column =? 1 then Failure (NotImplemented [Str "column b"])
  else Success LevelExamples.required_field.

Definition no_cast (data : ChunkedColumn) : Result ChunkedColumn :=
  Failure (NotImplemented [Str "cast"]).

(** A dictionary column of four null values. *)
Definition dictionary_type : DataType := mkDataType DICTIONARY NoParams [].

Definition dictionary_of_nulls : ChunkedColumn :=
  mkChunkedColumn dictionary_type (mkDataType NA NoParams [])
    [OtherArray Dictionary dictionary_type (mkArrayData 4 0 0 None)].

Definition null_fields (column : Z) : Result Field :=
  Success (mkField "column" true (mkDataType NA NoParams [])).

End TableExamples.

(** * Properties *)

(** ** The recursion budgets are enough *)

Lemma int16_small (x : Z) : -32768 <= x < 32768 -> int16 x = x.
Proof.
  intros H. unfold int16, wrap.
  change (2 ^ (16 - 1)) with 32768. change (2 ^ 16) with 65536.
  rewrite Z.mod_small; lia.
Qed.

(** With a budget that covers the list layers below [rep_level],
    [HandleListEntries] returns, and it leaves the offsets vector as it
    found it. *)
Lemma HandleListEntries_returns (fuel : nat) :
  forall (def_level rep_level offset length : Z) (lb : LevelBuilder),
    0 <= rep_level ->
    Z.of_nat (List.length (offsets_ lb)) <= 32767 ->
    (1 <= fuel)%nat ->
    Z.of_nat (List.length (offsets_ lb)) - rep_level <= Z.of_nat fuel ->
    exists s lb',
      HandleListEntries fuel def_level rep_level offset length lb = Some (s, lb')
      /\ offsets_ lb' = offsets_ lb.
Proof.
  induction fuel as [|fuel IH]; intros def rep off len lb Hrep Hdepth H1 Hfuel;
    [lia|].
  cbn [HandleListEntries].
  assert (Hnonnull : forall def' index lb0,
             offsets_ lb0 = offsets_ lb ->
             exists s lb',
               HandleNonNullList_body (HandleListEntries fuel) def' rep index lb0
               = Some (s, lb') /\ offsets_ lb' = offsets_ lb).
  { intros def' index lb0 Hoff. unfold HandleNonNullList_body. cbv zeta.
    destruct (_ =? 0); [eexists; eexists; split; [reflexivity | exact Hoff]|].
    destruct (rep + 1 <? Z.of_nat (List.length (offsets_ lb0))) eqn:E.
    - apply Z.ltb_lt in E. rewrite Hoff in E.
      rewrite (int16_small (rep + 1)) by lia.
      destruct (IH (int16 (def' + 1)) (rep + 1)
                  (zth (at_level (offsets_ lb0) rep []) index 0)
                  (int32 (zth (at_level (offsets_ lb0) rep []) (index + 1) 0
                          - zth (at_level (offsets_ lb0) rep []) index 0))
                  lb0)
        as [s [lb' [Hr Ho]]];
        [lia | rewrite Hoff; lia | lia | rewrite Hoff; lia |].
      rewrite Hr. exists s, lb'. split; [reflexivity | congruence].
    - destruct (negb _ && _);
        destruct (1 <=? _); eexists; eexists; (split; [reflexivity | exact Hoff]). }
  assert (Hlist : forall index lb0,
             offsets_ lb0 = offsets_ lb ->
             exists s lb',
               HandleList_body (HandleListEntries fuel) def rep index lb0
               = Some (s, lb') /\ offsets_ lb' = offsets_ lb).
  { intros index lb0 Hoff. unfold HandleList_body.
    destruct (at_level (nullable_ lb0) rep false); [|now apply Hnonnull].
    destruct (_ || _); [now apply Hnonnull|].
    eexists; eexists; split; [reflexivity | exact Hoff]. }
  generalize (Z.to_nat len) as n. intros n.
  assert (Hloop : forall i lb0,
             offsets_ lb0 = offsets_ lb ->
             exists s lb',
               entries_loop (HandleListEntries fuel) n i def rep off lb0
               = Some (s, lb') /\ offsets_ lb' = offsets_ lb).
  { induction n as [|n IHn]; intros i lb0 Hoff.
    - eexists; eexists; split; [reflexivity | exact Hoff].
    - cbn [entries_loop].
      destruct (Hlist (off + i) (if 0 <? i then append_rep lb0 1 rep else lb0))
        as [s [lb2 [-> Ho]]]; [destruct (0 <? i); exact Hoff|].
      destruct s; try (eexists; eexists; split; [reflexivity | exact Ho]).
      apply IHn. exact Ho. }
  apply Hloop. reflexivity.
Qed.

Lemma VisitInline_offsets (array : Array) :
  forall lb s lb',
    VisitInline array lb = (s, lb') ->
    (List.length (offsets_ lb') <= List.length (offsets_ lb) + list_depth array)%nat.
Proof.
  induction array as [ty d vals voffs | ty d offs values IH | k ty d];
    intros lb s lb' H; cbn [VisitInline list_depth] in *.
  - injection H as <- <-. simpl. lia.
  - apply IH in H. cbn [offsets_] in H. rewrite length_app in H. simpl in H. lia.
  - injection H as <- <-. lia.
Qed.

Lemma walk_nullable_offsets :
  forall (field : Field) (lb : LevelBuilder),
    offsets_ (snd (walk_nullable field lb)) = offsets_ lb.
Proof.
  fix IH 1. intros [name nl [i p ch]] lb.
  destruct ch as [|child0 [|child1 rest]]; simpl; try reflexivity.
  rewrite IH. reflexivity.
Qed.

(** [GenerateLevels] returns for every array of at most 32767 list
    layers: its budget is never used up. *)
Lemma GenerateLevels_returns (array : Array) (field : Field) :
  Z.of_nat (list_depth array) <= 32767 ->
  exists result, GenerateLevels array field = Some result.
Proof.
  intros Hdepth. unfold GenerateLevels.
  destruct (VisitInline array (set_offset_idx new_LevelBuilder 0 (length array)))
    as [s lb1] eqn:Hv.
  apply VisitInline_offsets in Hv. cbn [set_offset_idx offsets_ new_LevelBuilder
                                         List.length] in Hv.
  destruct s; try (eexists; reflexivity).
  pose proof (walk_nullable_offsets field (push_nullable lb1 (nullable field)))
    as Hw.
  destruct (walk_nullable field (push_nullable lb1 (nullable field)))
    as [s lb2]. cbn [snd push_nullable offsets_] in Hw.
  destruct s; try (eexists; reflexivity).
  destruct (Nat.eqb _ 1); [eexists; reflexivity|].
  destruct (HandleListEntries_returns
              (S (List.length (offsets_ (append_rep lb2 1 0)))) 0 0 0
              (length array) (append_rep lb2 1 0))
    as [s [lb4 [-> _]]];
    try (cbn [append_rep offsets_]; rewrite ?Hw; lia).
  destruct s; eexists; reflexivity.
Qed.

(** The rounds of the second loop of the chunked write: once the budget
    exceeds the number of chunks from [chunk_index] on, a larger budget
    changes nothing. *)
Lemma write_chunks_budget (properties : ArrowWriterProperties)
    (writer_ : ColumnWriter) (field_ : Field) (data : ChunkedArray) (size : Z) :
  forall (fuel : nat) (chunk_index chunk_offset values_written : Z)
         (calls : list WriterCall),
    0 <= chunk_index ->
    (List.length data - Z.to_nat chunk_index < fuel)%nat ->
    write_chunks properties writer_ field_ fuel data chunk_index chunk_offset
      values_written size calls
    = write_chunks properties writer_ field_ (S fuel) data chunk_index
        chunk_offset values_written size calls.
Proof.
  induction fuel as [|fuel IH]; intros ci co vw calls Hci Hfuel; [lia|].
  remember (S fuel) as fuel1 eqn:Hf1.
  rewrite Hf1 at 1. cbn [write_chunks].
  destruct (vw <? size) eqn:Evw; [|reflexivity].
  destruct (nth_error data (Z.to_nat ci)) as [chunk|] eqn:Hnth; [|reflexivity].
  assert (Z.to_nat ci < List.length data)%nat as Hlt
    by (apply nth_error_Some; congruence).
  destruct (Write properties writer_ field_ _) as [[s made]|]; [|reflexivity].
  destruct s; try reflexivity.
  destruct (_ =? _) eqn:Emove.
  - subst fuel1. apply IH; lia.
  - apply Z.eqb_neq in Emove. apply Z.ltb_lt in Evw.
    assert (vw + Z.min (size - vw) (length chunk - co) = size) as -> by lia.
    subst fuel1. destruct fuel; cbn [write_chunks]; rewrite Z.ltb_irrefl;
      reflexivity.
Qed.


(** ** Positions and null counts *)

Lemma positions_length (n : Z) : List.length (positions n) = Z.to_nat n.
Proof. unfold positions. now rewrite length_map, length_seq. Qed.

Lemma in_positions (n i : Z) : In i (positions n) <-> 0 <= i < n.
Proof.
  unfold positions. rewrite in_map_iff. split.
  - intros [k [<- Hk]]. apply in_seq in Hk. lia.
  - intros H. exists (Z.to_nat i). split; [lia|]. apply in_seq. lia.
Qed.

Lemma zth_repeat {A : Type} (v d : A) (n : nat) (i : Z) :
  0 <= i < Z.of_nat n -> zth (repeat v n) i d = v.
Proof.
  intros H. unfold zth. destruct (i <? 0) eqn:E; [lia|].
  apply nth_repeat_lt. lia.
Qed.

Lemma filter_none {A : Type} (f : A -> bool) (l : list A) :
  List.length (filter f l) = 0%nat -> forall x, In x l -> f x = false.
Proof.
  intros H x Hx. destruct (f x) eqn:E; [|reflexivity].
  assert (In x (filter f l)) as Hin by (apply filter_In; auto).
  destruct (filter f l); [contradiction | discriminate].
Qed.

Lemma filter_all {A : Type} (f : A -> bool) (l : list A) :
  List.length (filter f l) = List.length l -> forall x, In x l -> f x = true.
Proof.
  intros H x Hx. apply filter_length_forallb in H.
  rewrite forallb_forall in H. auto.
Qed.

Lemma no_nulls_valid (a : Array) :
  array_wf a -> null_count a = 0 ->
  forall i, 0 <= i < length a -> IsNull a i = false.
Proof.
  intros [_ Hc] H0 i Hi. rewrite Hc in H0. unfold count_nulls in H0.
  apply (filter_none (IsNull a) (positions (length a))); [lia|].
  now apply in_positions.
Qed.

Lemma all_nulls_invalid (a : Array) :
  array_wf a -> null_count a = length a ->
  forall i, 0 <= i < length a -> IsNull a i = true.
Proof.
  intros [Hl Hc] H0 i Hi. rewrite Hc in H0. unfold count_nulls in H0.
  apply (filter_all (IsNull a) (positions (length a))).
  - rewrite positions_length. lia.
  - now apply in_positions.
Qed.

Lemma no_bitmap_no_nulls (a : Array) :
  null_bitmap_data a = None -> count_nulls a = 0.
Proof.
  intros Hb. unfold count_nulls.
  rewrite (filter_ext_in (IsNull a) (fun _ => false)).
  - now rewrite filter_false.
  - intros i _. unfold IsNull. now rewrite Hb.
Qed.

(** ** Levels of a primitive array *)

Lemma read_valid_bits_length (n : nat) (r : BitmapReader) :
  List.length (read_valid_bits n r) = n.
Proof. revert r. induction n; intros; simpl; auto. Qed.

Lemma read_valid_bits_nth (n : nat) :
  forall (r : BitmapReader) (i : nat), (i < n)%nat ->
    nth i (read_valid_bits n r) 0 =
    if GetBit (bitmap_bytes (reader_bitmap r)) (reader_position r + Z.of_nat i)
    then 1 else 0.
Proof.
  induction n as [|n IH]; intros r i Hi; [lia|].
  destruct i as [|i]; simpl.
  - unfold IsSet. now rewrite Z.add_0_r.
  - rewrite IH by lia. simpl.
    now replace (reader_position r + 1 + Z.of_nat i)
      with (reader_position r + Z.pos (Pos.of_succ_nat i)) by lia.
Qed.

(** C1. A nullable primitive array written under a nullable leaf field
    gets one definition level per slot and no repetition levels:
    [num_levels] and the length of the definition levels equal the array's
    length, the level at a slot is 1 exactly when the slot is valid (and
    0 exactly when it is null), every level is 1 when the null count is 0
    and every level is 0 when the null count equals the length. *)
Theorem primitive_nullable_levels :
  forall (A : Array) (field : Field),
    is_flat A = true ->
    array_wf A ->
    length A <= INT32_MAX ->
    nullable field = true ->
    children (type field) = [] ->
    exists levels def,
      GenerateLevels A field = Some (Success levels) /\
      def_levels_out levels = Some def /\
      rep_levels_out levels = None /\
      num_levels levels = length A /\
      Z.of_nat (List.length def) = length A /\
      (forall i, 0 <= i < length A ->
         (zth def i 0 = 1 <-> IsValid A i = true) /\
         (zth def i 0 = 0 <-> IsValid A i = false)) /\
      (null_count A = 0 -> def = repeat 1 (Z.to_nat (length A))) /\
      (null_count A = length A -> def = repeat 0 (Z.to_nat (length A))).
Proof.
  intros A field Hflat Hwf _ Hnull Hleaf.
  destruct A as [ty d vals voffs| |]; try discriminate.
  destruct field as [name nl [fid fparams ch]]. simpl in Hnull, Hleaf. subst nl ch.
  set (A := FlatArray ty d vals voffs) in *.
  assert (Hlen : 0 <= length A) by apply Hwf.
  unfold GenerateLevels. cbn [VisitInline A walk_nullable nullable].
  cbn [push_nullable nullable_ app List.length Nat.eqb at_level zth Z.ltb
       Z.compare Z.to_nat nth].
  fold A.
  eexists. eexists. split; [reflexivity|]. cbn [def_levels_out rep_levels_out num_levels].
  split; [reflexivity|]. split; [reflexivity|]. split; [reflexivity|].
  destruct (null_count A =? 0) eqn:E0; [|destruct (null_count A =? length A) eqn:E1].
  - apply Z.eqb_eq in E0. split; [rewrite repeat_length; lia|].
    split; [|split; [reflexivity|]].
    + intros i Hi. rewrite zth_repeat by lia. unfold IsValid.
      rewrite (no_nulls_valid A Hwf E0 i Hi). simpl. split; split; auto; discriminate.
    + intros H. rewrite E0 in H. rewrite <- H. reflexivity.
  - apply Z.eqb_eq in E1. apply Z.eqb_neq in E0.
    split; [rewrite repeat_length; lia|].
    split; [|split; [intros; contradiction | reflexivity]].
    intros i Hi. rewrite zth_repeat by lia. unfold IsValid.
    rewrite (all_nulls_invalid A Hwf E1 i Hi). simpl. split; split; auto; discriminate.
  - apply Z.eqb_neq in E0. apply Z.eqb_neq in E1.
    split; [rewrite read_valid_bits_length; lia|].
    split; [|split; intros; contradiction].
    intros i Hi. unfold zth. destruct (i <? 0) eqn:Ei; [lia|].
    rewrite read_valid_bits_nth by lia. simpl.
    rewrite Z2Nat.id by lia.
    destruct (null_bitmap_data A) as [bits|] eqn:Hb.
    + unfold IsValid, IsNull. rewrite Hb. rewrite negb_involutive.
      simpl. replace (offset A + i) with (i + offset A) by lia.
      destruct (GetBit bits (i + offset A)); split; split; auto; discriminate.
    + exfalso. apply E0. destruct Hwf as [_ Hc]. rewrite Hc.
      now apply no_bitmap_no_nulls.
Qed.

(** The array [1, null, 3, null, 5] under a nullable leaf field. *)
Lemma primitive_nullable_levels_witness :
  exists levels def,
    GenerateLevels Examples.flat_nullable Examples.flat_field
      = Some (Success levels) /\
    def_levels_out levels = Some def /\
    rep_levels_out levels = None /\
    num_levels levels = length Examples.flat_nullable /\
    Z.of_nat (List.length def) = length Examples.flat_nullable /\
    (forall i, 0 <= i < length Examples.flat_nullable ->
       (zth def i 0 = 1 <-> IsValid Examples.flat_nullable i = true) /\
       (zth def i 0 = 0 <-> IsValid Examples.flat_nullable i = false)) /\
    (null_count Examples.flat_nullable = 0 ->
       def = repeat 1 (Z.to_nat (length Examples.flat_nullable))) /\
    (null_count Examples.flat_nullable = length Examples.flat_nullable ->
       def = repeat 0 (Z.to_nat (length Examples.flat_nullable))).
Proof.
  apply (primitive_nullable_levels Examples.flat_nullable Examples.flat_field).
  - reflexivity.
  - split; [vm_compute; discriminate | reflexivity].
  - vm_compute; discriminate.
  - reflexivity.
  - reflexivity.
Defined.

(** The levels of that array, computed: [1,0,1,0,1]. *)
Example flat_nullable_levels :
  GenerateLevels Examples.flat_nullable Examples.flat_field
  = Some (Success (mkLevels 0 5 5 (Some [1; 0; 1; 0; 1]) None
                     (Some Examples.flat_nullable))).
Proof. reflexivity. Qed.

(** ** Levels of a list with nulls *)

(** C2. For the list array [[1,2], null, [], [3]] under a nullable list
    field with non-nullable items, the repetition levels are [0,1,0,0,0],
    the definition levels are [2,2,0,1,2], and [values_offset = 0] with
    [num_values = 3] slice the leaf to the elements [1,2,3]; the write
    hands exactly these to the column writer. *)
Theorem list_with_nulls_levels :
  GenerateLevels Examples.list_with_nulls Examples.list_field
  = Some (Success (mkLevels 0 3 5 (Some [2; 2; 0; 1; 2]) (Some [0; 1; 0; 0; 0])
                     (Some Examples.list_leaf))) /\
  array_elements (Slice Examples.list_leaf 0 3) = [1; 2; 3] /\
  Write Builder (Examples.quiet_writer true PARQUET_1_0) Examples.list_field
        Examples.list_with_nulls
  = Some (OK, [CallWriteBatch Int32Type 5 (Some [2; 2; 0; 1; 2])
                 (Some [0; 1; 0; 0; 0]) (Numbers [1; 2; 3])]).
Proof. repeat split; vm_compute; reflexivity. Qed.

(** ** Timestamp policy selection *)

(** The coercion consults only the target unit and the truncation flag of
    the properties it is given. *)
Lemma WriteTimestampsCoerce_properties (writer_ : ColumnWriter) (array : Array)
    (num_levels : Z) (def_levels rep_levels : option (list Z))
    (p q : ArrowWriterProperties) :
  coerce_timestamps_unit p = coerce_timestamps_unit q ->
  truncated_timestamps_allowed p = truncated_timestamps_allowed q ->
  WriteTimestampsCoerce writer_ array num_levels def_levels rep_levels p
  = WriteTimestampsCoerce writer_ array num_levels def_levels rep_levels q.
Proof. intros Hu Ht. unfold WriteTimestampsCoerce. now rewrite Hu, Ht. Qed.

(** Written unchanged: one call, on the 64-bit integer writer, carrying
    the source values pointer itself. *)
Lemma unchanged_int64_call (writer_ : ColumnWriter) (values : Array)
    (num_levels : Z) (def_levels rep_levels : option (list Z)) :
  exists call,
    snd (apply_policy writer_ PolicyInt64Unchanged values num_levels
           def_levels rep_levels) = [call] /\
    call_type call = Int64Type /\
    call_values call = source_values values.
Proof.
  unfold apply_policy, TypedWriteBatch.
  destruct (is_required writer_ || (null_count values =? 0));
    eexists; (split; [reflexivity|]); split; reflexivity.
Qed.

(** C3. [WriteTimestamps] carries out the policy chosen by the first
    matching rule of: Int96 when the deprecated Int96 timestamps are
    requested; under an explicit coercion unit, unchanged int64 when the
    source unit equals it and a coercion to it otherwise; a coercion to
    microseconds that forbids truncation for nanoseconds under format
    version 1.0; a coercion to milliseconds with the default properties
    for seconds; unchanged int64 otherwise. *)
Theorem timestamp_policy_selection :
  forall (writer_ : ColumnWriter) (properties : ArrowWriterProperties)
         (values : Array) (num_levels : Z)
         (def_levels rep_levels : option (list Z)),
    WriteTimestamps writer_ properties values num_levels def_levels rep_levels
    = apply_policy writer_
        (timestamp_policy properties (version writer_)
           (unit (array_type values)))
        values num_levels def_levels rep_levels.
Proof.
  intros w p values nl d r.
  unfold WriteTimestamps, timestamp_policy. cbn [first_match].
  destruct (support_deprecated_int96_timestamps p); [reflexivity|].
  destruct (coerce_timestamps_enabled p).
  - destruct (TimeUnit_eqb (unit (array_type values)) (coerce_timestamps_unit p));
      [reflexivity|].
    cbn [apply_policy]. now apply WriteTimestampsCoerce_properties.
  - destruct (version w), (unit (array_type values)); reflexivity.
Qed.

(** The five rules on sample configurations. *)
Example timestamp_policy_rules :
  timestamp_policy (mkArrowWriterProperties true true MILLI true) PARQUET_1_0 NANO
    = PolicyInt96 /\
  timestamp_policy (mkArrowWriterProperties false true MILLI true) PARQUET_1_0 MILLI
    = PolicyInt64Unchanged /\
  timestamp_policy (mkArrowWriterProperties false true MILLI true) PARQUET_1_0 NANO
    = PolicyCoerce MILLI true /\
  timestamp_policy Builder PARQUET_1_0 NANO = PolicyCoerce MICRO false /\
  timestamp_policy Builder PARQUET_2_0 NANO = PolicyInt64Unchanged /\
  timestamp_policy Builder PARQUET_2_0 SECOND = PolicyCoerce MILLI false /\
  timestamp_policy Builder PARQUET_1_0 MICRO = PolicyInt64Unchanged.
Proof. repeat split. Qed.

(** ** Timestamp coercion *)

Lemma DivideBy_loop_exact (array : Array) (values : list Z)
    (source_type target_type : DataType) (truncation_allowed : bool)
    (factor : Z) (todo : list Z) :
  forall buffer,
    (truncation_allowed = true \/
     forall i, In i todo ->
       negb (IsNull array i) && negb (Z.rem (zth values i 0) factor =? 0) = false) ->
    DivideBy_loop array values source_type target_type truncation_allowed
      factor todo buffer
    = (OK, buffer ++ map (fun i => Z.quot (zth values i 0) factor) todo).
Proof.
  induction todo as [|i rest IH]; intros buffer H; simpl.
  - now rewrite app_nil_r.
  - assert (negb truncation_allowed && negb (IsNull array i) &&
            negb (Z.rem (zth values i 0) factor =? 0) = false) as ->.
    { destruct H as [-> | H]; [reflexivity|].
      rewrite <- andb_assoc. rewrite (H i) by (now left). apply andb_false_r. }
    rewrite IH.
    + now rewrite <- app_assoc.
    + destruct H as [H | H]; [now left | right]. intros j Hj. apply H. now right.
Qed.

Lemma DivideBy_loop_lossy (array : Array) (values : list Z)
    (source_type target_type : DataType) (factor : Z) (todo : list Z) :
  forall buffer,
    (exists i, In i todo /\
       negb (IsNull array i) && negb (Z.rem (zth values i 0) factor =? 0) = true) ->
    exists i buffer',
      In i todo /\
      negb (IsNull array i) && negb (Z.rem (zth values i 0) factor =? 0) = true /\
      DivideBy_loop array values source_type target_type false factor todo buffer
      = (Invalid (would_lose_data source_type target_type (zth values i 0)),
         buffer').
Proof.
  induction todo as [|i rest IH]; intros buffer [j [Hj Hl]]; [contradiction|].
  cbn [DivideBy_loop]. change (negb false) with true. cbn [andb].
  destruct (negb (IsNull array i) && negb (Z.rem (zth values i 0) factor =? 0))
    eqn:E.
  - exists i, buffer. split; [now left|]. split; [assumption|]. reflexivity.
  - destruct Hj as [-> | Hj]; [congruence|].
    destruct (IH (buffer ++ [Z.quot (zth values i 0) factor])) as [k [b' [Hk [Hkl Hr]]]].
    { exists j. auto. }
    exists k, b'. split; [now right|]. split; assumption.
Qed.

(** A coerced buffer goes out in one call that carries it. *)
Lemma coerced_buffer_call (writer_ : ColumnWriter) (array : Array)
    (target_type : DataType) (num_levels : Z)
    (def_levels rep_levels : option (list Z)) (buffer : list Z) :
  exists call,
    (if is_required writer_ || (null_count array =? 0)
     then WriteNonNullableBatch writer_ Int64Type TimestampType target_type
            (length array) num_levels def_levels rep_levels (Some buffer)
     else WriteNullableBatch writer_ Int64Type TimestampType target_type
            (length array) num_levels def_levels rep_levels
            (null_bitmap_data array) (offset array) (Some buffer))
    = (PARQUET_CATCH_NOT_OK (throws writer_ call), [call]) /\
    call_type call = Int64Type /\
    call_values call = Numbers buffer.
Proof.
  destruct (is_required writer_ || (null_count array =? 0));
    eexists; (split; [reflexivity|]); split; reflexivity.
Qed.

(** What a dividing entry of the table makes of a write. *)
Lemma WriteTimestampsCoerce_divide (writer_ : ColumnWriter) (array : Array)
    (num_levels : Z) (def_levels rep_levels : option (list Z))
    (properties : ArrowWriterProperties) (factor : Z) :
  kTimestampCoercionFactors (unit (array_type array))
    (coerce_timestamps_unit properties) = (COERCE_DIVIDE, factor) ->
  (truncated_timestamps_allowed properties = false ->
   (exists i, 0 <= i < length array /\ lossy array factor i = true) ->
   exists i,
     0 <= i < length array /\ lossy array factor i = true /\
     WriteTimestampsCoerce writer_ array num_levels def_levels rep_levels
       properties
     = (Invalid (would_lose_data (array_type array)
                   (timestamp (coerce_timestamps_unit properties))
                   (zth (raw_values array) i 0)), [])) /\
  ((truncated_timestamps_allowed properties = true \/
    forall i, 0 <= i < length array -> lossy array factor i = false) ->
   exists call,
     WriteTimestampsCoerce writer_ array num_levels def_levels rep_levels
       properties
     = (PARQUET_CATCH_NOT_OK (throws writer_ call), [call]) /\
     call_type call = Int64Type /\
     call_values call
     = Numbers (map (fun i => Z.quot (zth (raw_values array) i 0) factor)
                    (positions (length array)))).
Proof.
  intros Htable. unfold WriteTimestampsCoerce. rewrite Htable.
  cbn [fst snd]. split.
  - intros Ht Hex. rewrite Ht. unfold DivideBy.
    destruct (DivideBy_loop_lossy array (raw_values array) (array_type array)
                (timestamp (coerce_timestamps_unit properties)) factor
                (positions (length array)) [])
      as [i [b' [Hi [Hl Hr]]]].
    { destruct Hex as [i [Hi Hl]]. exists i. split; [now apply in_positions|].
      exact Hl. }
    exists i. split; [now apply in_positions|]. split; [exact Hl|].
    now rewrite Hr.
  - intros Hok. unfold DivideBy. rewrite DivideBy_loop_exact.
    + cbn [app]. apply coerced_buffer_call.
    + destruct Hok as [Hok | Hok]; [now left | right].
      intros i Hi. apply Hok. now apply in_positions.
Qed.

(** What a multiplying entry of the table makes of a write. *)
Lemma WriteTimestampsCoerce_multiply (writer_ : ColumnWriter) (array : Array)
    (num_levels : Z) (def_levels rep_levels : option (list Z))
    (properties : ArrowWriterProperties) (factor : Z) :
  kTimestampCoercionFactors (unit (array_type array))
    (coerce_timestamps_unit properties) = (COERCE_MULTIPLY, factor) ->
  exists call,
    WriteTimestampsCoerce writer_ array num_levels def_levels rep_levels
      properties
    = (PARQUET_CATCH_NOT_OK (throws writer_ call), [call]) /\
    call_type call = Int64Type /\
    call_values call
    = Numbers (map (fun i => int64 (zth (raw_values array) i 0 * factor))
                   (positions (length array))).
Proof.
  intros Htable. unfold WriteTimestampsCoerce. rewrite Htable.
  cbn [fst snd]. unfold MultiplyBy. apply coerced_buffer_call.
Qed.

(** C4. In [WriteTimestampsCoerce], the coercions from microseconds to
    milliseconds (factor 1000), from nanoseconds to milliseconds (factor
    1000000) and from nanoseconds to microseconds (factor 1000) divide:
    the write fails with Invalid, naming the source type, the target type
    and an offending value, when truncation is not allowed and some
    non-null value is not a multiple of the factor; otherwise every value
    written is the source value divided by the factor, rounded toward
    zero.  The nine multiplying coercions (seconds to a finer unit by
    1000, 1000000 or 1000000000, milliseconds and microseconds to a finer
    unit likewise, a unit to itself by 1) never fail of their own: every
    value written is the product with the factor as 64-bit arithmetic
    leaves it. *)
Theorem timestamp_coercion_values :
  forall (writer_ : ColumnWriter) (array : Array) (num_levels : Z)
         (def_levels rep_levels : option (list Z))
         (properties : ArrowWriterProperties) (factor : Z),
    let source := unit (array_type array) in
    let target := coerce_timestamps_unit properties in
    let result :=
      WriteTimestampsCoerce writer_ array num_levels def_levels rep_levels
        properties in
    (In (source, target, factor) dividing_coercions ->
       (truncated_timestamps_allowed properties = false ->
        (exists i, 0 <= i < length array /\ lossy array factor i = true) ->
        exists i,
          0 <= i < length array /\ lossy array factor i = true /\
          result
          = (Invalid (would_lose_data (array_type array) (timestamp target)
                        (zth (raw_values array) i 0)), [])) /\
       ((truncated_timestamps_allowed properties = true \/
         forall i, 0 <= i < length array -> lossy array factor i = false) ->
        exists call,
          result = (PARQUET_CATCH_NOT_OK (throws writer_ call), [call]) /\
          call_type call = Int64Type /\
          call_values call
          = Numbers (map (fun i => Z.quot (zth (raw_values array) i 0) factor)
                         (positions (length array))))) /\
    (In (source, target, factor) multiplying_coercions ->
       exists call,
         result = (PARQUET_CATCH_NOT_OK (throws writer_ call), [call]) /\
         call_type call = Int64Type /\
         call_values call
         = Numbers (map (fun i => int64 (zth (raw_values array) i 0 * factor))
                        (positions (length array)))).
Proof.
  intros w array nl d r p factor source target result.
  subst result source target. split.
  - intros Hin. apply WriteTimestampsCoerce_divide.
    cbn [dividing_coercions In] in Hin.
    destruct Hin as [H | [H | [H | []]]]; injection H as <- <- <-;
      reflexivity.
  - intros Hin. apply WriteTimestampsCoerce_multiply.
    cbn [multiplying_coercions In] in Hin.
    repeat (destruct Hin as [H | Hin];
            [injection H as <- <- <-; reflexivity|]).
    destruct Hin.
Qed.

(** Nanoseconds to microseconds with truncation disallowed: a value that
    is not a whole microsecond fails the write; whole microseconds are
    divided by 1000. *)
Lemma timestamp_coercion_values_witness :
  (exists i,
     0 <= i < length (CoercionExamples.nanos [1500000000; 1500000500]) /\
     lossy (CoercionExamples.nanos [1500000000; 1500000500]) 1000 i = true /\
     WriteTimestampsCoerce (Examples.quiet_writer true PARQUET_1_0)
       (CoercionExamples.nanos [1500000000; 1500000500]) 2 None None
       (disallow_truncated_timestamps (coerce_timestamps MICRO Builder))
     = (Invalid (would_lose_data (timestamp NANO) (timestamp MICRO)
                   (zth (raw_values
                           (CoercionExamples.nanos [1500000000; 1500000500]))
                        i 0)), [])) /\
  (exists call,
     WriteTimestampsCoerce (Examples.quiet_writer true PARQUET_1_0)
       (CoercionExamples.seconds [1; 2]) 2 None None
       (coerce_timestamps MILLI Builder)
     = (PARQUET_CATCH_NOT_OK
          (throws (Examples.quiet_writer true PARQUET_1_0) call), [call]) /\
     call_type call = Int64Type /\
     call_values call = Numbers [1000; 2000]).
Proof.
  split.
  - apply (proj1 (proj1 (timestamp_coercion_values
                           (Examples.quiet_writer true PARQUET_1_0)
                           (CoercionExamples.nanos [1500000000; 1500000500])
                           2 None None
                           (disallow_truncated_timestamps
                              (coerce_timestamps MICRO Builder)) 1000)
                   ltac:(right; right; left; reflexivity))).
    + reflexivity.
    + exists 1. split; [vm_compute; split; [discriminate | reflexivity]|].
      reflexivity.
  - apply (proj2 (timestamp_coercion_values
                    (Examples.quiet_writer true PARQUET_1_0)
                    (CoercionExamples.seconds [1; 2]) 2 None None
                    (coerce_timestamps MILLI Builder) 1000)).
    left. reflexivity.
Defined.


(** Nanoseconds under format version 1.0: 1_500_000_000 becomes
    1_500_000 microseconds, and 1_500_000_500 is refused. *)
Example nanos_to_micros :
  WriteTimestamps (Examples.quiet_writer true PARQUET_1_0) Builder
    (CoercionExamples.nanos [1500000000]) 1 None None
  = (OK, [CallWriteBatch Int64Type 1 None None (Numbers [1500000])]) /\
  WriteTimestamps (Examples.quiet_writer true PARQUET_1_0) Builder
    (CoercionExamples.nanos [1500000500]) 1 None None
  = (Invalid (would_lose_data (timestamp NANO) (timestamp MICRO) 1500000500),
     []).
Proof. split; vm_compute; reflexivity. Qed.

(** Seconds become milliseconds; a negative value divides toward zero;
    a large product wraps around. *)
Example seconds_to_millis :
  WriteTimestamps (Examples.quiet_writer true PARQUET_2_0) Builder
    (CoercionExamples.seconds [1; 2; 3]) 3 None None
  = (OK, [CallWriteBatch Int64Type 3 None None (Numbers [1000; 2000; 3000])]) /\
  WriteTimestamps (Examples.quiet_writer true PARQUET_2_0)
    (mkArrowWriterProperties false true MICRO true)
    (CoercionExamples.nanos [-1500; 1500]) 2 None None
  = (OK, [CallWriteBatch Int64Type 2 None None (Numbers [-1; 1])]) /\
  WriteTimestamps (Examples.quiet_writer true PARQUET_2_0)
    (mkArrowWriterProperties false true NANO false)
    (CoercionExamples.seconds [9223372037]) 1 None None
  = (OK, [CallWriteBatch Int64Type 1 None None
            (Numbers [-9223372036709551616])]).
Proof. repeat split; vm_compute; reflexivity. Qed.

(** ** The chunked write *)

Lemma chunked_length_nonneg (data : list Array) :
  Forall (fun chunk => 0 <= length chunk) data -> 0 <= chunked_length data.
Proof.
  induction 1 as [|chunk rest Hc _ IH]; [reflexivity|].
  change (chunked_length (chunk :: rest))
    with (length chunk + chunked_length rest). lia.
Qed.

(** With the requested offset at or past the end, the first loop leaves
    [absolute_position] at or past the end as well. *)
Lemma advance_past_end (rest : list Array) :
  forall chunk_index absolute_position offset,
    Forall (fun chunk => 0 <= length chunk) rest ->
    absolute_position + chunked_length rest <= offset ->
    absolute_position + chunked_length rest
    <= snd (fst (advance rest chunk_index absolute_position offset)).
Proof.
  induction rest as [|chunk rest IH]; intros idx pos off Hwf Hoff.
  - simpl in *. lia.
  - inversion Hwf as [|? ? Hc Hrest]; subst.
    pose proof (chunked_length_nonneg rest Hrest) as Hnn.
    cbn [advance]. change (chunked_length (chunk :: rest))
      with (length chunk + chunked_length rest) in *.
    destruct (pos <? off) eqn:E1.
    + destruct (off <? pos + length chunk) eqn:E2.
      * apply Z.ltb_lt in E2. lia.
      * specialize (IH (idx + 1) (pos + length chunk) off Hrest). lia.
    + apply Z.ltb_ge in E1. simpl. lia.
Qed.

(** C7, as the code has it.  A chunked array that holds at least one
    element, written from an offset at or past its end, is refused with
    Invalid before any chunk is written. *)
Theorem offset_past_end_invalid :
  forall (properties : ArrowWriterProperties) (writer_ : ColumnWriter)
         (field_ : Field) (data : ChunkedArray) (offset size : Z),
    Forall (fun chunk => 0 <= length chunk) data ->
    0 < chunked_length data ->
    chunked_length data <= offset ->
    WriteChunked properties writer_ field_ data offset size
    = Some (Invalid
              [Str "Cannot write data at offset past end of chunked array"],
            []).
Proof.
  intros p w f data off size Hwf Hpos Hoff.
  unfold WriteChunked.
  destruct (chunked_length data =? 0) eqn:E0; [apply Z.eqb_eq in E0; lia|].
  pose proof (advance_past_end data 0 0 off Hwf) as Hadv.
  destruct (advance data 0 0 off) as [[chunk_index absolute_position] chunk_offset].
  simpl in Hadv.
  destruct (chunked_length data <=? absolute_position) eqn:E1; [reflexivity|].
  apply Z.leb_gt in E1. lia.
Qed.

(** Two chunks of two elements, written from offset 4. *)
Lemma offset_past_end_invalid_witness :
  WriteChunked Builder ModeExamples.optional_writer Examples.flat_field
    [ModeExamples.int32_with_null; ModeExamples.int32_with_null] 4 1
  = Some (Invalid
            [Str "Cannot write data at offset past end of chunked array"],
          []).
Proof.
  apply (offset_past_end_invalid Builder ModeExamples.optional_writer
           Examples.flat_field
           [ModeExamples.int32_with_null; ModeExamples.int32_with_null] 4 1).
  - repeat constructor; vm_compute; discriminate.
  - reflexivity.
  - vm_compute; discriminate.
Defined.

(** C7 fails as stated: a chunked array made of one empty chunk has length
    0, offset 5 lies past its end, and the write returns OK. *)
Lemma empty_chunked_offset_past_end_ok :
  chunked_length [ChunkExamples.empty_chunk] = 0 /\
  WriteChunked Builder ModeExamples.optional_writer Examples.flat_field
    [ChunkExamples.empty_chunk] 5 1
  = Some (OK, []).
Proof. split; reflexivity. Qed.

(** C10. A chunked array of length 0 is written at once with OK and
    without a call on the column writer, whatever the offset and the
    size: the bounds check on the offset is not reached. *)
Theorem empty_chunked_write_ok :
  forall (properties : ArrowWriterProperties) (writer_ : ColumnWriter)
         (field_ : Field) (data : ChunkedArray) (offset size : Z),
    chunked_length data = 0 ->
    WriteChunked properties writer_ field_ data offset size = Some (OK, []).
Proof.
  intros p w f data off size H. unfold WriteChunked. now rewrite H.
Qed.

(** No chunk at all, offset 7. *)
Lemma empty_chunked_write_ok_witness :
  WriteChunked Builder ModeExamples.optional_writer Examples.flat_field
    [] 7 3
  = Some (OK, []).
Proof.
  apply (empty_chunked_write_ok Builder ModeExamples.optional_writer
           Examples.flat_field [] 7 3).
  reflexivity.
Defined.

(** ** Fields with more than one child *)

(** Descending a supported array succeeds and leaves the collected
    nullability untouched. *)
Lemma VisitInline_supported (array : Array) :
  supported_array array = true ->
  forall lb, exists lb',
    VisitInline array lb = (OK, lb') /\ nullable_ lb' = nullable_ lb.
Proof.
  induction array as [ty d vals voffs | ty d offs values IH | k ty d];
    intros Hs lb.
  - eexists. split; reflexivity.
  - cbn [VisitInline]. simpl in Hs.
    destruct (IH Hs (mkLevelBuilder (def_levels_ lb) (rep_levels_ lb)
           (null_counts_ lb ++ [null_count (ListArray ty d offs values)])
           (valid_bitmaps_ lb ++ [data_null_bitmap d])
           (offsets_ lb ++ [raw_value_offsets d offs])
           (array_offsets_ lb ++ [int32 (data_offset d)])
           (nullable_ lb)
           (value_offset d offs (min_offset_idx_ lb))
           (value_offset d offs (max_offset_idx_ lb))
           (values_array_ lb))) as [lb' [Hv Hn]].
    exists lb'. split; [exact Hv | exact Hn].
  - discriminate.
Qed.

Lemma walk_nullable_multi_child :
  forall (field : Field) (lb : LevelBuilder),
    has_multi_child_type field = true ->
    fst (walk_nullable field lb)
    = NotImplemented [Str "Fields with more than one child are not supported."].
Proof.
  fix IH 1. intros [name nl [i p ch]] lb H.
  destruct ch as [|child0 [|child1 rest]]; simpl in H |- *.
  - discriminate.
  - apply IH. exact H.
  - reflexivity.
Qed.

Lemma GenerateLevels_multi_child (array : Array) (field : Field) :
  supported_array array = true ->
  has_multi_child_type field = true ->
  GenerateLevels array field
  = Some (Failure (NotImplemented
                     [Str "Fields with more than one child are not supported."])).
Proof.
  intros Hs Hm. unfold GenerateLevels.
  destruct (VisitInline_supported array Hs
              (set_offset_idx new_LevelBuilder 0 (length array)))
    as [lb1 [-> _]].
  pose proof (walk_nullable_multi_child field
                (push_nullable lb1 (nullable field)) Hm) as Hw.
  destruct (walk_nullable field (push_nullable lb1 (nullable field)))
    as [s lb2]. simpl in Hw. subst s. reflexivity.
Qed.

(** C8, as the code has it.  When the array is not empty, its own type
    passes [GetLeafType], the array is made of list layers over a flat
    leaf, and the path down the field's type meets a type with more than
    one child, the write fails with NotImplemented and makes no call on
    the column writer. *)
Theorem multi_child_field_not_implemented :
  forall (properties : ArrowWriterProperties) (writer_ : ColumnWriter)
         (field_ : Field) (data : Array) (values_type : TypeId),
    length data <> 0 ->
    GetLeafType (array_type data) = Success values_type ->
    supported_array data = true ->
    has_multi_child_type field_ = true ->
    Write properties writer_ field_ data
    = Some (NotImplemented
              [Str "Fields with more than one child are not supported."],
            []).
Proof.
  intros p w f data vt Hlen Hleaf Hs Hm. unfold Write.
  apply Z.eqb_neq in Hlen. rewrite Hlen, Hleaf.
  now rewrite GenerateLevels_multi_child.
Qed.

(** An int32 array written under a field whose type is a struct of two
    children. *)
Lemma multi_child_field_not_implemented_witness :
  Write Builder ModeExamples.optional_writer ChunkExamples.pair_field
    ModeExamples.int32_with_null
  = Some (NotImplemented
            [Str "Fields with more than one child are not supported."],
          []).
Proof.
  apply (multi_child_field_not_implemented Builder ModeExamples.optional_writer
           ChunkExamples.pair_field ModeExamples.int32_with_null INT32).
  - vm_compute; discriminate.
  - reflexivity.
  - reflexivity.
  - reflexivity.
Defined.

(** C8 fails as stated: the field's type is a struct of two children, and
    the write of a one-element array of that type fails with Invalid from
    [GetLeafType], while the write of an empty array returns OK. *)
Lemma multi_child_struct_write_invalid :
  has_multi_child_type ChunkExamples.pair_field = true /\
  Write Builder ModeExamples.optional_writer ChunkExamples.pair_field
    ChunkExamples.pair_array
  = Some (Invalid [Str "Nested column branch had multiple children: ";
                   TypeString ChunkExamples.pair_type], []) /\
  Write Builder ModeExamples.optional_writer ChunkExamples.pair_field
    ChunkExamples.empty_chunk
  = Some (OK, []).
Proof. repeat split. Qed.

(** ** Closing the file writer *)

Lemma Close_closed (u : Underlying) (st : Impl) :
  closed_ st = true -> Close u st = (OK, st, []).
Proof. intros H. unfold Close. now rewrite H. Qed.

Lemma Close_sets_closed (u : Underlying) (st : Impl) :
  closed_ (snd (fst (Close u st))) = true.
Proof.
  unfold Close. destruct (closed_ st) eqn:E; simpl; [exact E|].
  destruct (row_group_writer_ st), (row_group_close_throws u),
    (file_close_throws u); reflexivity.
Qed.

Lemma Close_many_closed (us : list Underlying) :
  forall st, closed_ st = true ->
    Close_many us st = (map (fun _ => (OK, [])) us, st).
Proof.
  induction us as [|u rest IH]; intros st H; simpl; [reflexivity|].
  rewrite (Close_closed u st H). now rewrite (IH st H).
Qed.

(** C9.  The first [Close] of an open writer sets the closed flag and
    closes the active row-group writer, if there is one, and then the file
    writer (when closing the row group throws, the call returns that
    error and the file writer is left alone).  Every later [Close],
    whatever the first one returned and whatever the underlying writer
    would answer, makes no call, changes nothing and returns OK. *)
Theorem Close_idempotent :
  forall (u : Underlying) (row_group : bool) (later : list Underlying),
    let first := Close u (mkImpl row_group false) in
    let st1 := snd (fst first) in
    closed_ st1 = true /\
    (row_group_close_throws u = None \/ row_group = false ->
     snd first = (if row_group then [RowGroupClose] else []) ++ [FileClose] /\
     fst (fst first) = PARQUET_CATCH_NOT_OK (file_close_throws u)) /\
    (forall what, row_group = true -> row_group_close_throws u = Some what ->
     snd first = [RowGroupClose] /\
     fst (fst first) = UnknownError [Str what]) /\
    Close_many later st1 = (map (fun _ => (OK, [])) later, st1) /\
    (forall u', Close u' st1 = (OK, st1, [])).
Proof.
  intros u rg later first st1.
  assert (Hc : closed_ st1 = true) by apply Close_sets_closed.
  split; [exact Hc|]. split; [|split; [|split]].
  - subst st1 first. unfold Close. cbn [closed_ negb row_group_writer_].
    intros [H | H].
    + rewrite H. destruct rg, (file_close_throws u); split; reflexivity.
    + subst rg. destruct (file_close_throws u); split; reflexivity.
  - intros what -> H. subst st1 first. unfold Close.
    cbn [closed_ negb row_group_writer_]. rewrite H. split; reflexivity.
  - now apply Close_many_closed.
  - intros u'. now apply Close_closed.
Qed.

(** A close whose row-group close throws, followed by two more closes. *)
Example Close_after_error :
  Close_many
    [mkUnderlying (Some "disk full"%string) None None;
     mkUnderlying (Some "disk full"%string) None (Some "disk full"%string);
     mkUnderlying None None None]
    (mkImpl true false)
  = ([(UnknownError [Str "disk full"%string], [RowGroupClose]); (OK, []); (OK, [])],
     mkImpl true true).
Proof. reflexivity. Qed.

(** ** Little-endian bytes *)

Lemma le_bytes_length (n : nat) : forall x, List.length (le_bytes n x) = n.
Proof. induction n; intros; simpl; auto. Qed.

Lemma le_bytes_is_byte (n : nat) : forall x, Forall is_byte (le_bytes n x).
Proof.
  induction n; intros x; simpl; constructor; auto.
  unfold is_byte. apply Z.mod_pos_bound. lia.
Qed.

Lemma pow_8_succ (n : nat) : 2 ^ (8 * Z.of_nat (S n)) = 256 * 2 ^ (8 * Z.of_nat n).
Proof.
  replace (8 * Z.of_nat (S n)) with (8 + 8 * Z.of_nat n) by lia.
  rewrite Z.pow_add_r by lia. reflexivity.
Qed.

Lemma le_value_le_bytes (n : nat) :
  forall x, le_value (le_bytes n x) = x mod 2 ^ (8 * Z.of_nat n).
Proof.
  induction n as [|n IH]; intros x.
  - simpl. now rewrite Z.mod_1_r.
  - cbn [le_bytes le_value]. rewrite IH, pow_8_succ.
    rewrite Z.rem_mul_r; [reflexivity | lia |].
    apply Z.pow_pos_nonneg; lia.
Qed.

Lemma le_bytes_firstn (n : nat) :
  forall bs, Forall is_byte bs -> (n <= List.length bs)%nat ->
    le_bytes n (le_value bs) = firstn n bs.
Proof.
  induction n as [|n IH]; intros bs Hb Hn; [reflexivity|].
  destruct bs as [|b bs]; [simpl in Hn; lia|].
  inversion Hb as [|? ? Hb0 Hbs]; subst. unfold is_byte in Hb0.
  cbn [le_bytes le_value firstn].
  replace (b + 256 * le_value bs) with (b + le_value bs * 256) by lia.
  rewrite Z.mod_add, Z.div_add by lia.
  rewrite Z.mod_small, Z.div_small by lia. cbn [Z.add].
  f_equal. apply IH; [assumption | simpl in Hn; lia].
Qed.

Lemma le_bytes_le_value (bs : list Z) :
  Forall is_byte bs -> le_bytes (List.length bs) (le_value bs) = bs.
Proof.
  intros H. rewrite le_bytes_firstn by auto. apply firstn_all.
Qed.

Lemma le_bytes_shift (n : nat) :
  forall x k, le_bytes n (x + k * 2 ^ (8 * Z.of_nat n)) = le_bytes n x.
Proof.
  induction n as [|n IH]; intros x k; [reflexivity|].
  cbn [le_bytes]. rewrite pow_8_succ.
  replace (x + k * (256 * 2 ^ (8 * Z.of_nat n)))
    with (x + (k * 2 ^ (8 * Z.of_nat n)) * 256) by lia.
  rewrite Z.mod_add, Z.div_add by lia. now rewrite IH.
Qed.

Lemma le_bytes_mod (n : nat) (x : Z) :
  le_bytes n (x mod 2 ^ (8 * Z.of_nat n)) = le_bytes n x.
Proof.
  rewrite Z.mod_eq by (apply Z.pow_nonzero; lia).
  replace (x - 2 ^ (8 * Z.of_nat n) * (x / 2 ^ (8 * Z.of_nat n)))
    with (x + (- (x / 2 ^ (8 * Z.of_nat n))) * 2 ^ (8 * Z.of_nat n)) by lia.
  apply le_bytes_shift.
Qed.

(** The signed reading undoes the reduction to [bits] bits. *)
Lemma signed_mod (bits v : Z) :
  0 < bits -> - 2 ^ (bits - 1) <= v < 2 ^ (bits - 1) ->
  signed bits (v mod 2 ^ bits) = v.
Proof.
  intros Hb Hv. unfold signed.
  assert (Hp : 2 ^ bits = 2 * 2 ^ (bits - 1)).
  { replace bits with (1 + (bits - 1)) at 1 by lia.
    rewrite Z.pow_add_r by lia. reflexivity. }
  assert (0 < 2 ^ (bits - 1)) by (apply Z.pow_pos_nonneg; lia).
  destruct (Z_lt_le_dec v 0) as [Hneg | Hpos].
  - replace (v mod 2 ^ bits) with (v + 2 ^ bits).
    + destruct (v + 2 ^ bits <? 2 ^ (bits - 1)) eqn:E; [apply Z.ltb_lt in E|]; lia.
    + symmetry. rewrite <- (Z.mod_add v 1) by lia.
      rewrite Z.mul_1_l. apply Z.mod_small. lia.
  - rewrite Z.mod_small by lia.
    destruct (v <? 2 ^ (bits - 1)) eqn:E; [reflexivity|].
    apply Z.ltb_ge in E. lia.
Qed.

(** A big-endian two's-complement representation has the length asked
    for and stands for the integer it was made from. *)
Lemma twos_complement_be_length (n d : Z) :
  0 <= n -> Z.of_nat (List.length (twos_complement_be n d)) = n.
Proof.
  intros H. unfold twos_complement_be. rewrite length_rev, le_bytes_length. lia.
Qed.

Lemma be_signed_twos_complement (n d : Z) :
  0 < n -> - 2 ^ (8 * n - 1) <= d < 2 ^ (8 * n - 1) ->
  be_signed (twos_complement_be n d) = d.
Proof.
  intros Hn Hd. unfold be_signed.
  rewrite twos_complement_be_length by lia.
  unfold twos_complement_be. rewrite rev_involutive, le_value_le_bytes.
  rewrite Z2Nat.id by lia. rewrite Z.mod_mod by (apply Z.pow_nonzero; lia).
  apply signed_mod; lia.
Qed.

(** ** Decimals as fixed-length big-endian bytes *)

Lemma DecimalSize_bounds (p : Z) :
  1 <= p <= 38 ->
  1 <= DecimalSize p <= 16 /\ 10 ^ p <= 2 ^ (8 * DecimalSize p - 1).
Proof.
  intros Hp.
  assert (forallb (fun q => (1 <=? DecimalSize q) && (DecimalSize q <=? 16) &&
                            (10 ^ q <=? 2 ^ (8 * DecimalSize q - 1)))
                  (positions 39) = true) as Hall by (vm_compute; reflexivity).
  rewrite forallb_forall in Hall.
  specialize (Hall p). rewrite in_positions in Hall.
  specialize (Hall ltac:(lia)).
  apply andb_prop in Hall. destruct Hall as [Hall H3].
  apply andb_prop in Hall. destruct Hall as [H1 H2].
  apply Z.leb_le in H1, H2, H3. lia.
Qed.

Lemma vector_bytes_pairs {A : Type} (hi lo : A -> Z) (l : list A) :
  vector_bytes (flat_map (fun i => [hi i; lo i]) l)
  = flat_map (fun i => le_bytes 8 (hi i) ++ le_bytes 8 (lo i)) l.
Proof.
  unfold vector_bytes. induction l as [|a l IH]; [reflexivity|].
  cbn [flat_map app]. rewrite IH, <- app_assoc. reflexivity.
Qed.

(** The byte swap of a 64-bit word read from eight bytes, stored back,
    is the eight bytes reversed. *)
Lemma ToBigEndian_bytes (bs : list Z) :
  List.length bs = 8%nat -> Forall is_byte bs ->
  le_bytes 8 (ToBigEndian (le_value bs)) = rev bs.
Proof.
  intros Hl Hb. unfold ToBigEndian.
  rewrite <- Hl at 2. rewrite le_bytes_le_value by assumption.
  replace 8%nat with (List.length (rev bs)) by (now rewrite length_rev).
  apply le_bytes_le_value. now apply Forall_rev.
Qed.

Lemma Forall_firstn {A : Type} (P : A -> Prop) (n : nat) (l : list A) :
  Forall P l -> Forall P (firstn n l).
Proof.
  intros H. rewrite Forall_forall in *. intros x Hx. apply H.
  rewrite <- (firstn_skipn n l). apply in_or_app. now left.
Qed.

Lemma Forall_skipn {A : Type} (P : A -> Prop) (n : nat) (l : list A) :
  Forall P l -> Forall P (skipn n l).
Proof.
  intros H. rewrite Forall_forall in *. intros x Hx. apply H.
  rewrite <- (firstn_skipn n l). apply in_or_app. now right.
Qed.

(** The two words the materialiser stores for a value are the value's 16
    bytes in reverse order. *)
Lemma big_endian_block (array : Array) (i : Z) :
  decimal_stored array i ->
  le_bytes 8 (ToBigEndian (unsigned_64_bit array i 1)) ++
  le_bytes 8 (ToBigEndian (unsigned_64_bit array i 0))
  = rev (decimal_raw array i).
Proof.
  intros [Hl Hb]. unfold unsigned_64_bit, ptr_add.
  change (Z.to_nat (8 * 1)) with 8%nat. change (Z.to_nat (8 * 0)) with 0%nat.
  change (skipn 0 (GetValue array i)) with (GetValue array i).
  rewrite firstn_skipn_comm. change (8 + 8)%nat with 16%nat.
  replace (firstn 8 (GetValue array i))
    with (firstn 8 (firstn 16 (GetValue array i)))
    by (rewrite firstn_firstn; reflexivity).
  fold (decimal_raw array i).
  rewrite !ToBigEndian_bytes.
  - rewrite <- rev_app_distr. now rewrite firstn_skipn.
  - rewrite length_firstn. lia.
  - now apply Forall_firstn.
  - rewrite length_skipn. lia.
  - now apply Forall_skipn.
Qed.

Lemma positions_succ (n : nat) :
  positions (Z.of_nat (S n)) = 0 :: map (fun j => j + 1) (positions (Z.of_nat n)).
Proof.
  unfold positions. rewrite !Nat2Z.id. cbn [seq map]. f_equal.
  rewrite <- seq_shift, !map_map. apply map_ext. intros k. lia.
Qed.

(** Reading [s] bytes at [off] within the block of the [j]-th value taken
    reads them from that value's block. *)
Lemma block_pointers (block : Z -> list Z) (s off : nat) :
  (off + s <= 16)%nat ->
  forall l,
    (forall x, In x l -> List.length (block x) = 16%nat) ->
    map (fun j => firstn s (skipn (Z.to_nat (8 * (2 * j) + Z.of_nat off))
                              (flat_map block l)))
        (positions (Z.of_nat (List.length l)))
    = map (fun x => firstn s (skipn off (block x))) l.
Proof.
  intros Hs. induction l as [|a l IH]; intros Hlen; [reflexivity|].
  cbn [List.length]. rewrite positions_succ. cbn [map flat_map]. f_equal.
  - replace (Z.to_nat (8 * (2 * 0) + Z.of_nat off)) with off by lia.
    rewrite skipn_app, firstn_app, length_skipn, (Hlen a) by (now left).
    replace (s - (16 - off))%nat with 0%nat by lia.
    rewrite firstn_O, app_nil_r. reflexivity.
  - rewrite map_map. rewrite <- IH by (intros x Hx; apply Hlen; now right).
    apply map_ext_in. intros j Hj. apply in_positions in Hj.
    replace (Z.to_nat (8 * (2 * (j + 1)) + Z.of_nat off))
      with (16 + Z.to_nat (8 * (2 * j) + Z.of_nat off))%nat by lia.
    rewrite skipn_app, (Hlen a) by (now left).
    rewrite skipn_all2 by (rewrite (Hlen a) by (now left); lia).
    cbn [app]. f_equal. f_equal. lia.
Qed.

(** The low [s] bytes of a stored value, most significant first, are the
    [s]-byte big-endian two's complement of the value. *)
Lemma low_bytes_twos_complement (array : Array) (i : Z) (s : nat) :
  decimal_stored array i -> (s <= 16)%nat ->
  firstn s (skipn (16 - s) (rev (decimal_raw array i)))
  = twos_complement_be (Z.of_nat s) (Decimal128_value array i).
Proof.
  intros [Hl Hb] Hs. unfold twos_complement_be, Decimal128_value.
  rewrite skipn_rev, Hl. replace (16 - (16 - s))%nat with s by lia.
  rewrite firstn_all2 by (rewrite length_rev, length_firstn; lia).
  f_equal. rewrite Nat2Z.id, le_bytes_mod.
  rewrite <- (le_bytes_firstn s (decimal_raw array i)) by (auto; lia).
  unfold signed. destruct (_ <? _); [reflexivity|].
  replace (le_value (decimal_raw array i) - 2 ^ 128)
    with (le_value (decimal_raw array i)
          + (- 2 ^ (128 - 8 * Z.of_nat s)) * 2 ^ (8 * Z.of_nat s)).
  - symmetry. apply le_bytes_shift.
  - rewrite Z.mul_opp_l, <- Z.pow_add_r by lia.
    replace (128 - 8 * Z.of_nat s + 8 * Z.of_nat s) with 128 by lia. lia.
Qed.

Lemma decimal_taken_length (writer_ : ColumnWriter) (array : Array) :
  array_wf array ->
  (is_required writer_ = true -> null_count array = 0) ->
  Z.of_nat (List.length (decimal_taken writer_ array))
  = length array - null_count array.
Proof.
  intros [Hl Hc] Hreq. unfold decimal_taken.
  destruct (is_required writer_ || (null_count array =? 0)) eqn:E.
  - assert (null_count array = 0) as ->.
    { apply orb_prop in E. destruct E as [E | E]; [auto | now apply Z.eqb_eq]. }
    rewrite positions_length. lia.
  - rewrite Hc. unfold present_positions, count_nulls.
    pose proof (filter_length (IsNull array) (positions (length array))) as H.
    rewrite positions_length in H. lia.
Qed.

(** The vector of big-endian words is sized for the words written into
    it. *)
Lemma big_endian_words_fit (writer_ : ColumnWriter) (array : Array) :
  array_wf array ->
  (is_required writer_ = true -> null_count array = 0) ->
  (Z.of_nat (List.length
               (big_endian_words array (decimal_taken writer_ array)))
   <=? (length array - null_count array) * 2) = true.
Proof.
  intros Hwf Hreq.
  pose proof (decimal_taken_length writer_ array Hwf Hreq) as Hcount.
  apply Z.leb_le. unfold big_endian_words. rewrite length_flat_map.
  rewrite (map_ext _ (fun _ => 2%nat)) by reflexivity.
  assert (forall l : list Z, list_sum (map (fun _ => 2%nat) l)
                             = (2 * List.length l)%nat) as ->
    by (induction l; simpl; lia).
  lia.
Qed.


(** C6.  For a decimal array of precision [p] between 1 and 38 whose
    values have at most [p] digits, the decimal materialiser makes one
    dense call, and the [DecimalSize p] bytes it hands over for each value
    taken are the big-endian two's-complement representation of that
    value: a sequence of [DecimalSize p] bytes that stands for the value.
    The pointer for a value lies [byte_width - DecimalSize p] bytes into
    its pair of big-endian words.  The value 123456789 at precision 9 is
    written as the four bytes 07 5B CD 15. *)
Theorem decimal_big_endian :
  (forall (writer_ : ColumnWriter) (array : Array) (num_levels : Z)
          (def_levels rep_levels : option (list Z)),
     let p := precision (array_type array) in
     let s := DecimalSize p in
     byte_width (array_type array) = 16 ->
     1 <= p <= 38 ->
     array_wf array ->
     (is_required writer_ = true -> null_count array = 0) ->
     (forall i, In i (decimal_taken writer_ array) ->
        decimal_stored array i /\
        - 10 ^ p < Decimal128_value array i < 10 ^ p) ->
     exists call,
       TypedWriteBatch_Decimal writer_ array num_levels def_levels rep_levels
       = Some (PARQUET_CATCH_NOT_OK (throws writer_ call), [call]) /\
       call_mode call = Dense /\
       call_values call
       = FLBAs
           (map (fun j =>
                   ptr_add (vector_bytes
                              (big_endian_words array
                                 (decimal_taken writer_ array)))
                           (16 * j + (byte_width (array_type array) - s)))
                (positions
                   (Z.of_nat (List.length (decimal_taken writer_ array))))) /\
       emitted_bytes s call
       = map (fun i => twos_complement_be s (Decimal128_value array i))
             (decimal_taken writer_ array) /\
       (forall i, In i (decimal_taken writer_ array) ->
          Z.of_nat (List.length
                      (twos_complement_be s (Decimal128_value array i))) = s /\
          be_signed (twos_complement_be s (Decimal128_value array i))
          = Decimal128_value array i)) /\
  (DecimalSize 9 = 4 /\
   Decimal128_value (DecimalExamples.decimals [123456789]) 0 = 123456789 /\
   option_map (fun written => map (emitted_bytes (DecimalSize 9)) (snd written))
     (TypedWriteBatch_Decimal ModeExamples.optional_writer
        (DecimalExamples.decimals [123456789]) 1 None None)
   = Some [[[7; 91; 205; 21]]]).
Proof.
  split; [|repeat split; vm_compute; reflexivity].
  intros w array nl d r p s Hw Hp Hwf Hreq Hvals.
  destruct (DecimalSize_bounds p Hp) as [Hs Hfit]. fold s in Hs, Hfit.
  unfold TypedWriteBatch_Decimal. fold p s.
  change (if is_required w || (null_count array =? 0)
          then positions (length array) else present_positions array)
    with (decimal_taken w array).
  rewrite (big_endian_words_fit w array Hwf Hreq).
  set (taken := decimal_taken w array) in *.
  rewrite Hw.
  assert (Hoff : int32 (16 - s) = 16 - s).
  { unfold int32, wrap. rewrite Z.mod_small; [lia|].
    change (2 ^ (32 - 1)) with 2147483648. change (2 ^ 32) with 4294967296.
    lia. }
  rewrite Hoff.
  eexists. split; [reflexivity|]. split; [reflexivity|].
  split.
  { cbn [call_values]. f_equal. apply map_ext. intros j. f_equal. lia. }
  split.
  - unfold emitted_bytes, call_values. rewrite map_map.
    unfold big_endian_words.
    rewrite vector_bytes_pairs. unfold flba_bytes, ptr_add.
    replace (16 - s) with (Z.of_nat (16 - Z.to_nat s)) by lia.
    rewrite (block_pointers
               (fun i => le_bytes 8 (ToBigEndian (unsigned_64_bit array i 1)) ++
                         le_bytes 8 (ToBigEndian (unsigned_64_bit array i 0)))
               (Z.to_nat s) (16 - Z.to_nat s)).
    + apply map_ext_in. intros i Hi.
      destruct (Hvals i Hi) as [Hst _].
      rewrite big_endian_block by assumption.
      rewrite low_bytes_twos_complement by (auto; lia).
      now rewrite Z2Nat.id by lia.
    + lia.
    + intros i Hi. rewrite length_app, !le_bytes_length. reflexivity.
  - intros i Hi. destruct (Hvals i Hi) as [_ Hv].
    split; [apply twos_complement_be_length; lia|].
    apply be_signed_twos_complement; lia.
Qed.

(** The values [5, null, -1] at precision 9, written for an optional
    column: two values are taken. *)
Lemma decimal_big_endian_witness :
  exists call,
    TypedWriteBatch_Decimal ModeExamples.optional_writer
      DecimalExamples.decimals_with_null 3 (Some [1; 0; 1]) None
    = Some (PARQUET_CATCH_NOT_OK (throws ModeExamples.optional_writer call),
            [call]) /\
    call_mode call = Dense /\
    emitted_bytes 4 call = [[0; 0; 0; 5]; [255; 255; 255; 255]].
Proof.
  destruct (proj1 decimal_big_endian ModeExamples.optional_writer
              DecimalExamples.decimals_with_null 3 (Some [1; 0; 1]) None)
    as [call [Hc [Hm [_ [He _]]]]].
  - reflexivity.
  - vm_compute. split; discriminate.
  - split; [vm_compute; discriminate | reflexivity].
  - discriminate.
  - intros i Hi.
    assert (i = 0 \/ i = 2) as [-> | ->]
      by (vm_compute in Hi; intuition congruence).
    + split; [split; [reflexivity |] |].
      * apply Forall_forall. intros b Hb. vm_compute in Hb.
        unfold is_byte. intuition lia.
      * vm_compute. split; reflexivity.
    + split; [split; [reflexivity |] |].
      * apply Forall_forall. intros b Hb. vm_compute in Hb.
        unfold is_byte. intuition lia.
      * vm_compute. split; reflexivity.
  - exists call. split; [exact Hc|]. split; [exact Hm|]. exact He.
Defined.

(** ** Dense and spaced writes *)









(** The two modes on the same optional column: the int32 array [7, null]
    goes out spaced with its validity bitmap, the boolean array
    [true, null] dense with the one present value. *)
Example optional_column_modes :
  write_leaf Builder ModeExamples.optional_writer INT32
    ModeExamples.int32_with_null 2 (Some [1; 0]) None
  = Some (OK, [CallWriteBatchSpaced Int32Type 2 (Some [1; 0]) None
                 (Some [1]) 0 (Numbers [7; 0])]) /\
  write_leaf Builder ModeExamples.optional_writer BOOL
    ModeExamples.bool_with_null 2 (Some [1; 0]) None
  = Some (OK, [CallWriteBatch BooleanType 2 (Some [1; 0]) None
                 (Booleans [true])]).
Proof. split; reflexivity. Qed.


(** ** More on the level builder *)

Lemma walk_nullable_path :
  forall (field : Field) (lb : LevelBuilder),
    has_multi_child_type field = false ->
    walk_nullable field lb
    = (OK,
       mkLevelBuilder (def_levels_ lb) (rep_levels_ lb) (null_counts_ lb)
         (valid_bitmaps_ lb) (offsets_ lb) (array_offsets_ lb)
         (nullable_ lb ++ tl (path_nullable field))
         (min_offset_idx_ lb) (max_offset_idx_ lb) (values_array_ lb)).
Proof.
  fix IH 1. intros [name nl [i p ch]] lb H.
  destruct ch as [|child0 [|child1 rest]]; simpl in H |- *.
  - rewrite app_nil_r. now destruct lb.
  - rewrite IH by exact H. unfold push_nullable. cbn.
    rewrite <- app_assoc. cbn [app].
    destruct child0 as [n0 nl0 [i0 p0 ch0]]. reflexivity.
  - discriminate.
Qed.

Lemma VisitInline_layers (array : Array) :
  supported_array array = true ->
  forall lb, exists lb',
    VisitInline array lb = (OK, lb') /\
    offsets_ lb' = offsets_ lb ++ array_layers array /\
    nullable_ lb' = nullable_ lb /\
    def_levels_ lb' = def_levels_ lb /\
    rep_levels_ lb' = rep_levels_ lb.
Proof.
  induction array as [ty d vals voffs | ty d offs values IH | k ty d];
    intros Hs lb.
  - eexists. split; [reflexivity|]. cbn. rewrite app_nil_r. auto.
  - cbn [VisitInline array_layers]. simpl in Hs.
    edestruct (IH Hs) as [lb' [Hv [Ho [Hn [Hd Hr]]]]].
    exists lb'. split; [exact Hv|]. cbn in Ho, Hn, Hd, Hr.
    rewrite <- app_assoc in Ho. auto.
  - discriminate.
Qed.


Lemma zth_nil {A : Type} (i : Z) (d : A) : zth [] i d = d.
Proof. unfold zth. destruct (i <? 0); [reflexivity|]. now destruct (Z.to_nat i). Qed.

Lemma at_level_skipn {A : Type} (v : list A) (r : Z) (d : A) :
  0 <= r -> at_level v r d = hd d (skipn (Z.to_nat r) v).
Proof.
  intros Hr. unfold at_level, zth.
  destruct (r <? 0) eqn:E; [apply Z.ltb_lt in E; lia|].
  generalize (Z.to_nat r) as n. intros n. revert v.
  induction n as [|n IH]; intros [|a v]; simpl; auto.
Qed.

Lemma skipn_succ_tl {A : Type} (n : nat) (l : list A) :
  skipn (S n) l = tl (skipn n l).
Proof.
  revert l. induction n as [|n IH]; intros [|a l]; try reflexivity.
  change (skipn (S (S n)) (a :: l)) with (skipn (S n) l).
  change (skipn (S n) (a :: l)) with (skipn n l). apply IH.
Qed.

Lemma skipn_nonempty_length {A : Type} (n : nat) (l : list A) (a : A) (rest : list A) :
  skipn n l = a :: rest -> (n < List.length l)%nat.
Proof.
  intros H. destruct (Nat.lt_ge_cases n (List.length l)) as [Hlt | Hge]; [exact Hlt|].
  rewrite skipn_all2 in H by lia. discriminate.
Qed.

(** Offsets that do not decrease step by step do not decrease at all. *)
Lemma offsets_monotone (layer : list Z) (n : Z) :
  (forall j, 0 <= j < n ->
     0 <= zth layer j 0 <= zth layer (j + 1) 0 /\
     zth layer (j + 1) 0 <= INT32_MAX) ->
  forall a b, 0 <= a <= b -> b <= n -> zth layer a 0 <= zth layer b 0.
Proof.
  intros H a b Hab Hb.
  replace b with (a + Z.of_nat (Z.to_nat (b - a))) by lia.
  assert (Hk : Z.of_nat (Z.to_nat (b - a)) <= b - a) by lia.
  revert Hk. generalize (Z.to_nat (b - a)) as k.
  induction k as [|k IH]; intros Hk.
  - rewrite Z.add_0_r. lia.
  - specialize (IH ltac:(lia)).
    specialize (H (a + Z.of_nat k) ltac:(lia)).
    replace (a + Z.of_nat (S k)) with (a + Z.of_nat k + 1) by lia. lia.
Qed.

Lemma int32_small (x : Z) : 0 <= x <= INT32_MAX -> int32 x = x.
Proof.
  unfold INT32_MAX. intros H. unfold int32, wrap.
  change (2 ^ (32 - 1)) with 2147483648. change (2 ^ 32) with 4294967296.
  rewrite Z.mod_small; lia.
Qed.

Lemma leaf_def_levels_length (lb : LevelBuilder)
    (def_level recursion_level inner_offset inner_length : Z) :
  List.length (leaf_def_levels lb def_level recursion_level inner_offset
                 inner_length) = Z.to_nat inner_length.
Proof. unfold leaf_def_levels. now rewrite length_map, positions_length. Qed.

Lemma count_level_app (x : Z) (l1 l2 : list Z) :
  count_level x (l1 ++ l2) = count_level x l1 + count_level x l2.
Proof. unfold count_level. rewrite count_occ_app. lia. Qed.

Lemma count_level_absent (x : Z) (l : list Z) :
  Forall (fun y => x < y) l -> count_level x l = 0.
Proof.
  intros H. unfold count_level.
  rewrite (proj1 (count_occ_not_In Z.eq_dec l x)); [reflexivity|].
  intros Hin. rewrite Forall_forall in H. specialize (H x Hin). lia.
Qed.

Lemma levels_added_trans (lb1 lb2 lb3 : LevelBuilder) (d1 r1 d2 r2 : list Z) :
  levels_added lb1 lb2 d1 r1 -> levels_added lb2 lb3 d2 r2 ->
  levels_added lb1 lb3 (d1 ++ d2) (r1 ++ r2).
Proof.
  intros [Hd1 [Hr1 Ho1]] [Hd2 [Hr2 Ho2]]. unfold levels_added.
  rewrite Hd2, Hd1, Hr2, Hr1, Ho2, Ho1, !app_assoc. auto.
Qed.

Lemma levels_added_def (lb : LevelBuilder) (n v : Z) :
  levels_added lb (append_def lb n v) (repeat v (Z.to_nat n)) [].
Proof. unfold levels_added. cbn. now rewrite app_nil_r. Qed.

Lemma levels_added_rep (lb : LevelBuilder) (n v : Z) :
  levels_added lb (append_rep lb n v) [] (repeat v (Z.to_nat n)).
Proof. unfold levels_added. cbn. now rewrite app_nil_r. Qed.

(** The count of levels a walk over list entries appends.  Over [n >= 1]
    entries of the layer at [rep_level] the walk succeeds, appends one
    definition level more than repetition levels, and of the repetition
    levels it appends exactly [n - 1] are equal to [rep_level], all
    others being deeper. *)
Lemma HandleListEntries_counts (fuel : nat) :
  forall (def_level rep_level offset n m : Z) (lb : LevelBuilder)
         (s : Status) (lb' : LevelBuilder),
    0 <= rep_level <= Z.of_nat (List.length (offsets_ lb)) ->
    Z.of_nat (List.length (offsets_ lb)) <= 32767 ->
    layers_ok (skipn (Z.to_nat rep_level) (offsets_ lb)) m ->
    0 <= offset -> 1 <= n -> offset + n <= m ->
    HandleListEntries fuel def_level rep_level offset n lb = Some (s, lb') ->
    s = OK /\
    exists dext rext,
      levels_added lb lb' dext rext /\
      List.length dext = S (List.length rext) /\
      count_level rep_level rext = n - 1 /\
      Forall (fun x => rep_level <= x <= Z.of_nat (List.length (offsets_ lb)))
             rext.
Proof.
  induction fuel as [|fuel IH];
    intros def r o n m lb s lb' Hr Hdepth Hok Ho Hn Hm Hrun; [discriminate|].
  cbn [HandleListEntries] in Hrun.
  set (L := offsets_ lb) in *.
  set (len := Z.of_nat (List.length L)) in *.
  (* one list, not null *)
  assert (Hnonnull : forall def' j lb0 s0 lb2,
             offsets_ lb0 = L -> 0 <= j < m ->
             HandleNonNullList_body (HandleListEntries fuel) def' r j lb0
             = Some (s0, lb2) ->
             s0 = OK /\
             exists dext rext,
               levels_added lb0 lb2 dext rext /\
               List.length dext = S (List.length rext) /\
               Forall (fun x => r < x <= len) rext).
  { intros def' j lb0 s0 lb2 Hoff Hj Hcall.
    unfold HandleNonNullList_body in Hcall. cbv zeta in Hcall.
    rewrite Hoff in Hcall. rewrite (at_level_skipn L r []) in Hcall by lia.
    destruct (skipn (Z.to_nat r) L) as [|layer rest] eqn:Hskip.
    - (* no offsets at this depth: every list reads as empty *)
      cbn [hd] in Hcall. rewrite !zth_nil in Hcall.
      change (int32 (0 - 0) =? 0) with true in Hcall. cbv iota in Hcall.
      injection Hcall as <- <-. split; [reflexivity|].
      exists [def'], []. split; [apply (levels_added_def lb0 1 def')|].
      split; [reflexivity | constructor].
    - cbn [hd] in Hcall. destruct Hok as [Hlayer Hrest].
      pose proof (Hlayer j Hj) as [Hlo Hhi].
      pose proof (offsets_monotone layer m Hlayer (j + 1) m ltac:(lia) ltac:(lia))
        as Hmono.
      pose proof (skipn_nonempty_length _ _ _ _ Hskip) as Hlt.
      rewrite int32_small in Hcall by (unfold INT32_MAX in *; lia).
      destruct (zth layer (j + 1) 0 - zth layer j 0 =? 0) eqn:Ezero.
      + injection Hcall as <- <-. split; [reflexivity|].
        exists [def'], []. split; [apply (levels_added_def lb0 1 def')|].
        split; [reflexivity | constructor].
      + apply Z.eqb_neq in Ezero.
        destruct (r + 1 <? Z.of_nat (List.length L)) eqn:Edeep.
        * apply Z.ltb_lt in Edeep. fold len in Edeep.
          rewrite (int16_small (r + 1)) in Hcall by lia.
          destruct (IH (int16 (def' + 1)) (r + 1) (zth layer j 0)
                       (zth layer (j + 1) 0 - zth layer j 0)
                       (zth layer m 0) lb0 s0 lb2
                       ltac:(rewrite Hoff; fold len; lia)
                       ltac:(rewrite Hoff; exact Hdepth)
                       ltac:(rewrite Hoff;
                             replace (Z.to_nat (r + 1)) with (S (Z.to_nat r)) by lia;
                             rewrite skipn_succ_tl, Hskip; exact Hrest)
                       ltac:(lia) ltac:(lia) ltac:(lia) Hcall)
            as [-> [dext [rext [Hadd [Hlen [_ Hall]]]]]].
          split; [reflexivity|]. exists dext, rext.
          split; [exact Hadd|]. split; [exact Hlen|].
          rewrite Hoff in Hall. fold len in Hall.
          eapply Forall_impl; [|exact Hall]. cbv beta. intros x Hx. lia.
        * (* the leaf layer *)
          assert (H1 : (1 <=? zth layer (j + 1) 0 - zth layer j 0) = true)
            by (apply Z.leb_le; lia).
          rewrite H1 in Hcall.
          rewrite (int16_small (r + 1)) in Hcall by lia.
          set (il := zth layer (j + 1) 0 - zth layer j 0) in *.
          assert (Hrep : Forall (fun x => r < x <= len)
                           (repeat (r + 1) (Z.to_nat (il - 1)))).
          { apply Forall_forall. intros x Hx. apply repeat_spec in Hx.
            subst x. unfold len. lia. }
          destruct (negb _ && _) in Hcall; injection Hcall as <- <-;
            (split; [reflexivity|]).
          -- eexists. eexists.
             split; [eapply levels_added_trans;
                     [apply levels_added_rep | apply levels_added_def]|].
             cbn [app]. rewrite app_nil_r, !repeat_length.
             split; [lia | exact Hrep].
          -- eexists. eexists.
             split; [eapply levels_added_trans;
                     [apply levels_added_rep |]|].
             ++ unfold levels_added. cbn [def_levels_ rep_levels_ offsets_].
                split; [reflexivity|]. split; [|reflexivity].
                symmetry. apply app_nil_r.
             ++ cbn [app]. rewrite app_nil_r, leaf_def_levels_length,
                  repeat_length.
                split; [lia | exact Hrep]. }
  (* one list *)
  assert (Hlist : forall j lb0 s0 lb2,
             offsets_ lb0 = L -> 0 <= j < m ->
             HandleList_body (HandleListEntries fuel) def r j lb0
             = Some (s0, lb2) ->
             s0 = OK /\
             exists dext rext,
               levels_added lb0 lb2 dext rext /\
               List.length dext = S (List.length rext) /\
               Forall (fun x => r < x <= len) rext).
  { intros j lb0 s0 lb2 Hoff Hj Hcall. unfold HandleList_body in Hcall.
    destruct (at_level (nullable_ lb0) r false);
      [|now apply (Hnonnull def j lb0)].
    destruct (_ || _); [now apply (Hnonnull (int16 (def + 1)) j lb0)|].
    injection Hcall as <- <-. split; [reflexivity|].
    exists [def], []. split; [apply (levels_added_def lb0 1 def)|].
    split; [reflexivity | constructor]. }
  (* the entries after the first *)
  assert (Hloop : forall k i lb0 s0 lb2,
             offsets_ lb0 = L -> 1 <= i -> i + Z.of_nat k <= n ->
             entries_loop (HandleListEntries fuel) k i def r o lb0
             = Some (s0, lb2) ->
             s0 = OK /\
             exists dext rext,
               levels_added lb0 lb2 dext rext /\
               List.length dext = List.length rext /\
               count_level r rext = Z.of_nat k /\
               Forall (fun x => r <= x <= len) rext).
  { induction k as [|k IHk]; intros i lb0 s0 lb2 Hoff Hi Hik Hcall.
    - injection Hcall as <- <-. split; [reflexivity|].
      exists [], []. split; [unfold levels_added; now rewrite !app_nil_r|].
      split; [reflexivity|]. split; [reflexivity | constructor].
    - cbn [entries_loop] in Hcall.
      assert ((0 <? i) = true) as Hpos by (apply Z.ltb_lt; lia).
      rewrite Hpos in Hcall.
      destruct (HandleList_body (HandleListEntries fuel) def r (o + i)
                  (append_rep lb0 1 r)) as [[s1 lb1]|] eqn:Hone;
        [|discriminate].
      destruct (Hlist (o + i) (append_rep lb0 1 r) s1 lb1 Hoff ltac:(lia) Hone)
        as [-> [d1 [r1 [Hadd1 [Hlen1 Hall1]]]]].
      destruct (IHk (i + 1) lb1 s0 lb2
                  ltac:(destruct Hadd1 as [_ [_ ->]]; exact Hoff)
                  ltac:(lia) ltac:(lia) Hcall)
        as [-> [d2 [r2 [Hadd2 [Hlen2 [Hcount2 Hall2]]]]]].
      split; [reflexivity|].
      exists (d1 ++ d2), ([r] ++ r1 ++ r2).
      split.
      { pose proof (levels_added_trans _ _ _ _ _ _ _
                      (levels_added_rep lb0 1 r) Hadd1) as H01.
        pose proof (levels_added_trans _ _ _ _ _ _ _ H01 Hadd2) as H02.
        cbn [app repeat Z.to_nat Pos.to_nat Pos.iter_op Nat.add] in H02.
        rewrite <- app_assoc in H02. exact H02. }
      split; [rewrite !length_app; cbn [List.length]; lia|].
      split.
      { rewrite !count_level_app. rewrite (count_level_absent r r1).
        - rewrite Hcount2. unfold count_level. cbn [count_occ].
          destruct (Z.eq_dec r r); [cbn [count_occ]; lia | congruence].
        - eapply Forall_impl; [|exact Hall1]. cbv beta. intros x Hx. lia. }
      apply Forall_app. split; [constructor; [lia | constructor]|].
      apply Forall_app. split; [|exact Hall2].
      eapply Forall_impl; [|exact Hall1]. cbv beta. intros x Hx. lia. }
  (* the first entry, then the others *)
  destruct (Z.to_nat n) as [|k] eqn:Hk; [lia|].
  cbn [entries_loop] in Hrun. change (0 <? 0) with false in Hrun.
  cbv iota in Hrun. rewrite Z.add_0_r in Hrun.
  destruct (HandleList_body (HandleListEntries fuel) def r o lb)
    as [[s1 lb1]|] eqn:Hone; [|discriminate].
  destruct (Hlist o lb s1 lb1 eq_refl ltac:(lia) Hone)
    as [-> [d1 [r1 [Hadd1 [Hlen1 Hall1]]]]].
  destruct (Hloop k 1 lb1 s lb'
              ltac:(destruct Hadd1 as [_ [_ ->]]; reflexivity)
              ltac:(lia) ltac:(lia) Hrun)
    as [-> [d2 [r2 [Hadd2 [Hlen2 [Hcount2 Hall2]]]]]].
  split; [reflexivity|].
  exists (d1 ++ d2), (r1 ++ r2).
  split; [exact (levels_added_trans _ _ _ _ _ _ _ Hadd1 Hadd2)|].
  split; [rewrite !length_app; lia|].
  split.
  - rewrite count_level_app, (count_level_absent r r1), Hcount2; [lia|].
    eapply Forall_impl; [|exact Hall1]. cbv beta. intros x Hx. lia.
  - apply Forall_app. split; [|exact Hall2].
    eapply Forall_impl; [|exact Hall1]. cbv beta. intros x Hx. lia.
Qed.

Lemma array_layers_length (array : Array) :
  List.length (array_layers array) = list_depth array.
Proof. induction array; simpl; auto. Qed.

Lemma nested_path_longer (field : Field) :
  children (type field) <> [] ->
  has_multi_child_type field = false ->
  tl (path_nullable field) <> [].
Proof.
  destruct field as [name nl [i p ch]]. simpl.
  destruct ch as [|[n0 nl0 [i0 p0 ch0]] [|child1 rest]]; intros Hc Hm;
    [congruence | discriminate | discriminate].
Qed.

(** The builder as [GenerateLevels] has it when the levels of a nested
    column are about to be generated. *)
Lemma GenerateLevels_nested (array : Array) (field : Field) :
  supported_array array = true ->
  has_multi_child_type field = false ->
  children (type field) <> [] ->
  exists lb3,
    offsets_ lb3 = array_layers array /\
    def_levels_ lb3 = [] /\ rep_levels_ lb3 = [0] /\
    nullable_ lb3 = path_nullable field /\
    GenerateLevels array field
    = match HandleListEntries (S (List.length (offsets_ lb3))) 0 0 0
              (length array) lb3 with
      | None => None
      | Some (OK, lb4) =>
          match VisitInline array
                  (set_offset_idx new_LevelBuilder 0 (length array)) with
          | (_, lb1) =>
              Some (Success
                      (mkLevels (min_offset_idx_ lb1)
                         (max_offset_idx_ lb1 - min_offset_idx_ lb1)
                         (Z.of_nat (List.length (rep_levels_ lb4)))
                         (Some (def_levels_ lb4)) (Some (rep_levels_ lb4))
                         (values_array_ lb4)))
          end
      | Some (err, _) => Some (Failure err)
      end.
Proof.
  intros Hs Hm Hc. unfold GenerateLevels.
  destruct (VisitInline_layers array Hs
              (set_offset_idx new_LevelBuilder 0 (length array)))
    as [lb1 [-> [Ho [Hn [Hd Hr]]]]].
  rewrite (walk_nullable_path field _ Hm).
  cbn [push_nullable nullable_ def_levels_ rep_levels_ offsets_
       null_counts_ valid_bitmaps_ array_offsets_ min_offset_idx_
       max_offset_idx_ values_array_].
  cbn in Ho, Hn, Hd, Hr. rewrite Hn. cbn [app].
  pose proof (nested_path_longer field Hc Hm) as Hlong.
  destruct (tl (path_nullable field)) as [|b bs] eqn:Hpath; [congruence|].
  cbn [List.length Nat.eqb app].
  eexists. split; [|split; [|split; [|split; [|reflexivity]]]].
  - cbn. exact Ho.
  - cbn. exact Hd.
  - cbn. now rewrite Hr.
  - cbn. rewrite <- Hpath. now destruct field as [name nl [i p ch]].
Qed.

(** X1.  For a nested column (list layers over a flat leaf, a field with
    one child per level) with at least one record and well-formed
    offsets, the level builder returns as many definition levels as
    repetition levels, [num_levels] is that number, the repetition levels
    start with 0, hold exactly one 0 per top-level record, and never
    exceed the number of list layers. *)
Theorem nested_levels_counts :
  forall (array : Array) (field : Field),
    supported_array array = true ->
    has_multi_child_type field = false ->
    children (type field) <> [] ->
    Z.of_nat (list_depth array) <= 32767 ->
    1 <= length array ->
    layers_ok (array_layers array) (length array) ->
    exists levels def rep,
      GenerateLevels array field = Some (Success levels) /\
      def_levels_out levels = Some def /\
      rep_levels_out levels = Some (0 :: rep) /\
      num_levels levels = Z.of_nat (List.length (0 :: rep)) /\
      List.length def = List.length (0 :: rep) /\
      count_level 0 (0 :: rep) = length array /\
      Forall (fun x => 0 <= x <= Z.of_nat (list_depth array)) rep.
Proof.
  intros array field Hs Hm Hc Hdepth Hlen Hok.
  destruct (GenerateLevels_nested array field Hs Hm Hc)
    as [lb3 [Ho [Hd [Hr [_ ->]]]]].
  assert (Hdepth3 : Z.of_nat (List.length (offsets_ lb3)) <= 32767)
    by (rewrite Ho, array_layers_length; exact Hdepth).
  destruct (HandleListEntries_returns (S (List.length (offsets_ lb3))) 0 0 0
              (length array) lb3 ltac:(lia) Hdepth3 ltac:(lia) ltac:(lia))
    as [s [lb4 [Hrun _]]].
  rewrite Hrun.
  destruct (HandleListEntries_counts _ 0 0 0 (length array) (length array)
              lb3 s lb4 ltac:(lia) Hdepth3
              ltac:(rewrite Ho; exact Hok) ltac:(lia) Hlen ltac:(lia) Hrun)
    as [-> [dext [rext [[Hdef [Hrep _]] [Hcount [Hzero Hall]]]]]].
  rewrite Hd in Hdef. rewrite Hr in Hrep. cbn [app] in Hdef, Hrep.
  destruct (VisitInline array _) as [s1 lb1].
  eexists. exists dext, rext.
  split; [reflexivity|]. cbn [def_levels_out rep_levels_out num_levels].
  rewrite Hdef, Hrep.
  split; [reflexivity|]. split; [reflexivity|]. split; [reflexivity|].
  split; [cbn [List.length]; lia|].
  split.
  - change (0 :: rext) with ([0] ++ rext). rewrite count_level_app, Hzero.
    replace (count_level 0 [0]) with 1 by reflexivity. lia.
  - rewrite Ho, array_layers_length in Hall. exact Hall.
Qed.

(** The list array [[1,2], null, [], [3]]. *)
Lemma nested_levels_counts_witness :
  exists levels def rep,
    GenerateLevels Examples.list_with_nulls Examples.list_field
    = Some (Success levels) /\
    def_levels_out levels = Some def /\
    rep_levels_out levels = Some (0 :: rep) /\
    num_levels levels = Z.of_nat (List.length (0 :: rep)) /\
    List.length def = List.length (0 :: rep) /\
    count_level 0 (0 :: rep) = length Examples.list_with_nulls /\
    Forall (fun x => 0 <= x <= Z.of_nat (list_depth Examples.list_with_nulls))
           rep.
Proof.
  apply (nested_levels_counts Examples.list_with_nulls Examples.list_field).
  - reflexivity.
  - reflexivity.
  - discriminate.
  - vm_compute. discriminate.
  - vm_compute. discriminate.
  - split; [|exact I].
    intros j Hj. change (length Examples.list_with_nulls) with 4 in Hj.
    assert (j = 0 \/ j = 1 \/ j = 2 \/ j = 3) as [-> | [-> | [-> | ->]]] by lia;
      vm_compute; repeat split; discriminate.
Defined.



(** ** Flat columns end to end *)

Lemma repeat_map_positions {A : Type} (x : A) (n : Z) :
  repeat x (Z.to_nat n) = map (fun _ => x) (positions n).
Proof.
  unfold positions. rewrite map_map. generalize 0%nat as start.
  induction (Z.to_nat n) as [|k IH]; intros start; [reflexivity|].
  cbn [repeat seq map]. f_equal. apply IH.
Qed.

Lemma read_valid_bits_map (n : nat) :
  forall r : BitmapReader,
    read_valid_bits n r
    = map (fun i => if GetBit (bitmap_bytes (reader_bitmap r))
                              (reader_position r + i) then 1 else 0)
          (positions (Z.of_nat n)).
Proof.
  induction n as [|n IH]; intros r; [reflexivity|].
  rewrite positions_succ. cbn [read_valid_bits map]. f_equal.
  - unfold IsSet. now rewrite Z.add_0_r.
  - rewrite IH, map_map. apply map_ext. intros i. cbn.
    now replace (reader_position r + 1 + i) with (reader_position r + (i + 1))
      by lia.
Qed.

(** The levels of a flat array under a field without children. *)
Lemma GenerateLevels_flat (A : Array) (field : Field) :
  is_flat A = true ->
  children (type field) = [] ->
  GenerateLevels A field
  = Some (Success
            (mkLevels 0 (length A) (length A)
               (if nullable field
                then Some (if null_count A =? 0
                           then repeat 1 (Z.to_nat (length A))
                           else if null_count A =? length A
                           then repeat 0 (Z.to_nat (length A))
                           else read_valid_bits (Z.to_nat (length A))
                                  (mkBitmapReader (null_bitmap_data A)
                                     (offset A)))
                else None)
               None (Some A))).
Proof.
  intros Hflat Hleaf.
  destruct A as [ty d vals voffs| |]; try discriminate.
  destruct field as [name nl [fid fparams ch]]. simpl in Hleaf. subst ch.
  unfold GenerateLevels. cbn [VisitInline walk_nullable nullable].
  cbn [push_nullable nullable_ app List.length Nat.eqb at_level zth Z.ltb
       Z.compare Z.to_nat nth set_offset_idx new_LevelBuilder
       min_offset_idx_ max_offset_idx_ values_array_].
  rewrite Z.sub_0_r. reflexivity.
Qed.

(** For a well-formed array the three ways of filling the definition
    levels agree with the validity of the slots. *)
Lemma flat_levels_validity (A : Array) :
  array_wf A ->
  (if null_count A =? 0 then repeat 1 (Z.to_nat (length A))
   else if null_count A =? length A then repeat 0 (Z.to_nat (length A))
   else read_valid_bits (Z.to_nat (length A))
          (mkBitmapReader (null_bitmap_data A) (offset A)))
  = validity_levels A.
Proof.
  intros Hwf. unfold validity_levels.
  destruct (null_count A =? 0) eqn:E0; [|destruct (null_count A =? length A) eqn:E1].
  - apply Z.eqb_eq in E0. rewrite repeat_map_positions. apply map_ext_in.
    intros i Hi. apply in_positions in Hi. unfold IsValid.
    now rewrite (no_nulls_valid A Hwf E0 i Hi).
  - apply Z.eqb_eq in E1. rewrite repeat_map_positions. apply map_ext_in.
    intros i Hi. apply in_positions in Hi. unfold IsValid.
    now rewrite (all_nulls_invalid A Hwf E1 i Hi).
  - apply Z.eqb_neq in E0. rewrite read_valid_bits_map.
    rewrite Z2Nat.id by apply Hwf. apply map_ext. intros i. cbn.
    destruct (null_bitmap_data A) as [bits|] eqn:Hb.
    + unfold IsValid, IsNull. rewrite Hb, negb_involutive. cbn.
      now replace (offset A + i) with (i + offset A) by lia.
    + exfalso. apply E0. destruct Hwf as [_ Hc]. rewrite Hc.
      now apply no_bitmap_no_nulls.
Qed.

(** Slicing a whole array changes neither its slots nor their validity. *)
Lemma Slice_whole (A : Array) :
  0 <= length A ->
  length (Slice A 0 (length A)) = length A /\
  offset (Slice A 0 (length A)) = offset A /\
  null_bitmap_data (Slice A 0 (length A)) = null_bitmap_data A /\
  values_buffer (Slice A 0 (length A)) = values_buffer A /\
  array_type (Slice A 0 (length A)) = array_type A /\
  (forall i, IsNull (Slice A 0 (length A)) i = IsNull A i).
Proof.
  intros Hlen.
  assert (Hmin : Z.min (length A - 0) (length A) = length A) by lia.
  destruct A as [ty d vals voffs | ty d offs values | k ty d];
    unfold IsNull, length, offset, null_bitmap_data in *;
    cbn [Slice array_data slice_data data_length data_offset data_null_bitmap
         values_buffer array_type] in *.
  - destruct (TypeId_eqb (id ty) NA); unfold slice_data;
      cbn [data_length data_offset data_null_bitmap Z.add]; rewrite Hmin;
      repeat split; reflexivity.
  - unfold slice_data.
    cbn [data_length data_offset data_null_bitmap Z.add]. rewrite Hmin.
    repeat split; reflexivity.
  - unfold slice_data.
    cbn [data_length data_offset data_null_bitmap Z.add]. rewrite Hmin.
    repeat split; reflexivity.
Qed.

Lemma Slice_whole_present (A : Array) :
  0 <= length A ->
  present_positions (Slice A 0 (length A)) = present_positions A.
Proof.
  intros Hlen. destruct (Slice_whole A Hlen) as [Hl [_ [_ [_ [_ Hn]]]]].
  unfold present_positions. rewrite Hl. apply filter_ext. intros i.
  now rewrite Hn.
Qed.

Lemma Slice_whole_null_count (A : Array) :
  array_wf A ->
  (TypeId_eqb (id (array_type A)) NA = false) ->
  null_count (Slice A 0 (length A)) = null_count A.
Proof.
  intros [Hlen Hc] Hna.
  destruct (Slice_whole A Hlen) as [Hl [_ [_ [_ [_ Hn]]]]].
  assert (Hstored : data_null_count (array_data (Slice A 0 (length A))) = -1).
  { destruct A as [ty d vals voffs | ty d offs values | k ty d];
      cbn [Slice array_data slice_data data_null_count array_type] in *;
      try reflexivity.
    rewrite Hna. reflexivity. }
  unfold null_count at 1. rewrite Hstored. cbn [Z.ltb Z.compare].
  rewrite Hc. unfold count_nulls. rewrite Hl. f_equal. f_equal.
  apply filter_ext. exact Hn.
Qed.

Lemma validity_levels_ones (A : Array) :
  count_level 1 (validity_levels A)
  = Z.of_nat (List.length (present_positions A)).
Proof.
  unfold validity_levels, present_positions, count_level, IsValid.
  induction (positions (length A)) as [|i l IH]; [reflexivity|].
  cbn [map filter count_occ]. destruct (negb (IsNull A i)).
  - destruct (Z.eq_dec 1 1); [|congruence]. cbn [List.length]. lia.
  - destruct (Z.eq_dec 0 1); [discriminate|]. exact IH.
Qed.

Lemma GetLeafType_flat_id (ty : DataType) :
  TypeId_eqb (id ty) LIST || TypeId_eqb (id ty) STRUCT = false ->
  GetLeafType ty = Success (id ty).
Proof. destruct ty as [i p ch]. cbn. now intros ->. Qed.

(** Writing a flat array reduces to writing its leaf. *)
Lemma Write_flat (properties : ArrowWriterProperties) (writer_ : ColumnWriter)
    (field : Field) (A : Array) :
  is_flat A = true ->
  length A <> 0 ->
  children (type field) = [] ->
  TypeId_eqb (id (array_type A)) LIST || TypeId_eqb (id (array_type A)) STRUCT
    = false ->
  Write properties writer_ field A
  = write_leaf properties writer_ (id (array_type A))
      (Slice A 0 (length A)) (length A)
      (if nullable field
       then Some (if null_count A =? 0
                  then repeat 1 (Z.to_nat (length A))
                  else if null_count A =? length A
                  then repeat 0 (Z.to_nat (length A))
                  else read_valid_bits (Z.to_nat (length A))
                         (mkBitmapReader (null_bitmap_data A) (offset A)))
       else None)
      None.
Proof.
  intros Hflat Hlen Hleaf Hid. unfold Write.
  apply Z.eqb_neq in Hlen. rewrite Hlen.
  rewrite (GetLeafType_flat_id _ Hid), (GenerateLevels_flat A field Hflat Hleaf).
  reflexivity.
Qed.



(** X4.  A flat boolean column under a nullable field is written with one
    dense call whose value buffer holds the bits of the valid slots only,
    in order: as many values as there are definition levels equal to 1,
    which is the length less the null count. *)
Theorem boolean_write_packs_present :
  forall (properties : ArrowWriterProperties) (writer_ : ColumnWriter)
         (field : Field) (A : Array),
    is_flat A = true ->
    array_wf A ->
    1 <= length A <= INT32_MAX ->
    id (array_type A) = BOOL ->
    children (type field) = [] ->
    nullable field = true ->
    exists bits call,
      Write properties writer_ field A
      = Some (PARQUET_CATCH_NOT_OK (throws writer_ call), [call]) /\
      call = CallWriteBatch BooleanType (length A) (Some (validity_levels A))
               None (Booleans bits) /\
      bits = map (fun i => GetBit (bitmap_bytes (values_buffer A))
                             (offset A + i))
                 (present_positions A) /\
      Z.of_nat (List.length bits) = count_level 1 (validity_levels A) /\
      Z.of_nat (List.length bits) = length A - null_count A.
Proof.
  intros p w field A Hflat Hwf Hlen Hbool Hleaf Hnull.
  assert (Hid : TypeId_eqb (id (array_type A)) LIST
                || TypeId_eqb (id (array_type A)) STRUCT = false)
    by (rewrite Hbool; reflexivity).
  rewrite (Write_flat p w field A Hflat ltac:(lia) Hleaf Hid).
  rewrite (flat_levels_validity A Hwf), Hnull, Hbool.
  destruct (Slice_whole A ltac:(lia)) as [Hl [Ho [Hb [Hv [Ht _]]]]].
  cbn [write_leaf]. unfold TypedWriteBatch_Boolean, WriteBatch.
  rewrite Hv, Ho, (Slice_whole_present A ltac:(lia)).
  eexists. eexists. split; [reflexivity|]. split; [reflexivity|].
  split; [reflexivity|].
  rewrite length_map, validity_levels_ones. split; [reflexivity|].
  destruct Hwf as [_ Hc]. rewrite Hc. unfold present_positions, count_nulls.
  pose proof (filter_length (IsNull A) (positions (length A))) as H.
  rewrite positions_length in H. lia.
Qed.

(** The boolean array [true, null]. *)
Lemma boolean_write_packs_present_witness :
  exists bits call,
    Write Builder ModeExamples.optional_writer
      (mkField "column" true ModeExamples.bool_type) ModeExamples.bool_with_null
    = Some (PARQUET_CATCH_NOT_OK (throws ModeExamples.optional_writer call),
            [call]) /\
    call = CallWriteBatch BooleanType (length ModeExamples.bool_with_null)
             (Some (validity_levels ModeExamples.bool_with_null))
             None (Booleans bits) /\
    bits = map (fun i => GetBit (bitmap_bytes
                                   (values_buffer ModeExamples.bool_with_null))
                           (offset ModeExamples.bool_with_null + i))
               (present_positions ModeExamples.bool_with_null) /\
    Z.of_nat (List.length bits)
    = count_level 1 (validity_levels ModeExamples.bool_with_null) /\
    Z.of_nat (List.length bits)
    = length ModeExamples.bool_with_null
      - null_count ModeExamples.bool_with_null.
Proof.
  apply (boolean_write_packs_present Builder ModeExamples.optional_writer
           (mkField "column" true ModeExamples.bool_type)
           ModeExamples.bool_with_null).
  - reflexivity.
  - split; [vm_compute; discriminate | reflexivity].
  - vm_compute. split; discriminate.
  - reflexivity.
  - reflexivity.
  - reflexivity.
Defined.

(** ** Writing one array: refusals and what reaches the writer *)

(** X5.  [GetLeafType] follows the single-child path of the type: it
    succeeds with the id of the first type on that path that is neither
    LIST nor STRUCT, so it never reports LIST or STRUCT as the leaf; it
    fails only with Invalid, at the first LIST or STRUCT type on that
    path whose number of children is not one (none at all included), and
    names that type. *)
Theorem GetLeafType_leaf :
  forall ty : DataType,
    match GetLeafType ty with
    | Success i =>
        exists inner,
          on_single_child_path ty inner /\
          id inner = i /\ i <> LIST /\ i <> STRUCT
    | Failure s =>
        exists inner,
          on_single_child_path ty inner /\
          s = Invalid [Str "Nested column branch had multiple children: ";
                       TypeString inner] /\
          (id inner = LIST \/ id inner = STRUCT) /\
          List.length (children inner) <> 1%nat
    end.
Proof.
  fix IH 1. intros [i p ch].
  cbn [GetLeafType].
  destruct (TypeId_eqb i LIST || TypeId_eqb i STRUCT) eqn:E.
  - assert (Hi : i = LIST \/ i = STRUCT)
      by (destruct i; try discriminate; auto).
    destruct ch as [|[n nl t] [|c2 rest]].
    + eexists. split; [apply path_end|]. split; [reflexivity|].
      split; [exact Hi | discriminate].
    + specialize (IH t).
      destruct (GetLeafType t) as [leaf | s].
      * destruct IH as [inner [Hp Hrest]]. exists inner.
        split; [|exact Hrest]. apply path_child; [exact Hi | exact Hp].
      * destruct IH as [inner [Hp Hrest]]. exists inner.
        split; [|exact Hrest]. apply path_child; [exact Hi | exact Hp].
    + eexists. split; [apply path_end|]. split; [reflexivity|].
      split; [exact Hi | discriminate].
  - eexists. split; [apply path_end|]. split; [reflexivity|].
    split; intros ->; discriminate.
Qed.

(** A list of int32 has the leaf INT32; a list of a struct of two fields
    is refused and the struct is named. *)
Example GetLeafType_paths :
  GetLeafType Examples.list_type = Success INT32 /\
  GetLeafType (mkDataType LIST NoParams
                 [mkField "item" true ChunkExamples.pair_type])
  = Failure (Invalid [Str "Nested column branch had multiple children: ";
                      TypeString ChunkExamples.pair_type]).
Proof. split; reflexivity. Qed.

Lemma GetLeafType_failure_not_ok :
  forall (ty : DataType) (s : Status),
    GetLeafType ty = Failure s -> ok s = false.
Proof.
  fix IH 1. intros [i p ch] s. cbn [GetLeafType].
  destruct (TypeId_eqb i LIST || TypeId_eqb i STRUCT); [|discriminate].
  destruct ch as [|[n nl t] [|c2 rest]]; intros H.
  - injection H as <-. reflexivity.
  - exact (IH t s H).
  - injection H as <-. reflexivity.
Qed.





Lemma WriteBatch_passes_levels (writer_ : ColumnWriter) (pt : ParquetType)
    (num_levels : Z) (def_levels rep_levels : option (list Z))
    (values : Values) :
  passes_levels writer_ num_levels def_levels rep_levels
    (WriteBatch writer_ pt num_levels def_levels rep_levels values).
Proof. right. eexists. split; reflexivity. Qed.

Lemma TypedWriteBatch_passes_levels (writer_ : ColumnWriter) (pt : ParquetType)
    (at_ : ArrowType) (array : Array) (num_levels : Z)
    (def_levels rep_levels : option (list Z)) :
  passes_levels writer_ num_levels def_levels rep_levels
    (TypedWriteBatch writer_ pt at_ array num_levels def_levels rep_levels).
Proof.
  right. unfold TypedWriteBatch.
  destruct (is_required writer_ || (null_count array =? 0));
    eexists; split; reflexivity.
Qed.

Lemma WriteTimestamps_passes_levels (writer_ : ColumnWriter)
    (properties : ArrowWriterProperties) (array : Array) (num_levels : Z)
    (def_levels rep_levels : option (list Z)) :
  passes_levels writer_ num_levels def_levels rep_levels
    (WriteTimestamps writer_ properties array num_levels def_levels rep_levels).
Proof.
  assert (Hcoerce : forall q,
    passes_levels writer_ num_levels def_levels rep_levels
      (WriteTimestampsCoerce writer_ array num_levels def_levels rep_levels q)).
  { intros q. unfold WriteTimestampsCoerce.
    destruct (match fst _ with COERCE_DIVIDE => _ | _ => _ end) as [[] buffer];
      try (left; split; reflexivity).
    right. destruct (is_required writer_ || (null_count array =? 0));
      eexists; split; reflexivity. }
  unfold WriteTimestamps.
  repeat match goal with
         | |- context [if ?c then _ else _] => destruct c
         end;
    first [ apply TypedWriteBatch_passes_levels | apply Hcoerce ].
Qed.

Lemma write_leaf_passes_levels (properties : ArrowWriterProperties)
    (writer_ : ColumnWriter) (values_type : TypeId) (array : Array)
    (num_levels : Z) (def_levels rep_levels : option (list Z))
    (written : Written) :
  write_leaf properties writer_ values_type array num_levels def_levels
    rep_levels = Some written ->
  passes_levels writer_ num_levels def_levels rep_levels written.
Proof.
  intros H.
  destruct values_type; cbn [write_leaf] in H;
    try match type of H with context [version writer_] =>
          destruct (version writer_) end;
    try (injection H as <-;
         first [ apply TypedWriteBatch_passes_levels
               | apply WriteTimestamps_passes_levels
               | apply WriteBatch_passes_levels
               | left; split; reflexivity ]).
  (* DECIMAL *)
  unfold TypedWriteBatch_Decimal in H.
  destruct (_ <=? _) in H; [|discriminate].
  injection H as <-. apply WriteBatch_passes_levels.
Qed.

(** X8.  A write of one array makes at most one call on the column
    writer.  It makes none when the array is empty (and returns OK) or
    when it returns an error of its own; the call it makes carries
    exactly the number of levels and the level buffers that
    [GenerateLevels] produced for the array, whatever the leaf type. *)
Theorem Write_passes_levels :
  forall (properties : ArrowWriterProperties) (writer_ : ColumnWriter)
         (field_ : Field) (data : Array) (written : Written),
    Write properties writer_ field_ data = Some written ->
    (length data = 0 /\ written = (OK, [])) \/
    (length data <> 0 /\ snd written = [] /\ ok (fst written) = false) \/
    (length data <> 0 /\
     exists levels call,
       GenerateLevels data field_ = Some (Success levels) /\
       written = (PARQUET_CATCH_NOT_OK (throws writer_ call), [call]) /\
       call_levels call
       = (num_levels levels, def_levels_out levels, rep_levels_out levels)).
Proof.
  intros p w f data written H. unfold Write in H.
  destruct (length data =? 0) eqn:Elen.
  - left. apply Z.eqb_eq in Elen. injection H as <-. auto.
  - right. apply Z.eqb_neq in Elen.
    destruct (GetLeafType (array_type data)) as [vt | err] eqn:Eleaf.
    + destruct (GenerateLevels data f) as [[levels | err]|] eqn:Egen;
        [| |discriminate].
      * destruct (values_array levels) as [va|]; [|discriminate].
        apply write_leaf_passes_levels in H.
        destruct H as [[Hs Hok] | [call [-> Hc]]].
        -- left. auto.
        -- right. split; [exact Elen|]. exists levels, call. auto.
      * injection H as <-. left. split; [exact Elen|]. split; [reflexivity|].
        cbn [fst]. unfold GenerateLevels in Egen.
        destruct (VisitInline data _) as [s1 lb1].
        destruct s1;
          try (injection Egen as <-; reflexivity).
        destruct (walk_nullable f _) as [s2 lb2].
        destruct s2;
          try (injection Egen as <-; reflexivity).
        destruct (Nat.eqb _ 1); [discriminate|].
        destruct (HandleListEntries _ _ _ _ _ _) as [[s3 lb3]|];
          [|discriminate].
        destruct s3; try (injection Egen as <-; reflexivity). discriminate.
    + injection H as <-. left. split; [exact Elen|]. split; [reflexivity|].
      cbn [fst]. exact (GetLeafType_failure_not_ok _ _ Eleaf).
Qed.

(** The list [[1,2], null, [], [3]] written for a required leaf. *)
Lemma Write_passes_levels_witness :
  (length Examples.list_with_nulls = 0 /\
   (OK, [CallWriteBatch Int32Type 5 (Some [2; 2; 0; 1; 2])
           (Some [0; 1; 0; 0; 0]) (Numbers [1; 2; 3])]) = (OK, [])) \/
  (length Examples.list_with_nulls <> 0 /\
   snd (OK, [CallWriteBatch Int32Type 5 (Some [2; 2; 0; 1; 2])
               (Some [0; 1; 0; 0; 0]) (Numbers [1; 2; 3])]) = [] /\
   ok (fst (OK, [CallWriteBatch Int32Type 5 (Some [2; 2; 0; 1; 2])
                   (Some [0; 1; 0; 0; 0]) (Numbers [1; 2; 3])])) = false) \/
  (length Examples.list_with_nulls <> 0 /\
   exists levels call,
     GenerateLevels Examples.list_with_nulls Examples.list_field
     = Some (Success levels) /\
     (OK, [CallWriteBatch Int32Type 5 (Some [2; 2; 0; 1; 2])
             (Some [0; 1; 0; 0; 0]) (Numbers [1; 2; 3])])
     = (PARQUET_CATCH_NOT_OK
          (throws (Examples.quiet_writer true PARQUET_1_0) call), [call]) /\
     call_levels call
     = (num_levels levels, def_levels_out levels, rep_levels_out levels)).
Proof.
  apply (Write_passes_levels Builder (Examples.quiet_writer true PARQUET_1_0)
           Examples.list_field Examples.list_with_nulls).
  reflexivity.
Defined.

(** ** Chunked writes, row by row *)

(** Where the first loop of the chunked write stops for an offset inside
    the column: at the chunk that holds the row, or at the start of the
    next chunk when the row is the first of it. *)
Lemma advance_inside (rest : list Array) :
  forall chunk_index absolute_position offset,
    Forall (fun chunk => 0 <= length chunk) rest ->
    absolute_position <= offset < absolute_position + chunked_length rest ->
    exists k chunk,
      fst (fst (advance rest chunk_index absolute_position offset))
      = chunk_index + Z.of_nat k /\
      nth_error rest k = Some chunk /\
      snd (fst (advance rest chunk_index absolute_position offset))
      = absolute_position + chunked_length (firstn k rest) /\
      snd (fst (advance rest chunk_index absolute_position offset))
      + snd (advance rest chunk_index absolute_position offset) = offset /\
      0 <= snd (advance rest chunk_index absolute_position offset) /\
      (snd (advance rest chunk_index absolute_position offset) = 0 \/
       snd (advance rest chunk_index absolute_position offset) < length chunk).
Proof.
  induction rest as [|chunk rest IH]; intros idx pos off Hwf Hoff.
  - cbn in Hoff. lia.
  - inversion Hwf as [|? ? Hc Hrest]; subst.
    change (chunked_length (chunk :: rest))
      with (length chunk + chunked_length rest) in Hoff.
    cbn [advance].
    destruct (pos <? off) eqn:E1.
    + apply Z.ltb_lt in E1.
      destruct (off <? pos + length chunk) eqn:E2.
      * apply Z.ltb_lt in E2. exists 0%nat, chunk. cbn. repeat split; lia.
      * apply Z.ltb_ge in E2.
        destruct (IH (idx + 1) (pos + length chunk) off Hrest ltac:(lia))
          as [k [c [Hi [Hn [Ha [Hs [Hco Hlt]]]]]]].
        exists (S k), c. rewrite Hi, Ha. cbn [nth_error firstn].
        change (chunked_length (chunk :: firstn k rest))
          with (length chunk + chunked_length (firstn k rest)).
        repeat split; try lia; assumption.
    + apply Z.ltb_ge in E1. exists 0%nat, chunk. cbn. repeat split; lia.
Qed.

(** X9.  For a requested offset inside a chunked array (whose chunks may
    be empty), the first loop of the chunked write finds the position of
    the row: a chunk index within the array, the number of rows before
    that chunk, and an offset into the chunk that is inside it, or 0 at
    the start of a chunk. *)
Theorem advance_locates_row :
  forall (data : list Array) (offset : Z),
    Forall (fun chunk => 0 <= length chunk) data ->
    0 <= offset < chunked_length data ->
    exists k chunk chunk_offset,
      advance data 0 0 offset
      = (Z.of_nat k, chunked_length (firstn k data), chunk_offset) /\
      nth_error data k = Some chunk /\
      chunked_length (firstn k data) + chunk_offset = offset /\
      (chunk_offset = 0 \/ 0 < chunk_offset < length chunk).
Proof.
  intros data off Hwf Hoff.
  destruct (advance_inside data 0 0 off Hwf ltac:(lia))
    as [k [c [Hi [Hn [Ha [Hs [Hco Hlt]]]]]]].
  destruct (advance data 0 0 off) as [[ci pos] co]. cbn [fst snd] in *.
  exists k, c, co. subst ci pos. cbn [Z.add].
  split; [reflexivity|]. split; [exact Hn|]. split; [exact Hs|]. lia.
Qed.

(** Row 3 of the column [10, 11], [], [12, 13, 14]. *)
Lemma advance_locates_row_witness :
  exists k chunk chunk_offset,
    advance RowExamples.column 0 0 3
    = (Z.of_nat k, chunked_length (firstn k RowExamples.column), chunk_offset) /\
    nth_error RowExamples.column k = Some chunk /\
    chunked_length (firstn k RowExamples.column) + chunk_offset = 3 /\
    (chunk_offset = 0 \/ 0 < chunk_offset < length chunk).
Proof.
  apply (advance_locates_row RowExamples.column 3).
  - repeat constructor; vm_compute; discriminate.
  - vm_compute. split; [discriminate | reflexivity].
Defined.

Lemma map_nth_seq {A : Type} (d : A) (k : nat) :
  forall l : list A, (k <= List.length l)%nat ->
    map (fun i => nth i l d) (seq 0 k) = firstn k l.
Proof.
  induction k as [|k IH]; intros l Hk; [reflexivity|].
  destruct l as [|a l]; [cbn in Hk; lia|].
  cbn [seq map firstn nth]. f_equal.
  rewrite <- seq_shift, map_map. cbn [nth]. apply IH. cbn in Hk. lia.
Qed.

Lemma read_values_firstn (l : list Z) (n : Z) :
  (Z.to_nat n <= List.length l)%nat ->
  read_values (Some l) n = firstn (Z.to_nat n) l.
Proof.
  intros H. unfold read_values, positions. cbn [bitmap_bytes].
  rewrite map_map. rewrite <- (map_nth_seq 0 _ l H).
  apply map_ext. intros i. unfold zth.
  destruct (Z.of_nat i <? 0) eqn:E; [apply Z.ltb_lt in E; lia|].
  now rewrite Nat2Z.id.
Qed.

Lemma null_count_no_bitmap (A : Array) :
  null_bitmap_data A = None ->
  data_null_count (array_data A) <= 0 ->
  null_count A = 0.
Proof.
  intros Hb Hc. unfold null_count.
  destruct (data_null_count (array_data A) <? 0) eqn:E.
  - now apply no_bitmap_no_nulls.
  - apply Z.ltb_ge in E. lia.
Qed.

(** The elements of a plain chunk are the slots of its buffer from its
    offset on. *)
Lemma plain_chunk_elements (c : Array) :
  plain_chunk c = true ->
  exists ty d v o,
    c = FlatArray ty d (Some v) o /\
    fast_path (id ty) <> None /\
    data_null_bitmap d = None /\ data_null_count d = 0 /\
    0 <= data_offset d /\ 0 <= data_length d /\
    data_offset d + data_length d <= Z.of_nat (List.length v) /\
    array_elements c
    = firstn (Z.to_nat (data_length d)) (skipn (Z.to_nat (data_offset d)) v) /\
    Z.of_nat (List.length (array_elements c)) = length c.
Proof.
  intros H. destruct c as [ty d [v|] o | |]; try discriminate.
  cbn [plain_chunk] in H.
  apply andb_prop in H. destruct H as [H Hfit]. apply Z.leb_le in Hfit.
  apply andb_prop in H. destruct H as [H Hlen]. apply Z.leb_le in Hlen.
  apply andb_prop in H. destruct H as [H Hoff]. apply Z.leb_le in Hoff.
  apply andb_prop in H. destruct H as [H Hnc]. apply Z.eqb_eq in Hnc.
  apply andb_prop in H. destruct H as [Hfast Hbits].
  exists ty, d, v, o.
  assert (He : array_elements (FlatArray ty d (Some v) o)
               = firstn (Z.to_nat (data_length d))
                   (skipn (Z.to_nat (data_offset d)) v)).
  { unfold array_elements, ptr_add. cbn [values_buffer].
    apply read_values_firstn. unfold length, offset. cbn [array_data].
    rewrite length_skipn. lia. }
  split; [reflexivity|].
  split; [destruct (fast_path (id ty)); [discriminate | discriminate]|].
  split; [destruct (data_null_bitmap d); [discriminate | reflexivity]|].
  split; [lia|]. split; [lia|]. split; [lia|]. split; [lia|].
  split; [exact He|].
  rewrite He, length_firstn, length_skipn. unfold length. cbn [array_data].
  lia.
Qed.

(** Writing a non-empty slice of a plain chunk hands over the rows of the
    slice. *)
Lemma plain_slice_Write (properties : ArrowWriterProperties)
    (writer_ : ColumnWriter) (field : Field) (c : Array) (co n : Z) :
  plain_chunk c = true ->
  children (type field) = [] ->
  (forall call, throws writer_ call = None) ->
  0 <= co -> 1 <= n -> co + n <= length c ->
  exists call,
    Write properties writer_ field (Slice c co n) = Some (OK, [call]) /\
    call_rows call
    = firstn (Z.to_nat n) (skipn (Z.to_nat co) (array_elements c)).
Proof.
  intros Hplain Hleaf Hquiet Hco Hn Hfit.
  destruct (plain_chunk_elements c Hplain)
    as [ty [d [v [o [-> [Hfast [Hb [Hnc [Hoff [Hlen [Hbuf [He _]]]]]]]]]]]].
  unfold length in Hfit. cbn [array_data] in Hfit.
  rewrite He.
  assert (Hna : TypeId_eqb (id ty) NA = false)
    by (destruct (id ty); try reflexivity; cbn in Hfast; congruence).
  assert (Hid : TypeId_eqb (id ty) LIST || TypeId_eqb (id ty) STRUCT = false)
    by (destruct (id ty); try reflexivity; cbn in Hfast; congruence).
  assert (Hslice : Slice (FlatArray ty d (Some v) o) co n
                   = FlatArray ty (mkArrayData n (-1) (co + data_offset d) None)
                       (Some v) o).
  { cbn [Slice]. rewrite Hna. unfold slice_data, kUnknownNullCount.
    rewrite Hb. f_equal. f_equal. lia. }
  rewrite Hslice.
  set (A' := FlatArray ty (mkArrayData n (-1) (co + data_offset d) None)
               (Some v) o).
  rewrite (Write_flat properties writer_ field A' eq_refl
             ltac:(unfold A', length; cbn; lia) Hleaf Hid).
  assert (Hslice' : Slice A' 0 (length A') = A').
  { unfold A', length. cbn [Slice array_data data_length]. rewrite Hna.
    unfold slice_data, kUnknownNullCount. cbn [data_length data_offset
      data_null_bitmap Z.add]. f_equal. f_equal. lia. }
  rewrite Hslice'.
  assert (Hnull : null_count A' = 0)
    by (apply null_count_no_bitmap; [reflexivity | cbn; lia]).
  assert (Hrows : firstn (Z.to_nat n)
                    (skipn (Z.to_nat (co + data_offset d)) v)
                  = firstn (Z.to_nat n)
                      (skipn (Z.to_nat co)
                         (firstn (Z.to_nat (data_length d))
                            (skipn (Z.to_nat (data_offset d)) v)))).
  { rewrite skipn_firstn_comm, firstn_firstn, skipn_skipn.
    f_equal; [lia | f_equal; lia]. }
  change (array_type A') with ty. change (length A') with n.
  destruct (id ty) eqn:Eid; cbn in Hfast; try congruence;
    cbn [write_leaf]; unfold TypedWriteBatch; rewrite Hnull;
    change (0 =? 0) with true; rewrite orb_true_r;
    unfold WriteNonNullableBatch, WriteBatch; rewrite Hquiet;
    eexists; (split; [reflexivity|]);
    cbn [call_rows convert_batch as_values values_buffer A' offset array_data
         data_offset array_type length data_length];
    unfold ptr_add; exact Hrows.
Qed.

Lemma nth_error_skipn_cons {A : Type} (l : list A) :
  forall (n : nat) (x : A),
    nth_error l n = Some x -> skipn n l = x :: skipn (S n) l.
Proof.
  induction l as [|a l IH]; intros [|n] x H; try discriminate.
  - injection H as ->. reflexivity.
  - cbn [nth_error] in H. change (skipn (S n) (a :: l)) with (skipn n l).
    change (skipn (S (S n)) (a :: l)) with (skipn (S n) l). now apply IH.
Qed.

Lemma Slice_empty_length (c : Array) (co : Z) :
  co <= length c -> length (Slice c co 0) = 0.
Proof.
  intros H. unfold length in *.
  destruct c as [ty d v o | ty d offs values | k ty d];
    cbn [Slice array_data] in *;
    try destruct (TypeId_eqb (id ty) NA);
    unfold slice_data; cbn [data_length]; lia.
Qed.

(** The second loop of the chunked write over plain chunks: it hands
    over, call after call, the rows that remain to be written. *)
Lemma write_chunks_rows (properties : ArrowWriterProperties)
    (writer_ : ColumnWriter) (field : Field) (data : list Array) (size : Z) :
  Forall (fun c => plain_chunk c = true) data ->
  children (type field) = [] ->
  (forall call, throws writer_ call = None) ->
  forall (fuel : nat) (chunk_index chunk_offset values_written : Z)
         (calls : list WriterCall),
    0 <= chunk_index ->
    (List.length data - Z.to_nat chunk_index < fuel)%nat ->
    0 <= chunk_offset ->
    values_written <= size ->
    (forall chunk, nth_error data (Z.to_nat chunk_index) = Some chunk ->
       chunk_offset <= length chunk) ->
    size - values_written
    <= Z.of_nat (List.length
                   (column_rows (skipn (Z.to_nat chunk_index) data)))
       - chunk_offset ->
    exists made,
      write_chunks properties writer_ field fuel data chunk_index chunk_offset
        values_written size calls = Some (OK, calls ++ made) /\
      flat_map call_rows made
      = firstn (Z.to_nat (size - values_written))
          (skipn (Z.to_nat chunk_offset)
             (column_rows (skipn (Z.to_nat chunk_index) data))).
Proof.
  intros Hplain Hleaf Hquiet.
  induction fuel as [|fuel IH]; intros ci co vw calls Hci Hfuel Hco Hvw Hin Hrem;
    [lia|].
  cbn [write_chunks].
  destruct (vw <? size) eqn:Evw.
  2:{ apply Z.ltb_ge in Evw. exists []. rewrite app_nil_r.
      split; [reflexivity|]. replace (Z.to_nat (size - vw)) with 0%nat by lia.
      reflexivity. }
  apply Z.ltb_lt in Evw.
  destruct (nth_error data (Z.to_nat ci)) as [chunk|] eqn:Hnth.
  2:{ apply nth_error_None in Hnth. rewrite skipn_all2 in Hrem by exact Hnth.
      cbn in Hrem. lia. }
  specialize (Hin chunk eq_refl).
  pose proof (nth_error_skipn_cons data _ _ Hnth) as Hskip.
  assert (Hpc : plain_chunk chunk = true).
  { rewrite Forall_forall in Hplain. apply Hplain.
    eapply nth_error_In. exact Hnth. }
  destruct (plain_chunk_elements chunk Hpc)
    as [ty [d [v [o [Hc [_ [_ [_ [_ [Hlen0 [_ [_ Hrows]]]]]]]]]]]].
  assert (Hlt : (Z.to_nat ci < List.length data)%nat)
    by (apply nth_error_Some; congruence).
  rewrite Hskip in Hrem |- *. unfold column_rows in Hrem |- *.
  cbn [flat_map] in Hrem |- *. rewrite length_app in Hrem.
  fold (column_rows (skipn (S (Z.to_nat ci)) data)) in Hrem |- *.
  set (E := array_elements chunk) in *.
  set (R := column_rows (skipn (S (Z.to_nat ci)) data)) in *.
  assert (Hnext : Z.to_nat (ci + 1) = S (Z.to_nat ci)) by lia.
  destruct (Z.eq_dec (length chunk - co) 0) as [Hfull | Hpart].
  - (* nothing left of this chunk *)
    replace (Z.min (size - vw) (length chunk - co)) with 0 by lia.
    unfold Write at 1. rewrite (Slice_empty_length chunk co Hin).
    change (0 =? 0) with true. cbv iota. rewrite Hfull.
    change (0 =? 0) with true. cbv iota.
    destruct (IH (ci + 1) 0 (vw + 0) (calls ++ []) ltac:(lia) ltac:(lia)
                ltac:(lia) ltac:(lia))
      as [made [Hrun Hmade]].
    { intros c' Hc'. rewrite Forall_forall in Hplain.
      destruct (plain_chunk_elements c' (Hplain c' (nth_error_In _ _ Hc')))
        as [ty' [d' [v' [o' [-> [_ [_ [_ [_ [Hl' _]]]]]]]]]].
      exact Hl'. }
    { rewrite Hnext. fold R. lia. }
    exists made. rewrite Hrun, app_nil_r. split; [reflexivity|].
    rewrite Hmade, Hnext. fold R. rewrite Z.add_0_r.
    rewrite skipn_app, (skipn_all2 E) by lia.
    cbn [app]. f_equal. f_equal. lia.
  - (* at least one row of this chunk *)
    set (cws := Z.min (size - vw) (length chunk - co)).
    destruct (plain_slice_Write properties writer_ field chunk co cws
                Hpc Hleaf Hquiet Hco ltac:(lia) ltac:(lia))
      as [call [Hw Hcall]].
    rewrite Hw.
    destruct (cws =? length chunk - co) eqn:Emove.
    + apply Z.eqb_eq in Emove.
      destruct (IH (ci + 1) 0 (vw + cws) (calls ++ [call]) ltac:(lia) ltac:(lia)
                  ltac:(lia) ltac:(lia))
        as [made [Hrun Hmade]].
      { intros c' Hc'. rewrite Forall_forall in Hplain.
        destruct (plain_chunk_elements c' (Hplain c' (nth_error_In _ _ Hc')))
          as [ty' [d' [v' [o' [-> [_ [_ [_ [_ [Hl' _]]]]]]]]]].
        exact Hl'. }
      { rewrite Hnext. fold R. lia. }
      exists (call :: made). rewrite Hrun, <- app_assoc.
      split; [reflexivity|].
      cbn [flat_map]. rewrite Hcall, Hmade, Hnext. fold R E.
      rewrite skipn_app. replace (Z.to_nat co - List.length E)%nat with 0%nat by lia.
      cbn [skipn]. rewrite firstn_app, length_skipn.
      rewrite (firstn_all2 (skipn (Z.to_nat co) E))
        by (rewrite length_skipn; lia).
      rewrite (firstn_all2 (n := Z.to_nat (size - vw)) (skipn (Z.to_nat co) E))
        by (rewrite length_skipn; lia).
      f_equal. f_equal. lia.
    + apply Z.eqb_neq in Emove.
      assert (Hdone : vw + cws = size) by lia.
      exists [call]. split.
      * destruct fuel; cbn [write_chunks]; rewrite Hdone, Z.ltb_irrefl;
          reflexivity.
      * cbn [flat_map]. rewrite app_nil_r, Hcall. fold E.
        rewrite skipn_app, firstn_app, length_skipn.
        replace (Z.to_nat (size - vw) - (List.length E - Z.to_nat co))%nat
          with 0%nat by lia.
        rewrite firstn_O, app_nil_r. f_equal. lia.
Qed.

Lemma plain_rows_length (data : list Array) :
  Forall (fun c => plain_chunk c = true) data ->
  Z.of_nat (List.length (column_rows data)) = chunked_length data /\
  Forall (fun chunk => 0 <= length chunk) data.
Proof.
  induction 1 as [|c data Hc _ [IHl IHf]]; [split; [reflexivity | constructor]|].
  destruct (plain_chunk_elements c Hc)
    as [ty [d [v [o [Heq [_ [_ [_ [_ [Hlen [_ [_ Hrows]]]]]]]]]]]].
  unfold column_rows in *. cbn [flat_map]. rewrite length_app.
  change (chunked_length (c :: data)) with (length c + chunked_length data).
  split; [lia|]. constructor; [|exact IHf]. subst c. exact Hlen.
Qed.

Lemma Forall_firstn_skipn {A : Type} (P : A -> Prop) (n : nat) (l : list A) :
  Forall P l -> Forall P (firstn n l) /\ Forall P (skipn n l).
Proof.
  intros H. rewrite <- (firstn_skipn n l) in H. now apply Forall_app in H.
Qed.

(** X10.  Writing rows [offset, offset + size) of a chunked column of
    plain numbers (fast-path type, no nulls) to a column writer that does
    not throw succeeds, and the rows handed over, call after call, are
    exactly those rows of the column in order, however the column is cut
    into chunks (empty chunks and sliced chunks included). *)
Theorem chunked_write_rows :
  forall (properties : ArrowWriterProperties) (writer_ : ColumnWriter)
         (field : Field) (data : ChunkedArray) (offset size : Z),
    Forall (fun c => plain_chunk c = true) data ->
    children (type field) = [] ->
    (forall call, throws writer_ call = None) ->
    0 <= offset < chunked_length data ->
    0 <= size ->
    offset + size <= chunked_length data ->
    exists calls,
      WriteChunked properties writer_ field data offset size
      = Some (OK, calls) /\
      flat_map call_rows calls
      = firstn (Z.to_nat size) (skipn (Z.to_nat offset) (column_rows data)).
Proof.
  intros p w field data off size Hplain Hleaf Hquiet Hoff Hsize Hfit.
  destruct (plain_rows_length data Hplain) as [Hrows Hwf].
  unfold WriteChunked.
  destruct (chunked_length data =? 0) eqn:E0; [apply Z.eqb_eq in E0; lia|].
  destruct (advance_inside data 0 0 off Hwf ltac:(lia))
    as [k [chunk [Hi [Hn [Ha [Hs [Hco Hlt]]]]]]].
  destruct (advance data 0 0 off) as [[ci pos] co]. cbn [fst snd] in *.
  cbn [Z.add] in Hi, Ha. subst ci pos.
  destruct (Forall_firstn_skipn _ k data Hplain) as [Hpf Hps].
  destruct (plain_rows_length _ Hpf) as [Hrf _].
  destruct (plain_rows_length _ Hps) as [Hrs _].
  assert (Hsplit : column_rows data
                   = column_rows (firstn k data) ++ column_rows (skipn k data)).
  { unfold column_rows. rewrite <- flat_map_app. now rewrite firstn_skipn. }
  assert (Htotal : chunked_length data
                   = chunked_length (firstn k data)
                     + chunked_length (skipn k data)).
  { rewrite <- Hrows, Hsplit, length_app, <- Hrf, <- Hrs. lia. }
  destruct (chunked_length data <=? chunked_length (firstn k data)) eqn:E1.
  { apply Z.leb_le in E1. lia. }
  assert (Hlen_chunk : 0 <= length chunk).
  { rewrite Forall_forall in Hwf. apply Hwf. eapply nth_error_In. exact Hn. }
  destruct (write_chunks_rows p w field data size Hplain Hleaf Hquiet
              (S (List.length data)) (Z.of_nat k) co 0 []
              ltac:(lia) ltac:(lia) Hco Hsize)
    as [calls [Hrun Hcalls]].
  { intros c' Hc'. rewrite Nat2Z.id in Hc'. rewrite Hn in Hc'.
    injection Hc' as <-. lia. }
  { rewrite Nat2Z.id. lia. }
  exists calls. split; [exact Hrun|].
  rewrite Hcalls, Nat2Z.id, Z.sub_0_r. f_equal.
  rewrite Hsplit, skipn_app.
  rewrite (skipn_all2 (n := Z.to_nat off)) by lia. cbn [app].
  f_equal. lia.
Qed.

(** Rows 1 to 3 of the column [10, 11], [], [12, 13, 14]. *)
Lemma chunked_write_rows_witness :
  exists calls,
    WriteChunked Builder ModeExamples.optional_writer
      LevelExamples.required_field RowExamples.column 1 3
    = Some (OK, calls) /\
    flat_map call_rows calls = [11; 12; 13].
Proof.
  apply (chunked_write_rows Builder ModeExamples.optional_writer
           LevelExamples.required_field RowExamples.column 1 3).
  - repeat constructor.
  - reflexivity.
  - reflexivity.
  - vm_compute. split; [discriminate | reflexivity].
  - vm_compute. discriminate.
  - vm_compute. discriminate.
Defined.

(** The calls of that write. *)
Example chunked_write_calls :
  WriteChunked Builder ModeExamples.optional_writer
    LevelExamples.required_field RowExamples.column 1 3
  = Some (OK, [CallWriteBatch Int32Type 1 None None (Numbers [11]);
               CallWriteBatch Int32Type 2 None None (Numbers [12; 13; 14])]).
Proof. reflexivity. Qed.

(** ** Lossless timestamp division *)





(** ** Binary columns *)

Lemma positions_snoc (n : nat) :
  positions (Z.of_nat (S n)) = positions (Z.of_nat n) ++ [Z.of_nat n].
Proof.
  unfold positions. rewrite !Nat2Z.id, seq_S, map_app. reflexivity.
Qed.

Lemma firstn_plus {A : Type} (a b : nat) (l : list A) :
  firstn (a + b) l = firstn a l ++ firstn b (skipn a l).
Proof.
  revert l. induction a as [|a IH]; intros l; [reflexivity|].
  destruct l as [|x l]; [now rewrite !firstn_nil|].
  cbn [Nat.add firstn skipn app]. now rewrite IH.
Qed.

(** Consecutive windows of a buffer, laid end to end, are one window. *)
Lemma window_concat (values vo : list Z) (n : nat) :
  (forall i, 0 <= i < Z.of_nat n -> 0 <= zth vo i 0 <= zth vo (i + 1) 0) ->
  zth vo 0 0 <= zth vo (Z.of_nat n) 0 /\
  List.concat (map (fun i => firstn (Z.to_nat (zth vo (i + 1) 0 - zth vo i 0))
                          (skipn (Z.to_nat (zth vo i 0)) values))
              (positions (Z.of_nat n)))
  = firstn (Z.to_nat (zth vo (Z.of_nat n) 0 - zth vo 0 0))
      (skipn (Z.to_nat (zth vo 0 0)) values).
Proof.
  induction n as [|n IH]; intros Hmono.
  - split; [cbn; lia|]. cbn [Z.of_nat]. rewrite Z.sub_diag. reflexivity.
  - destruct IH as [Hle IH]; [intros i Hi; apply Hmono; lia|].
    pose proof (Hmono (Z.of_nat n) ltac:(lia)) as Hn.
    replace (Z.of_nat (S n)) with (Z.of_nat n + 1) in * by lia.
    split; [lia|].
    replace (Z.of_nat n + 1) with (Z.of_nat (S n)) at 1 by lia.
    rewrite positions_snoc, map_app, concat_app, IH. cbn [map List.concat].
    rewrite app_nil_r.
    pose proof (Hmono 0) as H0.
    replace (Z.to_nat (zth vo (Z.of_nat n + 1) 0 - zth vo 0 0))
      with (Nat.add (Z.to_nat (zth vo (Z.of_nat n) 0 - zth vo 0 0))
              (Z.to_nat (zth vo (Z.of_nat n + 1) 0 - zth vo (Z.of_nat n) 0)))
      by lia.
    rewrite firstn_plus, skipn_skipn. do 3 f_equal.
    destruct n as [|n]; [cbn [Z.of_nat] in *; lia|].
    specialize (H0 ltac:(lia)). lia.
Qed.

(** X12.  A flat binary or string column without nulls is written with
    one dense call of one (length, pointer) pair per slot, and the bytes
    of the pairs laid end to end are exactly the window of the value data
    between the first and the last value offset of the array. *)
Theorem binary_write_bytes :
  forall (properties : ArrowWriterProperties) (writer_ : ColumnWriter)
         (field : Field) (A : Array),
    is_flat A = true ->
    array_wf A ->
    1 <= length A ->
    id (array_type A) = BINARY \/ id (array_type A) = STRING ->
    children (type field) = [] ->
    null_count A = 0 ->
    binary_offsets_ok A ->
    exists items call,
      Write properties writer_ field A
      = Some (PARQUET_CATCH_NOT_OK (throws writer_ call), [call]) /\
      call_mode call = Dense /\
      call_values call = ByteArrays items /\
      List.length items = Z.to_nat (length A) /\
      List.concat (map byte_array_bytes items)
      = firstn (Z.to_nat (zth (binary_value_offset A) (length A) 0
                          - zth (binary_value_offset A) 0 0))
          (skipn (Z.to_nat (zth (binary_value_offset A) 0 0))
                 (bitmap_bytes (values_buffer A))) /\
      Z.of_nat (List.length (List.concat (map byte_array_bytes items)))
      = zth (binary_value_offset A) (length A) 0
        - zth (binary_value_offset A) 0 0.
Proof.
  intros p w field A Hflat Hwf Hlen Hty Hleaf Hnull [Hmono Hmax].
  assert (Hid : TypeId_eqb (id (array_type A)) LIST
                || TypeId_eqb (id (array_type A)) STRUCT = false)
    by (destruct Hty as [-> | ->]; reflexivity).
  assert (Hna : TypeId_eqb (id (array_type A)) NA = false)
    by (destruct Hty as [-> | ->]; reflexivity).
  rewrite (Write_flat p w field A Hflat ltac:(lia) Hleaf Hid).
  destruct (Slice_whole A ltac:(lia)) as [Hl [Ho [Hb [Hv [Ht _]]]]].
  assert (Hoffs : binary_offsets (Slice A 0 (length A)) = binary_offsets A).
  { destruct A as [ty d vals voffs | ty d offs values | k ty d];
      try discriminate Hflat.
    cbn [Slice array_type] in *. rewrite Hna. reflexivity. }
  assert (Hwrite :
    forall dl rl,
      write_leaf p w (id (array_type A)) (Slice A 0 (length A)) (length A) dl rl
      = Some (TypedWriteBatch_Binary w (Slice A 0 (length A)) (length A) dl rl)).
  { intros dl rl. destruct Hty as [-> | ->]; reflexivity. }
  rewrite Hwrite. unfold TypedWriteBatch_Binary, WriteBatch.
  rewrite (Slice_whole_null_count A Hwf Hna), Hnull, Hv, Ho, Hl, Hoffs.
  change (0 =? 0) with true. rewrite orb_true_r.
  fold (binary_value_offset A).
  eexists. eexists. split; [reflexivity|].
  split; [reflexivity|]. split; [reflexivity|].
  split; [rewrite length_map; apply positions_length|].
  rewrite map_map. unfold byte_array_bytes. cbn [fst snd].
  change (fun x : Z =>
            firstn (Z.to_nat (zth (binary_value_offset A) (x + 1) 0
                              - zth (binary_value_offset A) x 0))
              (ptr_add (bitmap_bytes (values_buffer A))
                 (zth (binary_value_offset A) x 0)))
    with (fun x : Z =>
            firstn (Z.to_nat (zth (binary_value_offset A) (x + 1) 0
                              - zth (binary_value_offset A) x 0))
              (skipn (Z.to_nat (zth (binary_value_offset A) x 0))
                 (bitmap_bytes (values_buffer A)))).
  destruct (window_concat (bitmap_bytes (values_buffer A))
              (binary_value_offset A) (Z.to_nat (length A)))
    as [Hle Hcat]; [intros i Hi; apply Hmono; lia|].
  rewrite Z2Nat.id in Hle, Hcat by lia.
  rewrite Hcat. split; [reflexivity|].
  rewrite length_firstn, length_skipn.
  pose proof (Hmono 0 ltac:(lia)) as H0. lia.
Qed.

(** The strings [hi] and [!]: the bytes written are [104, 105, 33]. *)
Lemma binary_write_bytes_witness :
  exists items call,
    Write Builder ModeExamples.optional_writer
      (mkField "column" false BinaryExamples.string_type)
      BinaryExamples.strings
    = Some (PARQUET_CATCH_NOT_OK (throws ModeExamples.optional_writer call),
            [call]) /\
    call_mode call = Dense /\
    call_values call = ByteArrays items /\
    List.length items = 2%nat /\
    List.concat (map byte_array_bytes items) = [104; 105; 33] /\
    Z.of_nat (List.length (List.concat (map byte_array_bytes items))) = 3.
Proof.
  apply (binary_write_bytes Builder ModeExamples.optional_writer
           (mkField "column" false BinaryExamples.string_type)
           BinaryExamples.strings).
  - reflexivity.
  - split; [vm_compute; discriminate | reflexivity].
  - vm_compute. discriminate.
  - right. reflexivity.
  - reflexivity.
  - reflexivity.
  - split; [|vm_compute; discriminate].
    intros i Hi. change (length BinaryExamples.strings) with 2 in Hi.
    assert (i = 0 \/ i = 1) as [-> | ->] by lia;
      vm_compute; split; discriminate.
Defined.

(** ** Sequences of NewRowGroup and Close *)

(** What one operation does to the two members, and which calls it can
    make in which state. *)
Lemma run_op_cases (op : FileOp) (st : Impl) :
  let '(_, st1, events) := run_op op st in
  (closed_ st = true -> closed_ st1 = true /\ filter is_file_close events = []) /\
  (List.length (filter is_file_close events) <= 1)%nat /\
  (filter is_file_close events <> [] -> closed_ st1 = true) /\
  (row_group_writer_ st = false ->
     (row_group_writer_ st1 = false /\ ~ In RowGroupClose events) \/
     exists rest, events = AppendRowGroup :: rest).
Proof.
  destruct st as [rg cl], op as [u | u]; unfold run_op, NewRowGroup, Close;
    cbn [row_group_writer_ closed_];
    destruct u as [rt at_ ft]; cbn [row_group_close_throws
      append_row_group_throws file_close_throws];
    destruct rg, cl, rt, at_, ft; cbn;
    repeat split; try (intros; discriminate); try (intros; congruence);
    try lia; intros;
    try (left; split; [reflexivity | intros [H' | [H' | []]]; discriminate H']);
    try (left; split; [reflexivity | intros [H' | []]; discriminate H']);
    try (left; split; [reflexivity | intros []]);
    try (right; eexists; reflexivity).
Qed.

Lemma run_ops_closed (ops : list FileOp) :
  forall st, closed_ st = true ->
    filter is_file_close (fst (run_ops ops st)) = [].
Proof.
  induction ops as [|op rest IH]; intros st Hc; [reflexivity|].
  cbn [run_ops]. pose proof (run_op_cases op st) as H.
  destruct (run_op op st) as [[s st1] events].
  destruct H as [H _]. destruct (H Hc) as [Hc1 Hnone].
  specialize (IH st1 Hc1). destruct (run_ops rest st1) as [later st2].
  cbn [fst] in *. now rewrite filter_app, Hnone, IH.
Qed.

(** X13.  Whatever sequence of [NewRowGroup] and [Close] calls is made on
    a file writer, in whatever state and whichever calls of the underlying
    writer throw, the underlying file is closed at most once; and on a
    writer without a row group, no row group is closed before one has
    been appended. *)
Theorem file_closed_at_most_once :
  forall (ops : list FileOp) (st : Impl),
    (List.length (filter is_file_close (fst (run_ops ops st))) <= 1)%nat /\
    forall before after,
      fst (run_ops ops (mkImpl false (closed_ st)))
      = before ++ RowGroupClose :: after ->
      In AppendRowGroup before.
Proof.
  intros ops st. split.
  - revert st. induction ops as [|op rest IH]; intros st; [cbn; lia|].
    cbn [run_ops]. pose proof (run_op_cases op st) as H.
    destruct (run_op op st) as [[s st1] events].
    destruct H as [_ [Hone [Hset _]]].
    specialize (IH st1). pose proof (run_ops_closed rest st1) as Hcl.
    destruct (run_ops rest st1) as [later st2]. cbn [fst] in *.
    rewrite filter_app, length_app.
    destruct (filter is_file_close events) as [|e l] eqn:E; [cbn; lia|].
    rewrite Hcl by (apply Hset; discriminate). cbn [List.length] in *. lia.
  - generalize (closed_ st). clear st. intros cl.
    assert (Hgen : forall st, row_group_writer_ st = false ->
              forall before after,
                fst (run_ops ops st) = before ++ RowGroupClose :: after ->
                In AppendRowGroup before).
    { induction ops as [|op rest IH]; intros st Hrg before after Heq.
      - cbn in Heq. destruct before; discriminate Heq.
      - cbn [run_ops] in Heq. pose proof (run_op_cases op st) as H.
        destruct (run_op op st) as [[s st1] events].
        destruct H as [_ [_ [_ Hrow]]].
        specialize (IH st1).
        destruct (run_ops rest st1) as [later st2]. cbn [fst] in *.
        destruct (Hrow Hrg) as [[Hrg1 Hno] | [tl ->]].
        + clear Hrow. revert before Heq.
          induction events as [|e events IHe];
            intros before Heq.
          * exact (IH Hrg1 before after Heq).
          * destruct before as [|b before].
            { cbn in Heq. injection Heq as He _. exfalso. apply Hno.
              left. exact He. }
            cbn in Heq. injection Heq as <- Heq. right.
            apply IHe; [|exact Heq]. intros Hin. apply Hno. now right.
        + destruct before as [|b before]; [discriminate Heq|].
          cbn in Heq. injection Heq as <- _. now left. }
    apply Hgen. reflexivity.
Qed.

(** [NewRowGroup] does not look at the closed flag: after [Close], a new
    row group is still appended to the underlying writer, and a later
    [Close] leaves it open. *)
Example NewRowGroup_after_Close :
  fst (run_ops [DoNewRowGroup (mkUnderlying None None None);
                DoClose (mkUnderlying None None None);
                DoNewRowGroup (mkUnderlying None None None);
                DoClose (mkUnderlying None None None)] new_Impl)
  = [AppendRowGroup; RowGroupClose; FileClose; RowGroupClose; AppendRowGroup].
Proof. reflexivity. Qed.

(** ** Integer columns stored in a wider type *)





(** Under format version 2.0 the same integers are stored in 32 bits:
    the values past the signed range wrap around. *)
Example unsigned_wraps_in_version_2 :
  Write Builder (Examples.quiet_writer true PARQUET_2_0)
    (mkField "column" false IntegerExamples.uint32_type)
    IntegerExamples.unsigned
  = Some (OK, [CallWriteBatch Int32Type 3 None None
                 (Numbers [7; -2147483648; -1])]).
Proof. reflexivity. Qed.

(** ** Null and date columns *)

(** X18.  A null-typed column (all of whose slots are null) under a
    nullable childless field is written with one dense call that carries
    no values at all and one definition level 0 per slot. *)
Theorem null_column_levels_only :
  forall (properties : ArrowWriterProperties) (writer_ : ColumnWriter)
         (field : Field) (A : Array),
    is_flat A = true ->
    1 <= length A ->
    id (array_type A) = NA ->
    null_count A = length A ->
    children (type field) = [] ->
    nullable field = true ->
    Write properties writer_ field A
    = Some (PARQUET_CATCH_NOT_OK
              (throws writer_
                 (CallWriteBatch Int32Type (length A)
                    (Some (repeat 0 (Z.to_nat (length A)))) None NoValues)),
            [CallWriteBatch Int32Type (length A)
               (Some (repeat 0 (Z.to_nat (length A)))) None NoValues]).
Proof.
  intros p w field A Hflat Hlen Hty Hnull Hleaf Hnullable.
  assert (Hid : TypeId_eqb (id (array_type A)) LIST
                || TypeId_eqb (id (array_type A)) STRUCT = false)
    by (rewrite Hty; reflexivity).
  rewrite (Write_flat p w field A Hflat ltac:(lia) Hleaf Hid).
  rewrite Hnullable, Hty, Hnull. cbn [write_leaf].
  destruct (length A =? 0) eqn:E0; [apply Z.eqb_eq in E0; lia|].
  rewrite Z.eqb_refl. reflexivity.
Qed.

Lemma null_column_levels_only_witness :
  Write Builder ModeExamples.optional_writer
    (mkField "column" true ConversionExamples.null_type)
    ConversionExamples.nulls
  = Some (OK, [CallWriteBatch Int32Type 3 (Some [0; 0; 0]) None NoValues]).
Proof.
  apply (null_column_levels_only Builder ModeExamples.optional_writer
           (mkField "column" true ConversionExamples.null_type)
           ConversionExamples.nulls).
  - reflexivity.
  - vm_compute. discriminate.
  - reflexivity.
  - reflexivity.
  - reflexivity.
  - reflexivity.
Defined.




(** Division truncates toward zero: the last millisecond of the day
    before the epoch is written as day 0. *)
Example date64_before_epoch :
  Write Builder ModeExamples.optional_writer
    (mkField "column" false ConversionExamples.date64_type)
    (FlatArray ConversionExamples.date64_type (mkArrayData 1 0 0 None)
       (Some [-1]) [])
  = Some (OK, [CallWriteBatch Int32Type 1 None None (Numbers [0])]).
Proof. reflexivity. Qed.

(** ** Bounds on definition levels *)

Lemma nullable_count_nonneg (flags : list bool) : 0 <= nullable_count flags.
Proof. unfold nullable_count. lia. Qed.

Lemma nullable_count_skipn (flags : list bool) (r : Z) :
  0 <= r ->
  nullable_count (skipn (Z.to_nat r) flags)
  = (if at_level flags r false then 1 else 0)
    + nullable_count (skipn (Z.to_nat (r + 1)) flags).
Proof.
  intros Hr. rewrite (at_level_skipn flags r false Hr).
  replace (Z.to_nat (r + 1)) with (S (Z.to_nat r)) by lia.
  rewrite skipn_succ_tl. unfold nullable_count.
  destruct (skipn (Z.to_nat r) flags) as [|[|] rest];
    cbn [hd tl filter List.length]; lia.
Qed.

Lemma defs_added_refl (lb : LevelBuilder) : defs_added lb lb [].
Proof. unfold defs_added. now rewrite app_nil_r. Qed.

Lemma defs_added_trans (lb1 lb2 lb3 : LevelBuilder) (d1 d2 : list Z) :
  defs_added lb1 lb2 d1 -> defs_added lb2 lb3 d2 ->
  defs_added lb1 lb3 (d1 ++ d2).
Proof.
  intros [Hd1 [Ho1 Hn1]] [Hd2 [Ho2 Hn2]]. unfold defs_added.
  rewrite Hd2, Hd1, Ho2, Ho1, Hn2, Hn1, app_assoc. auto.
Qed.

Lemma defs_added_def (lb : LevelBuilder) (n v : Z) :
  defs_added lb (append_def lb n v) (repeat v (Z.to_nat n)).
Proof. unfold defs_added. cbn. auto. Qed.

Lemma defs_added_rep (lb : LevelBuilder) (n v : Z) :
  defs_added lb (append_rep lb n v) [].
Proof. unfold defs_added. cbn. now rewrite app_nil_r. Qed.

Lemma Forall_repeat {A : Type} (P : A -> Prop) (x : A) (n : nat) :
  P x -> Forall P (repeat x n).
Proof.
  intros H. apply Forall_forall. intros y Hy. apply repeat_spec in Hy.
  now subst y.
Qed.

(** The definition levels a walk over list entries appends lie between
    the level it starts from and that level raised by one for each list
    layer and each nullable field from the current layer down. *)
Lemma HandleListEntries_def_bound (fuel : nat) :
  forall (def_level rep_level offset n : Z) (lb : LevelBuilder)
         (s : Status) (lb' : LevelBuilder),
    0 <= rep_level <= Z.of_nat (List.length (offsets_ lb)) ->
    Z.of_nat (List.length (offsets_ lb)) <= 32767 ->
    0 <= def_level ->
    def_level + (Z.of_nat (List.length (offsets_ lb)) - rep_level)
    + nullable_count (skipn (Z.to_nat rep_level) (nullable_ lb)) <= 32767 ->
    HandleListEntries fuel def_level rep_level offset n lb = Some (s, lb') ->
    s = OK /\
    exists dext,
      defs_added lb lb' dext /\
      Forall (fun x =>
                def_level <= x <=
                def_level + (Z.of_nat (List.length (offsets_ lb)) - rep_level)
                + nullable_count (skipn (Z.to_nat rep_level) (nullable_ lb)))
             dext.
Proof.
  induction fuel as [|fuel IH];
    intros def r o n lb s lb' Hr Hdepth Hdef Hbound Hrun; [discriminate|].
  cbn [HandleListEntries] in Hrun.
  set (L := offsets_ lb) in *. set (NL := nullable_ lb) in *.
  set (len := Z.of_nat (List.length L)) in *.
  pose proof (nullable_count_skipn NL r ltac:(lia)) as Hcnt.
  pose proof (nullable_count_skipn NL (r + 1) ltac:(lia)) as Hcnt1.
  pose proof (nullable_count_nonneg (skipn (Z.to_nat (r + 1 + 1)) NL)) as Hc2.
  set (c0 := nullable_count (skipn (Z.to_nat r) NL)) in *.
  set (c1 := nullable_count (skipn (Z.to_nat (r + 1)) NL)) in *.
  assert (Hc1 : 0 <= c1) by apply nullable_count_nonneg.
  (* one list, not null *)
  assert (Hnonnull : forall def' j lb0 s0 lb2,
             offsets_ lb0 = L -> nullable_ lb0 = NL ->
             0 <= def' -> def' + (len - r) + c1 <= 32767 ->
             HandleNonNullList_body (HandleListEntries fuel) def' r j lb0
             = Some (s0, lb2) ->
             s0 = OK /\
             exists dext,
               defs_added lb0 lb2 dext /\
               Forall (fun x => def' <= x <= def' + (len - r) + c1) dext).
  { intros def' j lb0 s0 lb2 Hoff Hnl Hd' Hb' Hcall.
    unfold HandleNonNullList_body in Hcall. cbv zeta in Hcall.
    rewrite Hoff in Hcall. rewrite (at_level_skipn L r []) in Hcall by lia.
    destruct (skipn (Z.to_nat r) L) as [|layer rest] eqn:Hskip.
    - cbn [hd] in Hcall. rewrite !zth_nil in Hcall.
      change (int32 (0 - 0) =? 0) with true in Hcall. cbv iota in Hcall.
      injection Hcall as <- <-. split; [reflexivity|].
      exists [def']. split; [apply (defs_added_def lb0 1 def')|].
      constructor; [lia | constructor].
    - cbn [hd] in Hcall.
      pose proof (skipn_nonempty_length _ _ _ _ Hskip) as Hlt.
      destruct (int32 (zth layer (j + 1) 0 - zth layer j 0) =? 0).
      + injection Hcall as <- <-. split; [reflexivity|].
        exists [def']. split; [apply (defs_added_def lb0 1 def')|].
        constructor; [lia | constructor].
      + set (il := int32 (zth layer (j + 1) 0 - zth layer j 0)) in *.
        destruct (r + 1 <? Z.of_nat (List.length L)) eqn:Edeep.
        * apply Z.ltb_lt in Edeep. fold len in Edeep.
          rewrite (int16_small (r + 1)), (int16_small (def' + 1)) in Hcall
            by lia.
          assert (H1 : 0 <= r + 1 <= Z.of_nat (List.length (offsets_ lb0)))
            by (rewrite Hoff; fold len; lia).
          assert (H2 : Z.of_nat (List.length (offsets_ lb0)) <= 32767)
            by (rewrite Hoff; exact Hdepth).
          assert (H3 : def' + 1
                       + (Z.of_nat (List.length (offsets_ lb0)) - (r + 1))
                       + nullable_count
                           (skipn (Z.to_nat (r + 1)) (nullable_ lb0))
                       <= 32767)
            by (rewrite Hoff, Hnl; fold len; fold c1; lia).
          destruct (IH (def' + 1) (r + 1) (zth layer j 0) il lb0 s0 lb2
                       H1 H2 ltac:(lia) H3 Hcall)
            as [-> [dext [Hadd Hall]]].
          split; [reflexivity|]. exists dext. split; [exact Hadd|].
          rewrite Hoff, Hnl in Hall. fold len in Hall. fold c1 in Hall.
          eapply Forall_impl; [|exact Hall]. cbv beta. intros x Hx. lia.
        * (* the leaf layer *)
          apply Z.ltb_ge in Edeep. fold len in Edeep.
          assert (Hlast : len - r = 1) by (unfold len in *; lia).
          set (lb1 := if 1 <=? il
                      then append_rep lb0 (il - 1) (int16 (r + 1))
                      else lb0) in *.
          assert (Hadd1 : defs_added lb0 lb1 []).
          { subst lb1. destruct (1 <=? il);
              [apply defs_added_rep | apply defs_added_refl]. }
          destruct (negb _ && _) in Hcall; injection Hcall as <- <-;
            (split; [reflexivity|]).
          -- eexists. split.
             ++ eapply defs_added_trans; [exact Hadd1 | apply defs_added_def].
             ++ cbn [app]. apply Forall_repeat.
                rewrite (int16_small (def' + 1)) by lia. lia.
          -- eexists. split.
             ++ eapply defs_added_trans; [exact Hadd1|].
                unfold defs_added. cbn [def_levels_ offsets_ nullable_].
                split; [reflexivity|]. split; reflexivity.
             ++ cbn [app]. unfold leaf_def_levels.
                apply Forall_forall. intros x Hx.
                apply in_map_iff in Hx. destruct Hx as [i [<- _]].
                destruct Hadd1 as [_ [_ Hn1]]. rewrite Hn1, Hnl.
                destruct (at_level NL (r + 1) false);
                  cbn [andb];
                  [destruct (_ || _)|];
                  rewrite ?(int16_small (def' + 2)),
                          ?(int16_small (def' + 1)) by lia; lia. }
  (* one list *)
  assert (Hlist : forall j lb0 s0 lb2,
             offsets_ lb0 = L -> nullable_ lb0 = NL ->
             HandleList_body (HandleListEntries fuel) def r j lb0
             = Some (s0, lb2) ->
             s0 = OK /\
             exists dext,
               defs_added lb0 lb2 dext /\
               Forall (fun x => def <= x <= def + (len - r) + c0) dext).
  { intros j lb0 s0 lb2 Hoff Hnl Hcall. unfold HandleList_body in Hcall.
    rewrite Hnl in Hcall.
    destruct (at_level NL r false).
    - destruct (_ || _).
      + rewrite (int16_small (def + 1)) in Hcall by lia.
        destruct (Hnonnull (def + 1) j lb0 s0 lb2 Hoff Hnl ltac:(lia)
                    ltac:(lia) Hcall) as [-> [dext [Hadd Hall]]].
        split; [reflexivity|]. exists dext. split; [exact Hadd|].
        eapply Forall_impl; [|exact Hall]. cbv beta. intros x Hx. lia.
      + injection Hcall as <- <-. split; [reflexivity|].
        exists [def]. split; [apply (defs_added_def lb0 1 def)|].
        constructor; [lia | constructor].
    - destruct (Hnonnull def j lb0 s0 lb2 Hoff Hnl ltac:(lia)
                  ltac:(lia) Hcall) as [-> [dext [Hadd Hall]]].
      split; [reflexivity|]. exists dext. split; [exact Hadd|].
      eapply Forall_impl; [|exact Hall]. cbv beta. intros x Hx. lia. }
  (* the entries *)
  assert (Hloop : forall k i lb0 s0 lb2,
             offsets_ lb0 = L -> nullable_ lb0 = NL ->
             entries_loop (HandleListEntries fuel) k i def r o lb0
             = Some (s0, lb2) ->
             s0 = OK /\
             exists dext,
               defs_added lb0 lb2 dext /\
               Forall (fun x => def <= x <= def + (len - r) + c0) dext).
  { induction k as [|k IHk]; intros i lb0 s0 lb2 Hoff Hnl Hcall.
    - injection Hcall as <- <-. split; [reflexivity|].
      exists []. split; [apply defs_added_refl | constructor].
    - cbn [entries_loop] in Hcall.
      set (lb1 := if 0 <? i then append_rep lb0 1 r else lb0) in *.
      assert (Hadd0 : defs_added lb0 lb1 []).
      { subst lb1. destruct (0 <? i);
          [apply defs_added_rep | apply defs_added_refl]. }
      destruct (HandleList_body (HandleListEntries fuel) def r (o + i) lb1)
        as [[s1 lb2']|] eqn:Hone; [|discriminate].
      destruct (Hlist (o + i) lb1 s1 lb2'
                  ltac:(destruct Hadd0 as [_ [-> _]]; exact Hoff)
                  ltac:(destruct Hadd0 as [_ [_ ->]]; exact Hnl) Hone)
        as [-> [d1 [Hadd1 Hall1]]].
      destruct (IHk (i + 1) lb2' s0 lb2
                  ltac:(destruct Hadd1 as [_ [-> _]];
                        destruct Hadd0 as [_ [-> _]]; exact Hoff)
                  ltac:(destruct Hadd1 as [_ [_ ->]];
                        destruct Hadd0 as [_ [_ ->]]; exact Hnl) Hcall)
        as [-> [d2 [Hadd2 Hall2]]].
      split; [reflexivity|]. exists (d1 ++ d2). split.
      + exact (defs_added_trans _ _ _ _ _
                 (defs_added_trans _ _ _ _ _ Hadd0 Hadd1) Hadd2).
      + apply Forall_app. split; assumption. }
  exact (Hloop (Z.to_nat n) 0 lb s lb' eq_refl eq_refl Hrun).
Qed.

(** X17.  For a nested column (list layers over a flat leaf, a field with
    one child per level) the level builder returns, and every definition
    level it produces lies between 0 and the number of list layers plus
    the number of nullable fields on the path from the column to its
    leaf. *)
Theorem nested_def_levels_bounded :
  forall (array : Array) (field : Field),
    supported_array array = true ->
    has_multi_child_type field = false ->
    children (type field) <> [] ->
    Z.of_nat (list_depth array) + nullable_count (path_nullable field)
    <= 32767 ->
    exists levels def,
      GenerateLevels array field = Some (Success levels) /\
      def_levels_out levels = Some def /\
      Forall (fun x =>
                0 <= x <= Z.of_nat (list_depth array)
                          + nullable_count (path_nullable field))
             def.
Proof.
  intros array field Hs Hm Hc Hbound.
  pose proof (nullable_count_nonneg (path_nullable field)) as Hnn.
  destruct (GenerateLevels_nested array field Hs Hm Hc)
    as [lb3 [Ho [Hd [Hr [Hnl ->]]]]].
  assert (Hdepth3 : Z.of_nat (List.length (offsets_ lb3)) <= 32767)
    by (rewrite Ho, array_layers_length; lia).
  destruct (HandleListEntries_returns (S (List.length (offsets_ lb3))) 0 0 0
              (length array) lb3 ltac:(lia) Hdepth3 ltac:(lia) ltac:(lia))
    as [s [lb4 [Hrun _]]].
  rewrite Hrun.
  destruct (HandleListEntries_def_bound _ 0 0 0 (length array) lb3 s lb4
              ltac:(lia) Hdepth3 ltac:(lia)
              ltac:(rewrite Ho, Hnl, array_layers_length; cbn [Z.to_nat skipn];
                    lia)
              Hrun)
    as [-> [dext [[Hdef _] Hall]]].
  rewrite Hd in Hdef. cbn [app] in Hdef.
  rewrite Ho, Hnl, array_layers_length in Hall. cbn [Z.to_nat skipn] in Hall.
  destruct (VisitInline array _) as [s1 lb1].
  eexists. exists dext. split; [reflexivity|].
  cbn [def_levels_out]. rewrite Hdef. split; [reflexivity|].
  eapply Forall_impl; [|exact Hall]. cbv beta. intros x Hx. lia.
Qed.

(** The list column [[1, 2], null, [], [3]] under a nullable list of
    required items: one list layer and one nullable field, so no
    definition level exceeds 2. *)
Lemma nested_def_levels_bounded_witness :
  exists levels def,
    GenerateLevels Examples.list_with_nulls Examples.list_field
    = Some (Success levels) /\
    def_levels_out levels = Some def /\
    Forall (fun x => 0 <= x <= 1 + 1) def.
Proof.
  apply (nested_def_levels_bounded Examples.list_with_nulls
           Examples.list_field).
  - reflexivity.
  - reflexivity.
  - discriminate.
  - vm_compute. discriminate.
Defined.

(** ** Writing a column chunk and a table *)

Lemma file_calls_chunk (column : Z) (calls : list WriterCall)
    (tail : list TableEvent) :
  file_calls (NextColumnCall :: map (ColumnWrite column) calls ++ tail)
  = file_calls tail.
Proof.
  unfold file_calls. cbn [flat_map app].
  induction calls as [|c calls IH]; [reflexivity | exact IH].
Qed.

Section FileWriterFacts.

Variable properties : ArrowWriterProperties.
Variable schema_ : string.
Variable schema_Equals : bool.
Variable max_row_group_length : Z.
Variable underlying : Z -> Underlying.
Variable next_column_throws : Z -> Z -> option string.
Variable column_writer : Z -> Z -> ColumnWriter.
Variable column_close_throws : Z -> Z -> option string.
Variable FromParquetSchema : Z -> Result Field.
Variable Cast : ChunkedColumn -> Result ChunkedColumn.

(** Writing a column chunk touches neither the members of the file
    writer nor the count of its row groups. *)
Lemma WriteColumnChunk_impl (fuel : nat) :
  forall (data : ChunkedColumn) (offset size : Z) (st : FileState)
         (s : Status) (st' : FileState) (events : list TableEvent),
    WriteColumnChunk properties next_column_throws column_writer
      column_close_throws FromParquetSchema Cast fuel data offset size st
    = Some (s, st', events) ->
    impl_ st' = impl_ st /\ row_groups_ st' = row_groups_ st /\
    file_calls events = [].
Proof.
  induction fuel as [|fuel IH]; intros data o n st s st' events Hrun;
    [discriminate|].
  cbn [WriteColumnChunk] in Hrun.
  destruct (TypeId_eqb (id (column_type data)) DICTIONARY).
  - destruct (TypeId_eqb (id (dictionary_value_type data)) NA).
    + exact (IH _ _ _ _ _ _ _ Hrun).
    + destruct (Cast data) as [output | err].
      * destruct (WriteColumnChunk _ _ _ _ _ _ fuel output o n st)
          as [[[s1 st1] ev1]|] eqn:Hrec; [|discriminate].
        injection Hrun as <- <- <-.
        destruct (IH _ _ _ _ _ _ _ Hrec) as [Hi [Hr Hf]].
        repeat split; assumption.
      * injection Hrun as <- <- <-. repeat split.
  - destruct (negb (row_group_writer_ (impl_ st))); [discriminate|].
    cbv zeta in Hrun.
    destruct (PARQUET_CATCH_NOT_OK
                (next_column_throws (row_groups_ st) (current_column_ st)));
      try (injection Hrun as <- <- <-; repeat split).
    destruct (FromParquetSchema (current_column_ st)) as [field | err];
      [|injection Hrun as <- <- <-; repeat split].
    destruct (WriteChunked _ _ _ _ _ _) as [[s1 calls]|]; [|discriminate].
    destruct s1; injection Hrun as <- <- <-;
      (split; [reflexivity|]); (split; [reflexivity|]);
      first [ rewrite file_calls_chunk; reflexivity
            | rewrite <- (app_nil_r (map _ calls)), file_calls_chunk;
              reflexivity ].
Qed.

Lemma write_columns_impl (fuel : nat) (todo : list ChunkedColumn) :
  forall (offset size : Z) (st : FileState)
         (s : Status) (st' : FileState) (events : list TableEvent),
    write_columns properties next_column_throws column_writer
      column_close_throws FromParquetSchema Cast fuel todo offset size st
    = Some (s, st', events) ->
    impl_ st' = impl_ st /\ row_groups_ st' = row_groups_ st /\
    file_calls events = [].
Proof.
  induction todo as [|column rest IH]; intros o n st s st' events Hrun;
    cbn [write_columns] in Hrun.
  - injection Hrun as <- <- <-. repeat split.
  - destruct (WriteColumnChunk _ _ _ _ _ _ fuel column o n st)
      as [[[s1 st1] ev1]|] eqn:Hone; [|discriminate].
    destruct (WriteColumnChunk_impl _ _ _ _ _ _ _ _ Hone) as [Hi [Hr Hf]].
    destruct s1; try (injection Hrun as <- <- <-; repeat split; assumption).
    destruct (write_columns _ _ _ _ _ _ fuel rest o n st1)
      as [[[s2 st2] ev2]|] eqn:Hrest; [|discriminate].
    injection Hrun as <- <- <-.
    destruct (IH _ _ _ _ _ _ Hrest) as [Hi2 [Hr2 Hf2]].
    split; [congruence|]. split; [congruence|].
    unfold file_calls in *. now rewrite flat_map_app, Hf, Hf2.
Qed.

Lemma NewRowGroup_closed (u : Underlying) (st : Impl) :
  closed_ (snd (fst (NewRowGroup u st))) = closed_ st.
Proof.
  unfold NewRowGroup.
  destruct (row_group_writer_ st);
    destruct (PARQUET_CATCH_NOT_OK (row_group_close_throws u));
    destruct (PARQUET_CATCH_NOT_OK (append_row_group_throws u));
    reflexivity.
Qed.

Lemma WriteRowGroup_closed (fuel : nat) (table : Table) (offset size : Z)
    (st : FileState) (s : Status) (st' : FileState)
    (events : list TableEvent) :
  WriteRowGroup properties underlying next_column_throws column_writer
    column_close_throws FromParquetSchema Cast fuel table offset size st
  = Some (s, st', events) ->
  closed_ (impl_ st') = closed_ (impl_ st).
Proof.
  unfold WriteRowGroup, NewRowGroup_at. intros Hrun.
  pose proof (NewRowGroup_closed (underlying (row_groups_ st)) (impl_ st))
    as H.
  destruct (NewRowGroup (underlying (row_groups_ st)) (impl_ st))
    as [[s1 impl1] ev1]. cbn [fst snd] in H.
  destruct s1; try (injection Hrun as <- <- <-; exact H).
  destruct (write_columns _ _ _ _ _ _ fuel (columns table) offset size _)
    as [[[s2 st2] ev2]|] eqn:Hcols; [|discriminate].
  injection Hrun as <- <- <-.
  destruct (write_columns_impl _ _ _ _ _ _ _ _ Hcols) as [Hi _].
  rewrite Hi. exact H.
Qed.

(** A step that went through leaves the closed flag alone; a step that
    failed has closed the writer. *)
Lemma or_Close_closed (s : Status) (st1 : FileState)
    (events : list TableEvent) :
  let '(s', st2, _) := or_Close underlying (s, st1, events) in
  s' = s /\
  (ok s = true -> closed_ (impl_ st2) = closed_ (impl_ st1)) /\
  (ok s = false -> closed_ (impl_ st2) = true).
Proof.
  unfold or_Close, Close_at.
  pose proof (Close_sets_closed (underlying (row_groups_ st1)) (impl_ st1))
    as H.
  destruct (Close (underlying (row_groups_ st1)) (impl_ st1))
    as [[s2 impl2] closing]. cbn [fst snd] in H.
  destruct s; cbn [ok impl_]; repeat split; intros; try discriminate; auto.
Qed.

Lemma row_group_loop_closed (fuel : nat) (table : Table) (size : Z) :
  forall (rounds : nat) (k : Z) (st : FileState) (events : list TableEvent)
         (s : Status) (st' : FileState) (events' : list TableEvent),
    row_group_loop properties underlying next_column_throws column_writer
      column_close_throws FromParquetSchema Cast rounds fuel table k size
      st events
    = Some (s, st', events') ->
    (ok s = true /\ closed_ (impl_ st') = closed_ (impl_ st)) \/
    (ok s = false /\ closed_ (impl_ st') = true).
Proof.
  induction rounds as [|rounds IH]; intros k st events s st' events' Hrun;
    cbn [row_group_loop] in Hrun;
    destruct (negb (fits_int64 (k * size))); try discriminate Hrun;
    destruct (k * size <? num_rows table); try discriminate Hrun;
    try (injection Hrun as <- <- <-; left; split; reflexivity).
  destruct (negb (fits_int64 (num_rows table - k * size)));
    [discriminate Hrun|].
  destruct (WriteRowGroup _ _ _ _ _ _ _ fuel table (k * size) _ st)
    as [[[s1 st1] ev1]|] eqn:Hgroup; [|discriminate].
  pose proof (WriteRowGroup_closed _ _ _ _ _ _ _ _ Hgroup) as Hw.
  pose proof (or_Close_closed s1 st1 ev1) as Hc.
  destruct (or_Close underlying (s1, st1, ev1)) as [[s2 st2] ev2].
  destruct Hc as [-> [Hgood Hbad]].
  destruct s1.
  - destruct (k =? INT32_MAX); [discriminate Hrun|].
    destruct (IH _ _ _ _ _ _ Hrun) as [[Hs Hcl] | [Hs Hcl]].
    + left. split; [exact Hs|]. rewrite Hcl, Hgood by reflexivity. exact Hw.
    + right. split; assumption.
  - injection Hrun as <- <- <-. right. split; [reflexivity|].
    now apply Hbad.
  - injection Hrun as <- <- <-. right. split; [reflexivity|].
    now apply Hbad.
  - injection Hrun as <- <- <-. right. split; [reflexivity|].
    now apply Hbad.
Qed.

End FileWriterFacts.

(** X15.  Whenever [WriteTable] returns: on success the closed flag of
    the writer is as it was before; a failure is either a rejection before
    any call was made (an invalid table, a chunk size that is not positive
    for a table with rows, a schema that does not match), which leaves the
    writer as it was, or it leaves the writer closed. *)
Theorem WriteTable_failure_closes :
  forall (properties : ArrowWriterProperties) (schema_ : string)
         (schema_Equals : bool) (max_row_group_length : Z)
         (underlying : Z -> Underlying)
         (next_column_throws : Z -> Z -> option string)
         (column_writer : Z -> Z -> ColumnWriter)
         (column_close_throws : Z -> Z -> option string)
         (FromParquetSchema : Z -> Result Field)
         (Cast : ChunkedColumn -> Result ChunkedColumn)
         (fuel : nat) (table : Table) (chunk_size : Z) (st : FileState)
         (s : Status) (st' : FileState) (events : list TableEvent),
    WriteTable properties schema_ schema_Equals max_row_group_length
      underlying next_column_throws column_writer column_close_throws
      FromParquetSchema Cast fuel table chunk_size st
    = Some (s, st', events) ->
    (ok s = true /\ closed_ (impl_ st') = closed_ (impl_ st)) \/
    (ok s = false /\ events = [] /\ st' = st /\
     (ok (Validate table) = false \/
      (chunk_size <= 0 /\ 0 < num_rows table) \/
      schema_Equals = false)) \/
    (ok s = false /\ closed_ (impl_ st') = true).
Proof.
  intros props schema eq maxlen u nt cw ct fps cast fuel table cs st
         s st' events Hrun.
  unfold WriteTable in Hrun.
  destruct (Validate table) eqn:Ev;
    try (injection Hrun as <- <- <-; right; left;
         repeat split; left; reflexivity).
  destruct ((cs <=? 0) && (0 <? num_rows table)) eqn:Ecs.
  { injection Hrun as <- <- <-. right. left. repeat split.
    apply andb_prop in Ecs. destruct Ecs as [H1 H2].
    apply Z.leb_le in H1. apply Z.ltb_lt in H2. right. left. lia. }
  destruct eq; cbn [negb] in Hrun.
  2:{ injection Hrun as <- <- <-. right. left. repeat split.
      right. right. reflexivity. }
  destruct (num_rows table =? 0).
  - destruct (WriteRowGroup _ _ _ _ _ _ _ fuel table 0 0 st)
      as [[[s1 st1] ev1]|] eqn:Hgroup; [|discriminate].
    pose proof (WriteRowGroup_closed _ _ _ _ _ _ _ _ _ _ _ _ _ _ _ Hgroup)
      as Hw.
    pose proof (or_Close_closed u s1 st1 ev1) as Hc.
    destruct (or_Close u (s1, st1, ev1)) as [[s2 st2] ev2].
    injection Hrun as <- <- <-. destruct Hc as [-> [Hgood Hbad]].
    destruct (ok s1) eqn:Eok.
    + left. split; [reflexivity|]. now rewrite Hgood.
    + right. right. split; [reflexivity|]. now apply Hbad.
  - destruct (row_group_loop_closed _ _ _ _ _ _ _ _ _ _ _ _ _ _ _ _ _ Hrun)
      as [[Hs Hcl] | [Hs Hcl]].
    + left. split; assumption.
    + right. right. split; assumption.
Qed.

(** The second column has no field in the file schema: the first row
    group fails at it, the row group and the file are closed and the
    error is returned. *)
Lemma WriteTable_failure_closes_witness :
  (ok (NotImplemented [Str "column b"%string]) = true /\
   closed_ (mkImpl true true) = closed_ new_Impl) \/
  (ok (NotImplemented [Str "column b"%string]) = false /\
   [FileCall AppendRowGroup; NextColumnCall;
    ColumnWrite 0 (CallWriteBatch Int32Type 2 None None (Numbers [10; 11]));
    ColumnCloseCall 0; NextColumnCall; FileCall RowGroupClose;
    FileCall FileClose] = [] /\
   mkFileState (mkImpl true true) 1 2 = mkFileState new_Impl 0 0 /\
   (ok (Validate TableExamples.five_rows) = false \/
    (2 <= 0 /\ 0 < num_rows TableExamples.five_rows) \/
    true = false)) \/
  (ok (NotImplemented [Str "column b"%string]) = false /\
   closed_ (mkImpl true true) = true).
Proof.
  apply (WriteTable_failure_closes Builder "a: int32, b: int32" true 100
           TableExamples.quiet TableExamples.no_throw TableExamples.writers
           TableExamples.no_throw TableExamples.second_field_missing
           TableExamples.no_cast 1 TableExamples.five_rows 2
           (mkFileState new_Impl 0 0)
           (NotImplemented [Str "column b"%string])
           (mkFileState (mkImpl true true) 1 2)
           [FileCall AppendRowGroup; NextColumnCall;
            ColumnWrite 0
              (CallWriteBatch Int32Type 2 None None (Numbers [10; 11]));
            ColumnCloseCall 0; NextColumnCall; FileCall RowGroupClose;
            FileCall FileClose]).
  reflexivity.
Defined.

(** ** The row groups of a table of plain columns *)

(** The window of rows of a row range in a column. *)
Lemma WriteChunked_window (properties : ArrowWriterProperties)
    (writer_ : ColumnWriter) (field : Field) (data : ChunkedArray)
    (offset size : Z) :
  Forall (fun c => plain_chunk c = true) data ->
  children (type field) = [] ->
  (forall call, throws writer_ call = None) ->
  (chunked_length data = 0 /\ offset = 0 /\ size = 0) \/
  (0 <= offset < chunked_length data /\ 0 <= size /\
   offset + size <= chunked_length data) ->
  exists calls,
    WriteChunked properties writer_ field data offset size
    = Some (OK, calls) /\
    flat_map call_rows calls
    = firstn (Z.to_nat size) (skipn (Z.to_nat offset) (column_rows data)).
Proof.
  intros Hplain Hleaf Hquiet [[Hzero [-> ->]] | [Hoff [Hsize Hfit]]].
  { exists []. unfold WriteChunked. rewrite Hzero. split; reflexivity. }
  revert Hplain Hleaf Hquiet Hoff Hsize Hfit.
  generalize properties writer_ field data offset size.
  clear properties writer_ field data offset size.

  intros p w field data off size Hplain Hleaf Hquiet Hoff Hsize Hfit.
  destruct (plain_rows_length data Hplain) as [Hrows Hwf].
  unfold WriteChunked.
  destruct (chunked_length data =? 0) eqn:E0; [apply Z.eqb_eq in E0; lia|].
  destruct (advance_inside data 0 0 off Hwf ltac:(lia))
    as [k [chunk [Hi [Hn [Ha [Hs [Hco Hlt]]]]]]].
  destruct (advance data 0 0 off) as [[ci pos] co]. cbn [fst snd] in *.
  cbn [Z.add] in Hi, Ha. subst ci pos.
  destruct (Forall_firstn_skipn _ k data Hplain) as [Hpf Hps].
  destruct (plain_rows_length _ Hpf) as [Hrf _].
  destruct (plain_rows_length _ Hps) as [Hrs _].
  assert (Hsplit : column_rows data
                   = column_rows (firstn k data) ++ column_rows (skipn k data)).
  { unfold column_rows. rewrite <- flat_map_app. now rewrite firstn_skipn. }
  assert (Htotal : chunked_length data
                   = chunked_length (firstn k data)
                     + chunked_length (skipn k data)).
  { rewrite <- Hrows, Hsplit, length_app, <- Hrf, <- Hrs. lia. }
  destruct (chunked_length data <=? chunked_length (firstn k data)) eqn:E1.
  { apply Z.leb_le in E1. lia. }
  assert (Hlen_chunk : 0 <= length chunk).
  { rewrite Forall_forall in Hwf. apply Hwf. eapply nth_error_In. exact Hn. }
  destruct (write_chunks_rows p w field data size Hplain Hleaf Hquiet
              (S (List.length data)) (Z.of_nat k) co 0 []
              ltac:(lia) ltac:(lia) Hco Hsize)
    as [calls [Hrun Hcalls]].
  { intros c' Hc'. rewrite Nat2Z.id in Hc'. rewrite Hn in Hc'.
    injection Hc' as <-. lia. }
  { rewrite Nat2Z.id. lia. }
  exists calls. split; [exact Hrun|].
  rewrite Hcalls, Nat2Z.id, Z.sub_0_r. f_equal.
  rewrite Hsplit, skipn_app.
  rewrite (skipn_all2 (n := Z.to_nat off)) by lia. cbn [app].
  f_equal. lia.
Qed.

Lemma rows_written_app (i : Z) (l1 l2 : list TableEvent) :
  rows_written i (l1 ++ l2) = rows_written i l1 ++ rows_written i l2.
Proof. unfold rows_written. apply flat_map_app. Qed.

Lemma rows_written_file_calls (i : Z) (l : list FileEvent) :
  rows_written i (map FileCall l) = [].
Proof. induction l as [|e l IH]; [reflexivity | exact IH]. Qed.

Lemma rows_written_chunk (i column : Z) (calls : list WriterCall) :
  rows_written i (NextColumnCall :: map (ColumnWrite column) calls
                  ++ [ColumnCloseCall column])
  = if column =? i then flat_map call_rows calls else [].
Proof.
  unfold rows_written. cbn [flat_map app].
  induction calls as [|c calls IH]; cbn [map app flat_map].
  - now destruct (column =? i).
  - rewrite IH. now destruct (column =? i).
Qed.

Lemma file_calls_app (l1 l2 : list TableEvent) :
  file_calls (l1 ++ l2) = file_calls l1 ++ file_calls l2.
Proof. unfold file_calls. apply flat_map_app. Qed.

Lemma file_calls_map (l : list FileEvent) : file_calls (map FileCall l) = l.
Proof.
  induction l as [|e l IH]; [reflexivity|].
  cbn [map]. unfold file_calls in *. cbn [flat_map app]. now rewrite IH.
Qed.

Section PlainTable.

Variable properties : ArrowWriterProperties.
Variable underlying : Z -> Underlying.
Variable next_column_throws : Z -> Z -> option string.
Variable column_writer : Z -> Z -> ColumnWriter.
Variable column_close_throws : Z -> Z -> option string.
Variable FromParquetSchema : Z -> Result Field.
Variable Cast : ChunkedColumn -> Result ChunkedColumn.
Variable fuel : nat.
Variable rows : Z.

Hypothesis underlying_quiet :
  forall k, row_group_close_throws (underlying k) = None /\
            append_row_group_throws (underlying k) = None.
Hypothesis columns_quiet :
  forall k n, next_column_throws k n = None /\
              column_close_throws k n = None /\
              forall call, throws (column_writer k n) call = None.
Hypothesis fields_leaf :
  forall n, exists field,
    FromParquetSchema n = Success field /\ children (type field) = [].

Lemma WriteColumnChunk_plain (data : ChunkedColumn) (offset size : Z)
    (st : FileState) :
  plain_column rows data ->
  row_group_writer_ (impl_ st) = true ->
  range_ok rows offset size ->
  exists events,
    WriteColumnChunk properties next_column_throws column_writer
      column_close_throws FromParquetSchema Cast (S fuel) data offset size st
    = Some (OK,
            mkFileState (impl_ st) (row_groups_ st) (current_column_ st + 1),
            events) /\
    file_calls events = [] /\
    forall i,
      rows_written i events
      = if current_column_ st =? i
        then firstn (Z.to_nat size)
               (skipn (Z.to_nat offset) (column_rows (chunks data)))
        else [].
Proof.
  intros [Hdict [Hplain Hlen]] Hrg Hrange.
  cbn [WriteColumnChunk]. rewrite Hdict, Hrg. cbn [negb]. cbv zeta.
  destruct (columns_quiet (row_groups_ st) (current_column_ st))
    as [Hnext [Hclose Hthrows]].
  rewrite Hnext. cbn [PARQUET_CATCH_NOT_OK].
  destruct (fields_leaf (current_column_ st)) as [field [-> Hleaf]].
  destruct (WriteChunked_window properties
              (column_writer (row_groups_ st) (current_column_ st)) field
              (chunks data) offset size Hplain Hleaf Hthrows)
    as [calls [-> Hcalls]].
  { rewrite Hlen. exact Hrange. }
  rewrite Hclose. cbn [PARQUET_CATCH_NOT_OK].
  eexists. split; [reflexivity|]. split; [apply file_calls_chunk|].
  intros i. rewrite rows_written_chunk, Hcalls. reflexivity.
Qed.

Lemma write_columns_plain (offset size : Z) (todo : list ChunkedColumn) :
  range_ok rows offset size ->
  Forall (plain_column rows) todo ->
  forall st : FileState,
    row_group_writer_ (impl_ st) = true ->
    exists events,
      write_columns properties next_column_throws column_writer
        column_close_throws FromParquetSchema Cast (S fuel) todo offset size
        st
      = Some (OK,
              mkFileState (impl_ st) (row_groups_ st)
                (current_column_ st + Z.of_nat (List.length todo)),
              events) /\
      file_calls events = [] /\
      (forall i, i < current_column_ st -> rows_written i events = []) /\
      forall k column,
        nth_error todo k = Some column ->
        rows_written (current_column_ st + Z.of_nat k) events
        = firstn (Z.to_nat size)
            (skipn (Z.to_nat offset) (column_rows (chunks column))).
Proof.
  intros Hrange. induction 1 as [|column rest Hcol _ IH]; intros st Hrg.
  - exists []. cbn [write_columns List.length Z.of_nat].
    rewrite Z.add_0_r. destruct st as [im rg cc].
    split; [reflexivity|]. split; [reflexivity|].
    split; [reflexivity|]. intros [|k] c H; discriminate H.
  - destruct (WriteColumnChunk_plain column offset size st Hcol Hrg Hrange)
      as [ev1 [Hone [Hf1 Hr1]]].
    destruct (IH (mkFileState (impl_ st) (row_groups_ st)
                    (current_column_ st + 1)) Hrg)
      as [ev2 [Hrest [Hf2 [Hbelow Hr2]]]].
    cbn [impl_ row_groups_ current_column_] in Hrest, Hbelow, Hr2.
    exists (ev1 ++ ev2). change (write_columns properties next_column_throws
      column_writer column_close_throws FromParquetSchema Cast (S fuel)
      (column :: rest) offset size st)
      with (match WriteColumnChunk properties next_column_throws
                    column_writer column_close_throws FromParquetSchema Cast
                    (S fuel) column offset size st with
            | None => None
            | Some (OK, st1, events) =>
                match write_columns properties next_column_throws
                        column_writer column_close_throws FromParquetSchema
                        Cast (S fuel) rest offset size st1 with
                | None => None
                | Some (s, st2, later) => Some (s, st2, events ++ later)
                end
            | Some (err, st1, events) => Some (err, st1, events)
            end).
    rewrite Hone, Hrest. split.
    { replace (current_column_ st
               + Z.of_nat (List.length (column :: rest)))
        with (current_column_ st + 1 + Z.of_nat (List.length rest))
        by (cbn [List.length]; lia).
      reflexivity. }
    split; [now rewrite file_calls_app, Hf1, Hf2|].
    split.
    + intros i Hi. rewrite rows_written_app, Hr1, Hbelow by lia.
      destruct (current_column_ st =? i) eqn:E;
        [apply Z.eqb_eq in E; lia | reflexivity].
    + intros [|k] c Hk.
      * cbn in Hk. injection Hk as <-. cbn [Z.of_nat].
        rewrite Z.add_0_r, rows_written_app, Hr1, Z.eqb_refl.
        rewrite Hbelow by lia. apply app_nil_r.
      * cbn [nth_error] in Hk. rewrite rows_written_app, Hr1.
        destruct (current_column_ st =? current_column_ st + Z.of_nat (S k))
          eqn:E; [apply Z.eqb_eq in E; lia|].
        cbn [app].
        replace (current_column_ st + Z.of_nat (S k))
          with (current_column_ st + 1 + Z.of_nat k) by lia.
        exact (Hr2 k c Hk).
Qed.

(** One row group of a table of plain columns. *)
Lemma WriteRowGroup_plain (table : Table) (offset size : Z) (st : FileState) :
  range_ok rows offset size ->
  Forall (plain_column rows) (columns table) ->
  exists group,
    WriteRowGroup properties underlying next_column_throws column_writer
      column_close_throws FromParquetSchema Cast (S fuel) table offset size
      st
    = Some (OK,
            mkFileState (mkImpl true (closed_ (impl_ st)))
              (row_groups_ st + 1)
              (Z.of_nat (List.length (columns table))),
            group) /\
    file_calls group
    = (if row_group_writer_ (impl_ st) then [RowGroupClose] else [])
      ++ [AppendRowGroup] /\
    row_group_holds table (offset, size) group.
Proof.
  intros Hrange Hplain. unfold WriteRowGroup, NewRowGroup_at.
  destruct (underlying_quiet (row_groups_ st)) as [Hc Ha].
  assert (Hnew : NewRowGroup (underlying (row_groups_ st)) (impl_ st)
                 = (OK, mkImpl true (closed_ (impl_ st)),
                    (if row_group_writer_ (impl_ st)
                     then [RowGroupClose] else []) ++ [AppendRowGroup])).
  { unfold NewRowGroup. rewrite Hc, Ha.
    destruct (row_group_writer_ (impl_ st)); reflexivity. }
  rewrite Hnew.
  destruct (write_columns_plain offset size (columns table) Hrange Hplain
              (mkFileState (mkImpl true (closed_ (impl_ st)))
                 (row_groups_ st + 1) 0) eq_refl)
    as [written [-> [Hf [_ Hr]]]].
  cbn [impl_ row_groups_ current_column_ Z.add] in *.
  eexists. split; [reflexivity|]. split.
  - now rewrite file_calls_app, file_calls_map, Hf, app_nil_r.
  - intros i column Hi. cbn [fst snd].
    rewrite rows_written_app, rows_written_file_calls. cbn [app].
    exact (Hr i column Hi).
Qed.

(** The number of row groups: the last one starts before the end of the
    table and ends at it or past it. *)
Lemma row_group_count (size : Z) :
  0 < rows -> 0 < size ->
  let g := (rows + size - 1) / size in
  0 < g /\ (g - 1) * size < rows <= g * size /\ g <= rows.
Proof.
  intros Hr Hs g.
  pose proof (Z.div_mod (rows + size - 1) size ltac:(lia)) as Hdm.
  pose proof (Z.mod_pos_bound (rows + size - 1) size Hs) as Hm.
  fold g in Hdm. nia.
Qed.

Lemma fits_int64_range (x : Z) :
  - 2 ^ 63 <= x < 2 ^ 63 -> fits_int64 x = true.
Proof.
  intros H. unfold fits_int64. apply andb_true_intro.
  split; [apply Z.leb_le | apply Z.ltb_lt]; lia.
Qed.

(** The loop from row group [k] on writes the [m] row groups left. *)
Lemma row_group_loop_plain (table : Table) (size : Z) :
  num_rows table = rows ->
  0 < size -> 0 < rows ->
  rows + size < 2 ^ 63 ->
  (rows + size - 1) / size <= INT32_MAX ->
  Forall (plain_column rows) (columns table) ->
  forall (m rounds : nat) (k : Z) (st : FileState)
         (events : list TableEvent),
    0 <= k ->
    k + Z.of_nat m = (rows + size - 1) / size ->
    (m <= rounds)%nat ->
    exists st' groups,
      row_group_loop properties underlying next_column_throws column_writer
        column_close_throws FromParquetSchema Cast rounds (S fuel) table k
        size st events
      = Some (OK, st', events ++ List.concat groups) /\
      impl_ st'
      = match m with
        | O => impl_ st
        | S _ => mkImpl true (closed_ (impl_ st))
        end /\
      Forall2 (row_group_holds table)
        (map (fun j => ((k + Z.of_nat j) * size,
                        Z.min size (rows - (k + Z.of_nat j) * size)))
             (seq 0 m))
        groups /\
      file_calls (List.concat groups) = opening_calls (impl_ st) m.
Proof.
  intros Hn Hsize Hrows Hfit Hint Hplain.
  destruct (row_group_count size Hrows Hsize) as [Hg [[Hlast Hend] Hle]].
  set (g := (rows + size - 1) / size) in *.
  induction m as [|m IH]; intros rounds k st events Hk Hkm Hrounds.
  - assert (k = g) by lia. subst k. exists st, [].
    destruct rounds; cbn [row_group_loop]; rewrite Hn;
      rewrite fits_int64_range by nia; cbn [negb];
      (destruct (g * size <? rows) eqn:E; [apply Z.ltb_lt in E; lia|]);
      cbn [List.concat]; rewrite app_nil_r;
      (split; [reflexivity|]); (split; [reflexivity|]);
      (split; [constructor | reflexivity]).
  - destruct rounds as [|rounds]; [lia|].
    assert (Hin : k * size < rows) by nia.
    cbn [row_group_loop]. rewrite Hn.
    rewrite fits_int64_range by nia. cbn [negb].
    apply Z.ltb_lt in Hin. rewrite Hin. apply Z.ltb_lt in Hin.
    rewrite fits_int64_range by nia. cbn [negb].
    destruct (WriteRowGroup_plain table (k * size)
                (Z.min size (rows - k * size)) st
                ltac:(right; nia) Hplain)
      as [group [-> [Hfile Hholds]]].
    cbn [or_Close].
    destruct (k =? INT32_MAX) eqn:E; [apply Z.eqb_eq in E; lia|].
    destruct (IH rounds (k + 1)
                (mkFileState (mkImpl true (closed_ (impl_ st)))
                   (row_groups_ st + 1)
                   (Z.of_nat (List.length (columns table))))
                (events ++ group) ltac:(lia) ltac:(lia) ltac:(lia))
      as [st' [groups [Hrun [Himpl [Hall Hopen]]]]].
    cbn [impl_ closed_] in Himpl, Hopen.
    exists st', (group :: groups). rewrite Hrun.
    cbn [List.concat]. rewrite <- app_assoc.
    split; [reflexivity|]. split; [now destruct m|]. split.
    + cbn [seq map]. constructor.
      * rewrite Z.add_0_r. exact Hholds.
      * rewrite <- seq_shift, map_map.
        erewrite map_ext; [exact Hall|].
        intros j. cbv beta.
        replace (k + Z.of_nat (S j)) with (k + 1 + Z.of_nat j) by lia.
        reflexivity.
    + rewrite file_calls_app, Hfile, Hopen. cbn [opening_calls].
      now rewrite <- app_assoc.
Qed.

End PlainTable.

Lemma firstn_seq_le (k : nat) :
  forall len start, (k <= len)%nat -> firstn k (seq start len) = seq start k.
Proof.
  induction k as [|k IH]; intros len start Hk; [reflexivity|].
  destruct len as [|len]; [lia|]. cbn [seq firstn]. f_equal.
  apply IH. lia.
Qed.

Lemma sum_snoc (l : list Z) (x : Z) :
  fold_right Z.add 0 (l ++ [x]) = fold_right Z.add 0 l + x.
Proof. induction l as [|y l IH]; cbn [app fold_right]; lia. Qed.

(** The first [m] row groups hold the first [m * size] rows. *)
Lemma sizes_sum (rows size : Z) (m : nat) :
  0 < size -> 0 <= rows ->
  (Z.of_nat m - 1) * size < rows ->
  fold_right Z.add 0
    (map snd
       (map (fun j => (Z.of_nat j * size,
                       Z.min size (rows - Z.of_nat j * size))) (seq 0 m)))
  = Z.min rows (Z.of_nat m * size).
Proof.
  intros Hs Hr. induction m as [|m IH]; intros Hm.
  - cbn. lia.
  - rewrite seq_S, !map_app. cbn [map snd Nat.add].
    rewrite sum_snoc, IH by nia. nia.
Qed.

(** The windows of the first [m] row ranges, laid end to end, are the
    first rows of the column. *)
Lemma windows_prefix (R : list Z) (rows size : Z) (m : nat) :
  0 < size -> 0 <= rows ->
  (Z.of_nat m - 1) * size < rows ->
  List.concat
    (map (fun r => firstn (Z.to_nat (snd r)) (skipn (Z.to_nat (fst r)) R))
       (map (fun j => (Z.of_nat j * size,
                       Z.min size (rows - Z.of_nat j * size))) (seq 0 m)))
  = firstn (Z.to_nat (Z.min rows (Z.of_nat m * size))) R.
Proof.
  intros Hs Hr. induction m as [|m IH]; intros Hm.
  - cbn [seq map List.concat Z.of_nat].
    replace (Z.to_nat (Z.min rows (0 * size))) with 0%nat by lia.
    reflexivity.
  - rewrite seq_S, !map_app, concat_app, IH by nia.
    cbn [map fst snd Nat.add List.concat]. rewrite app_nil_r.
    assert (Hnext : Z.of_nat (S m) * size = Z.of_nat m * size + size) by nia.
    assert (Hp : 0 <= Z.of_nat m * size < rows) by nia.
    rewrite Hnext. set (p := Z.of_nat m * size) in *.
    replace (Z.min rows p) with p by lia.
    replace (Z.to_nat (Z.min rows (p + size)))
      with (Nat.add (Z.to_nat p) (Z.to_nat (Z.min size (rows - p))))
      by lia.
    now rewrite firstn_plus.
Qed.

Lemma rows_written_concat (i : Z) (groups : list (list TableEvent)) :
  rows_written i (List.concat groups)
  = List.concat (map (rows_written i) groups).
Proof.
  induction groups as [|g groups IH]; [reflexivity|].
  cbn [List.concat map]. now rewrite rows_written_app, IH.
Qed.

Lemma row_groups_hold_windows (table : Table) (i : nat)
    (column : ChunkedColumn) (ranges : list (Z * Z))
    (groups : list (list TableEvent)) :
  nth_error (columns table) i = Some column ->
  Forall2 (row_group_holds table) ranges groups ->
  map (rows_written (Z.of_nat i)) groups
  = map (fun r => firstn (Z.to_nat (snd r))
                    (skipn (Z.to_nat (fst r)) (column_rows (chunks column))))
        ranges.
Proof.
  intros Hi. induction 1 as [|r g ranges groups Hr _ IH]; [reflexivity|].
  cbn [map]. now rewrite (Hr i column Hi), IH.
Qed.

(** X14.  For a valid table of plain numeric columns (no dictionary, no
    nulls, every column as long as the table) whose schema matches, with
    a positive chunk size and a positive maximal row group length, and
    with nothing throwing, [WriteTable] returns OK and leaves the writer
    open.  Its calls fall into one group per row range: the calls on the
    file writer close the row group before and append a new one, and the
    column writers of every column receive exactly the rows of that range.
    The ranges are cut every min(chunk size, maximal length) rows: each
    starts where the one before ends, none is longer than that size or
    empty (apart from the single empty row group of an empty table), and
    together they hold every row once, so that each column is handed
    over whole and in order.  The rows plus the size must stay below 2^63
    and the number of row groups within the range of [int]. *)
Theorem WriteTable_row_groups :
  forall (properties : ArrowWriterProperties) (schema_ : string)
         (max_row_group_length : Z) (underlying : Z -> Underlying)
         (next_column_throws : Z -> Z -> option string)
         (column_writer : Z -> Z -> ColumnWriter)
         (column_close_throws : Z -> Z -> option string)
         (FromParquetSchema : Z -> Result Field)
         (Cast : ChunkedColumn -> Result ChunkedColumn)
         (fuel : nat) (table : Table) (chunk_size : Z) (st : FileState),
    let rows := num_rows table in
    let size := Z.min chunk_size max_row_group_length in
    let ranges := row_group_ranges rows size in
    Validate table = OK ->
    0 <= rows ->
    0 < chunk_size ->
    0 < max_row_group_length ->
    rows + size < 2 ^ 63 ->
    (rows + size - 1) / size <= INT32_MAX ->
    Forall (plain_column rows) (columns table) ->
    (forall k, row_group_close_throws (underlying k) = None /\
               append_row_group_throws (underlying k) = None) ->
    (forall k n, next_column_throws k n = None /\
                 column_close_throws k n = None /\
                 forall call, throws (column_writer k n) call = None) ->
    (forall n, exists field,
       FromParquetSchema n = Success field /\ children (type field) = []) ->
    exists st' groups,
      WriteTable properties schema_ true max_row_group_length underlying
        next_column_throws column_writer column_close_throws
        FromParquetSchema Cast (S fuel) table chunk_size st
      = Some (OK, st', List.concat groups) /\
      impl_ st' = mkImpl true (closed_ (impl_ st)) /\
      Forall2 (row_group_holds table) ranges groups /\
      file_calls (List.concat groups)
      = opening_calls (impl_ st) (List.length ranges) /\
      (forall (i : nat) (column : ChunkedColumn),
         nth_error (columns table) i = Some column ->
         rows_written (Z.of_nat i) (List.concat groups)
         = column_rows (chunks column)) /\
      fold_right Z.add 0 (map snd ranges) = rows /\
      forall (k : nat) (o s : Z),
        nth_error ranges k = Some (o, s) ->
        o = fold_right Z.add 0 (map snd (firstn k ranges)) /\
        0 <= s <= size /\
        (0 < rows -> 0 < s).
Proof.
  intros props schema maxlen u nt cw ct fps cast fuel table cs st
         rows size ranges Hvalid Hrows Hcs Hmax Hfit Hint Hplain
         Hu Hc Hf.
  assert (Hsize : 0 < size) by (subst size; lia).
  assert (Hclamp : (if maxlen <? cs then maxlen else cs) = size).
  { subst size. destruct (Z.ltb_spec maxlen cs); lia. }
  assert (Hlength : forall (i : nat) (column : ChunkedColumn),
            nth_error (columns table) i = Some column ->
            Z.of_nat (List.length (column_rows (chunks column))) = rows).
  { intros i column Hi. apply nth_error_In in Hi.
    rewrite Forall_forall in Hplain.
    destruct (Hplain column Hi) as [_ [Hchunks Hlen]].
    destruct (plain_rows_length _ Hchunks) as [Hr _]. congruence. }
  unfold WriteTable. rewrite Hvalid.
  destruct (cs <=? 0) eqn:E; [apply Z.leb_le in E; lia|]. clear E.
  cbn [andb negb]. rewrite Hclamp. subst ranges. unfold row_group_ranges.
  fold rows. destruct (rows =? 0) eqn:E0.
  - apply Z.eqb_eq in E0.
    destruct (WriteRowGroup_plain props u nt cw ct fps cast fuel rows
                Hu Hc Hf table 0 0 st ltac:(left; auto) Hplain)
      as [group [-> [Hfile Hholds]]].
    cbn [or_Close]. eexists. exists [group].
    cbn [List.concat]. rewrite app_nil_r.
    split; [reflexivity|]. split; [reflexivity|].
    split; [constructor; [exact Hholds | constructor]|].
    split; [rewrite Hfile; reflexivity|].
    split.
    { intros i column Hi. rewrite (Hholds i column Hi). cbn [fst snd].
      specialize (Hlength i column Hi).
      destruct (column_rows (chunks column)); [reflexivity|].
      cbn [List.length] in Hlength. lia. }
    split; [cbn; lia|].
    intros [|k] o s Hk; cbn in Hk; [|destruct k; discriminate Hk].
    injection Hk as <- <-. cbn. lia.
  - apply Z.eqb_neq in E0. assert (Hpos : 0 < rows) by lia.
    destruct (row_group_count rows size Hpos Hsize)
      as [Hg [[Hlast Hend] Hle]].
    set (g := (rows + size - 1) / size) in *.
    assert (Hranges :
      map (fun k => (k * size, Z.min size (rows - k * size))) (positions g)
      = map (fun j => (Z.of_nat j * size,
                       Z.min size (rows - Z.of_nat j * size)))
            (seq 0 (Z.to_nat g))).
    { unfold positions. now rewrite map_map. }
    rewrite Hranges.
    destruct (row_group_loop_plain props u nt cw ct fps cast fuel rows
                Hu Hc Hf table size eq_refl Hsize Hpos Hfit Hint Hplain
                (Z.to_nat g) (Z.to_nat rows) 0 st []
                ltac:(lia) ltac:(fold g; lia) ltac:(lia))
      as [st' [groups [Hrun [Himpl [Hall Hopen]]]]].
    cbn [app Z.add] in Hrun, Hall.
    exists st', groups. split; [exact Hrun|].
    split; [destruct (Z.to_nat g) eqn:Eg; [lia | exact Himpl]|].
    split; [exact Hall|].
    split; [now rewrite length_map, length_seq|].
    split; [|split].
    + intros i column Hi.
      rewrite rows_written_concat,
        (row_groups_hold_windows table i column _ groups Hi Hall).
      rewrite windows_prefix by lia.
      specialize (Hlength i column Hi).
      apply firstn_all2. lia.
    + rewrite sizes_sum by lia. lia.
    + intros k o s Hk.
      pose proof (proj1 (nth_error_Some _ k)
                    ltac:(rewrite Hk; discriminate)) as Hlt.
      rewrite length_map, length_seq in Hlt.
      rewrite firstn_map, firstn_seq_le by lia.
      assert (Hbefore : (Z.of_nat k - 1) * size < rows) by nia.
      rewrite (sizes_sum rows size k Hsize Hrows Hbefore).
      rewrite nth_error_map, nth_error_seq in Hk.
      apply Nat.ltb_lt in Hlt. rewrite Hlt in Hk. apply Nat.ltb_lt in Hlt.
      cbn in Hk. injection Hk as <- <-. nia.
Qed.

(** Five rows in two columns, written two rows at a time: three row
    groups, of rows [0, 2), [2, 4) and [4, 5), and each column handed
    over whole. *)
Lemma WriteTable_row_groups_witness :
  exists st' groups,
    WriteTable Builder "a: int32, b: int32" true 100 TableExamples.quiet
      TableExamples.no_throw TableExamples.writers TableExamples.no_throw
      TableExamples.fields TableExamples.no_cast 1 TableExamples.five_rows 2
      (mkFileState new_Impl 0 0)
    = Some (OK, st', List.concat groups) /\
    impl_ st' = mkImpl true false /\
    Forall2 (row_group_holds TableExamples.five_rows)
      [(0, 2); (2, 2); (4, 1)] groups /\
    file_calls (List.concat groups)
    = [AppendRowGroup; RowGroupClose; AppendRowGroup; RowGroupClose;
       AppendRowGroup] /\
    (forall (i : nat) (column : ChunkedColumn),
       nth_error (columns TableExamples.five_rows) i = Some column ->
       rows_written (Z.of_nat i) (List.concat groups)
       = column_rows (chunks column)) /\
    fold_right Z.add 0 (map snd (row_group_ranges 5 2)) = 5 /\
    forall (k : nat) (o s : Z),
      nth_error (row_group_ranges 5 2) k = Some (o, s) ->
      o = fold_right Z.add 0 (map snd (firstn k (row_group_ranges 5 2))) /\
      0 <= s <= 2 /\
      (0 < 5 -> 0 < s).
Proof.
  apply (WriteTable_row_groups Builder "a: int32, b: int32" 100
           TableExamples.quiet TableExamples.no_throw TableExamples.writers
           TableExamples.no_throw TableExamples.fields TableExamples.no_cast
           0 TableExamples.five_rows 2 (mkFileState new_Impl 0 0)).
  - reflexivity.
  - vm_compute. discriminate.
  - reflexivity.
  - reflexivity.
  - reflexivity.
  - vm_compute. discriminate.
  - repeat constructor.
  - intros k. split; reflexivity.
  - intros k n. repeat split.
  - intros n. exists LevelExamples.required_field. split; reflexivity.
Defined.

(** A dictionary column of null values is replaced by a null array of its
    length, which is written whole: the offset 3 and the size 1 asked for
    are not used.  A dictionary column of other values goes through the
    cast, whose failure is returned. *)
Example dictionary_unwrap :
  WriteColumnChunk Builder TableExamples.no_throw TableExamples.writers
    TableExamples.no_throw TableExamples.null_fields TableExamples.no_cast 2
    TableExamples.dictionary_of_nulls 3 1
    (mkFileState (mkImpl true false) 1 0)
  = Some (OK, mkFileState (mkImpl true false) 1 1,
          [NextColumnCall;
           ColumnWrite 0
             (CallWriteBatch Int32Type 4 (Some [0; 0; 0; 0]) None NoValues);
           ColumnCloseCall 0]) /\
  WriteColumnChunk Builder TableExamples.no_throw TableExamples.writers
    TableExamples.no_throw TableExamples.null_fields TableExamples.no_cast 2
    (mkChunkedColumn TableExamples.dictionary_type Examples.int32_type [])
    3 1 (mkFileState (mkImpl true false) 1 0)
  = Some (NotImplemented [Str "cast"%string],
          mkFileState (mkImpl true false) 1 0, [CastCall]).
Proof. split; reflexivity. Qed.
